(** * FastDraw: spatial index (ObjectStore) and chunk cache (ChunkManager)

    A shallow embedding of [core/ObjectStore.ts], [core/ObjectStoreNode.ts]
    and [core/render/ChunkManager.ts].

    Conventions of the embedding:
    - a JavaScript [number] holding a coordinate is a rational [Q]:
      arithmetic on doubles is taken as exact, and there is no [NaN] and no
      infinity; a [number] holding an index, a counter or a flag word is a
      [Z];
    - a [Float32Array] cell holds [fround] of the number written into it, the
      nearest float32 as [Math.fround] gives it;
    - a typed array is a [list] read and written by a [Z] index: a write
      outside the array is dropped and a read outside it yields [None]
      ([undefined]), as in JavaScript;
    - [number[]] used as a stack ([push]/[pop]) is a [list] whose head is the
      top of the stack;
    - [Map] is a [gmap];
    - [this] is threaded explicitly; a function that can [throw] or that walks
      a linked list without a bound of its own returns an [outcome]. *)

From Stdlib Require Import ZArith QArith Qround Qabs Qpower Lia Lqa.
From stdpp Require Import base option list gmap strings sorting.

Local Open Scope Z_scope.

(** ** Outcomes of effectful operations *)

Inductive outcome (A : Type) : Type :=
  | Ret (a : A)     (* normal completion *)
  | Throws          (* an [Error] was thrown *)
  | Stray.          (* the run left the modelled behaviour: an unguarded read
                       outside an array (the source goes on with [undefined],
                       a list walk then never ends), or a list walk longer
                       than its step budget *)
Arguments Ret {A} a.
Arguments Throws {A}.
Arguments Stray {A}.

Definition obind {A B} (m : outcome A) (k : A -> outcome B) : outcome B :=
  match m with
  | Ret a => k a
  | Throws => Throws
  | Stray => Stray
  end.

Notation "'do' x <- m ; k" := (obind m (fun x => k))
  (at level 10, x name, m at level 100, k at level 200).

Lemma obind_Ret {A B} (m : outcome A) (k : A -> outcome B) b :
  obind m k = Ret b -> exists a, m = Ret a /\ k a = Ret b.
Proof. destruct m; simpl; intros H; try discriminate. eauto. Qed.

(** ** Rational comparisons as used by the source ([<], [<=], [>=], [>]) *)

Definition Qleb (a b : Q) : bool := Qle_bool a b.
Definition Qltb (a b : Q) : bool := negb (Qle_bool b a).
Definition qmin (a b : Q) : Q := if Qleb a b then a else b.
Definition qmax (a b : Q) : Q := if Qleb a b then b else a.

Lemma Qleb_le a b : Qleb a b = true <-> (a <= b)%Q.
Proof. apply Qle_bool_iff. Qed.

Lemma Qltb_lt a b : Qltb a b = true <-> (a < b)%Q.
Proof.
  unfold Qltb. rewrite negb_true_iff. split.
  - intros H. apply Qnot_le_lt. intros Hle. apply Qle_bool_iff in Hle. congruence.
  - intros H. destruct (Qle_bool b a) eqn:E; [|reflexivity].
    apply Qle_bool_iff in E. exfalso. apply (Qlt_not_le _ _ H E).
Qed.

Lemma Qleb_false a b : Qleb a b = false <-> (b < a)%Q.
Proof.
  rewrite <- Qltb_lt. unfold Qltb, Qleb. destruct (Qle_bool a b); simpl; intuition congruence.
Qed.


(** ** Float32 rounding

    Storing a number into a [Float32Array] rounds it to the nearest float32:
    a significand of 24 bits, ties to the even significand, steps of
    [2^-149] below [2^-126].  A magnitude above [FLOAT32_MAX] by half a step
    or more is stored as an infinity in the source; here it is rounded to 24
    bits like any other, and what is proved about a number read back from a
    cell assumes [float32Range] of the number written. *)

Definition pow2 (k : Z) : Q := (2 ^ k)%Q.

(** [floor(log2 a)] for a positive [a]: [Z.log2] of the numerator minus
    [Z.log2] of the denominator is that exponent or one more. *)
Definition floorLog2 (a : Q) : Z :=
  let k := Z.log2 (Qnum a) - Z.log2 (Zpos (Qden a)) in
  if Qleb (pow2 k) a then k else k - 1.

Definition roundHalfEven (q : Q) : Z :=
  let f := Qfloor q in
  match (q - inject_Z f ?= 1 # 2)%Q with
  | Lt => f
  | Gt => f + 1
  | Eq => if Z.even f then f else f + 1
  end.

Definition nearestFloat32 (q : Q) : Q :=
  let a := Qabs q in
  let ulp := pow2 (Z.max (floorLog2 a - 23) (-149)) in
  (inject_Z (Z.sgn (Qnum q) * roundHalfEven (a / ulp)) * ulp)%Q.

Definition FLOAT32_MAX : Q := inject_Z ((2 ^ 24 - 1) * 2 ^ 104).

Definition float32Range (q : Q) : bool := Qleb (Qabs q) FLOAT32_MAX.

(** The number is a float32 already. *)
Definition isFloat32 (q : Q) : bool := float32Range q && Qeq_bool (nearestFloat32 q) q.

(** [Math.fround]; a float32 is stored as it is written. *)
Definition fround (q : Q) : Q := if isFloat32 q then q else nearestFloat32 q.

Lemma fround_float32 q : isFloat32 q = true -> fround q = q.
Proof. unfold fround. intros ->. reflexivity. Qed.

Lemma fround_eq q : fround q == nearestFloat32 q.
Proof.
  unfold fround. destruct (isFloat32 q) eqn:E; [|reflexivity].
  apply andb_true_iff in E as [_ E]. symmetry. apply Qeq_bool_iff. exact E.
Qed.

Section Float32.
Local Open Scope Q_scope.

Lemma pow2_pos k : 0 < pow2 k.
Proof. apply Qpower_0_lt. reflexivity. Qed.

Lemma pow2_add a b : pow2 (a + b) == pow2 a * pow2 b.
Proof. apply Qpower_plus. discriminate. Qed.

Lemma pow2_inject k : (0 <= k)%Z -> pow2 k == inject_Z (2 ^ k).
Proof. intros H. symmetry. apply (Zpower_Qpower 2 k H). Qed.

Lemma pow2_lt_inv a b : pow2 a < pow2 b -> (a < b)%Z.
Proof. intros H. apply (Qpower_lt_compat_l_inv 2); [exact H|reflexivity]. Qed.

Lemma floorLog2_le a : 0 < a -> pow2 (floorLog2 a) <= a.
Proof.
  intros Ha. unfold floorLog2.
  destruct (Qleb _ a) eqn:E; [apply Qleb_le; exact E|].
  destruct a as [n d]. cbn [Qnum Qden].
  assert (Hn : (0 < n)%Z) by (unfold Qlt in Ha; simpl in Ha; lia).
  destruct (Z.log2_spec n Hn) as [L1 _].
  destruct (Z.log2_spec (Zpos d) (Pos2Z.is_pos d)) as [_ L2].
  pose proof (Z.log2_nonneg n) as N1. pose proof (Z.log2_nonneg (Zpos d)) as N2.
  set (ln := Z.log2 n) in *. set (ld := Z.log2 (Z.pos d)) in *.
  replace (ln - ld - 1)%Z with (ln - (ld + 1))%Z by lia.
  unfold pow2. rewrite Qpower_minus by discriminate.
  fold (pow2 ln) (pow2 (ld + 1)). rewrite !pow2_inject by lia.
  assert (P1 : (0 < 2 ^ ln)%Z) by (apply Z.pow_pos_nonneg; lia).
  assert (P2 : (0 < 2 ^ (ld + 1))%Z) by (apply Z.pow_pos_nonneg; lia).
  apply Qle_shift_div_r.
  - unfold Qlt. simpl. lia.
  - unfold Qle. simpl. unfold Z.succ in L2. nia.
Qed.

Lemma roundHalfEven_wd a b : a == b -> roundHalfEven a = roundHalfEven b.
Proof.
  intros H. unfold roundHalfEven.
  rewrite (Qfloor_comp a b H).
  assert (E : a - inject_Z (Qfloor b) == b - inject_Z (Qfloor b)) by (rewrite H; reflexivity).
  rewrite (Qcompare_comp _ _ E (1 # 2) (1 # 2) (Qeq_refl _)). reflexivity.
Qed.

Lemma roundHalfEven_Z n : roundHalfEven (inject_Z n) = n.
Proof.
  unfold roundHalfEven. rewrite Qfloor_Z.
  assert (E : inject_Z n - inject_Z n == 0) by ring.
  rewrite E. reflexivity.
Qed.

Lemma sgn_Qnum q m c : 0 < c -> q == inject_Z m * c -> Z.sgn (Qnum q) = Z.sgn m.
Proof.
  intros Hc Hq.
  destruct (Z.lt_trichotomy m 0) as [Hm|[Hm|Hm]].
  - assert (q < 0).
    { rewrite Hq. assert (E0 : 0 == 0 * c) by ring. rewrite E0.
      apply Qmult_lt_compat_r; [exact Hc|]. unfold Qlt. simpl. lia. }
    unfold Qlt in H. simpl in H. lia.
  - subst m. assert (q == 0) by (rewrite Hq; ring).
    unfold Qeq in H. simpl in H. lia.
  - assert (0 < q).
    { rewrite Hq. apply Qmult_lt_0_compat; [|exact Hc]. unfold Qlt. simpl. lia. }
    unfold Qlt in H. simpl in H. lia.
Qed.

(** A number [m * 2^k] with [|m| < 2^24] and [k >= -149] is a float32:
    rounding leaves it as it is. *)
Lemma nearestFloat32_dyadic q m k :
  q == inject_Z m * pow2 k -> (Z.abs m < 2 ^ 24)%Z -> (-149 <= k)%Z ->
  nearestFloat32 q == q.
Proof.
  intros Hq Hm Hk. unfold nearestFloat32.
  pose proof (pow2_pos k) as Pk.
  rewrite (sgn_Qnum q m (pow2 k) Pk Hq).
  assert (Ha : Qabs q == inject_Z (Z.abs m) * pow2 k).
  { rewrite Hq, Qabs_Qmult. rewrite (Qabs_pos (pow2 k)) by (apply Qlt_le_weak; exact Pk).
    apply Qmult_comp; [|reflexivity]. unfold Qabs, inject_Z. reflexivity. }
  set (s := Z.max (floorLog2 (Qabs q) - 23) (-149)).
  pose proof (pow2_pos s) as Ps.
  destruct (Z.eq_dec m 0%Z) as [->|Hm0].
  - assert (E : Qabs q / pow2 s == inject_Z 0%Z).
    { rewrite Ha. unfold Qdiv. change (inject_Z (Z.abs 0)) with 0.
      change (inject_Z 0) with 0. ring. }
    rewrite (roundHalfEven_wd _ _ E), roundHalfEven_Z, Hq.
    change (inject_Z (Z.sgn 0 * 0)) with 0. change (inject_Z 0) with 0. ring.
  - assert (Hs : (s <= k)%Z).
    { assert (Hpos : 0 < Qabs q).
      { rewrite Ha. apply Qmult_lt_0_compat; [|exact Pk]. unfold Qlt. simpl. lia. }
      pose proof (floorLog2_le _ Hpos) as Hl.
      assert (Hlt : Qabs q < pow2 (24 + k)).
      { rewrite Ha, pow2_add. apply Qmult_lt_compat_r; [exact Pk|].
        rewrite pow2_inject by lia. unfold Qlt. simpl. lia. }
      pose proof (pow2_lt_inv _ _ (Qle_lt_trans _ _ _ Hl Hlt)). unfold s. lia. }
    assert (Ek : pow2 k == inject_Z (2 ^ (k - s)) * pow2 s).
    { rewrite <- pow2_inject by lia. rewrite <- pow2_add. replace (k - s + s)%Z with k by lia.
      reflexivity. }
    assert (E : Qabs q / pow2 s == inject_Z (Z.abs m * 2 ^ (k - s))).
    { rewrite Ha, Ek, inject_Z_mult. field. intros H0. rewrite H0 in Ps. discriminate. }
    rewrite (roundHalfEven_wd _ _ E), roundHalfEven_Z, Hq, Ek.
    replace (Z.sgn m * (Z.abs m * 2 ^ (k - s)))%Z with (m * 2 ^ (k - s))%Z
      by (rewrite Z.mul_assoc, (Z.mul_comm (Z.sgn m)), Z.abs_sgn; reflexivity).
    rewrite inject_Z_mult. ring.
Qed.

(** Halves of whole numbers below [2^24] in magnitude, and so those whole
    numbers themselves, are float32 values. *)
Lemma fround_half q n : q == inject_Z n / 2 -> (Z.abs n < 2 ^ 24)%Z -> fround q == q.
Proof.
  intros Hq Hn. rewrite fround_eq. apply (nearestFloat32_dyadic q n (-1)); [|exact Hn|lia].
  rewrite Hq. unfold pow2. reflexivity.
Qed.

Lemma fround_whole q n : q == inject_Z n -> (Z.abs n < 2 ^ 23)%Z -> fround q == q.
Proof.
  intros Hq Hn. apply (fround_half q (2 * n)); [|lia].
  rewrite Hq, inject_Z_mult. field.
Qed.
End Float32.

(** ** Typed arrays *)

Section TypedArray.
Context {A : Type}.

Definition tlen (a : list A) : Z := Z.of_nat (length a).

Definition tget (a : list A) (i : Z) : option A :=
  if bool_decide (0 <= i) then a !! Z.to_nat i else None.

Definition tset (a : list A) (i : Z) (v : A) : list A :=
  if bool_decide (0 <= i) then <[Z.to_nat i := v]> a else a.

(** [new T(n)] followed by [fill(v)] *)
Definition tnew (n : Z) (v : A) : list A := replicate (Z.to_nat n) v.

(** [next = new T(n); next.set(a)] followed by filling the tail with [v]:
    the resize helpers leave an array that is already long enough alone. *)
Definition tgrow (a : list A) (n : Z) (v : A) : list A :=
  if bool_decide (n <= tlen a) then a else a ++ replicate (Z.to_nat n - length a) v.

Lemma tlen_tset a i v : tlen (tset a i v) = tlen a.
Proof. unfold tlen, tset. case_bool_decide; [rewrite length_insert|]; reflexivity. Qed.

Lemma tlen_tnew n v : 0 <= n -> tlen (tnew n v) = n.
Proof. intros. unfold tlen, tnew. rewrite length_replicate. lia. Qed.

Lemma tlen_nonneg a : 0 <= tlen a.
Proof. unfold tlen. lia. Qed.

Lemma tget_Some_range a i x : tget a i = Some x -> 0 <= i < tlen a.
Proof.
  unfold tget, tlen. case_bool_decide; [|discriminate].
  intros Hl%lookup_lt_Some. lia.
Qed.

Lemma tget_in_range a i : 0 <= i < tlen a -> is_Some (tget a i).
Proof.
  unfold tget, tlen. intros [H1 H2]. rewrite bool_decide_eq_true_2 by done.
  apply lookup_lt_is_Some. lia.
Qed.

Lemma tget_tset_eq a i v : 0 <= i < tlen a -> tget (tset a i v) i = Some v.
Proof.
  unfold tget, tset, tlen. intros [H1 H2]. rewrite !bool_decide_eq_true_2 by done.
  apply list_lookup_insert_eq. lia.
Qed.

Lemma tget_tset_ne a i j v : i <> j -> tget (tset a i v) j = tget a j.
Proof.
  unfold tget, tset. intros Hne.
  case_bool_decide; [|reflexivity]. case_bool_decide; [|reflexivity].
  apply list_lookup_insert_ne. lia.
Qed.

Lemma tget_tset a i j v :
  tget (tset a i v) j = if bool_decide (i = j /\ 0 <= i < tlen a) then Some v else tget a j.
Proof.
  case_bool_decide as Hc.
  - destruct Hc as [-> Hc]. by apply tget_tset_eq.
  - destruct (decide (i = j)) as [->|Hne]; [|by apply tget_tset_ne].
    unfold tset, tget. case_bool_decide; [|reflexivity].
    rewrite list_insert_ge; [reflexivity|]. unfold tlen in Hc. lia.
Qed.

Lemma tlen_tgrow a n v : tlen (tgrow a n v) = Z.max n (tlen a).
Proof.
  unfold tgrow, tlen. case_bool_decide as Hc; [unfold tlen in Hc; lia|].
  unfold tlen in Hc. rewrite length_app, length_replicate. lia.
Qed.

Lemma tget_tgrow_old a n v i : i < tlen a -> tget (tgrow a n v) i = tget a i.
Proof.
  unfold tgrow, tlen. intros Hi. case_bool_decide; [reflexivity|].
  unfold tget. case_bool_decide; [|reflexivity]. apply lookup_app_l. lia.
Qed.

Lemma tget_tgrow_new a n v i : tlen a <= i < n -> tget (tgrow a n v) i = Some v.
Proof.
  unfold tgrow, tlen. intros [H1 H2].
  rewrite bool_decide_eq_false_2 by lia.
  unfold tget. rewrite bool_decide_eq_true_2 by lia.
  rewrite lookup_app_r by lia. apply lookup_replicate_2. lia.
Qed.
End TypedArray.

(** A plain JavaScript array extends itself when written past its end; the
    holes read as [undefined], which [d] stands for. *)
Definition jsset {A} (d : A) (a : list A) (i : Z) (v : A) : list A :=
  if bool_decide (i < 0) then a
  else if bool_decide (i < tlen a) then tset a i v
  else a ++ replicate (Z.to_nat i - length a) d ++ [v].

(** Wrap-around of the unsigned typed-array cells that hold counters. *)
Definition u8 (x : Z) : Z := x mod 256.
Definition u16 (x : Z) : Z := x mod 65536.
Definition u32 (x : Z) : Z := x mod 4294967296.

(** ** Geometry records (types.ts, ObjectStoreNode.ts) *)

Record BoundingBox := mkBBox { x : Q; y : Q; width : Q; height : Q }.

Record NodeBounds := mkNodeBounds
  { centerX : Q; centerY : Q; halfWidth : Q; halfHeight : Q }.

(** A box and the bounds of a node as four [Float32Array] cells hold them. *)
Definition float32Box (b : BoundingBox) : BoundingBox :=
  mkBBox (fround (x b)) (fround (y b)) (fround (width b)) (fround (height b)).


Definition isFloat32Box (b : BoundingBox) : bool :=
  isFloat32 (x b) && isFloat32 (y b) && isFloat32 (width b) && isFloat32 (height b).

Lemma float32Box_exact b : isFloat32Box b = true -> float32Box b = b.
Proof.
  unfold isFloat32Box, float32Box. intros H.
  apply andb_true_iff in H as [H H4]. apply andb_true_iff in H as [H H3].
  apply andb_true_iff in H as [H1 H2].
  rewrite (fround_float32 _ H1), (fround_float32 _ H2), (fround_float32 _ H3),
          (fround_float32 _ H4).
  destruct b. reflexivity.
Qed.

Definition boxInFloat32Range (b : BoundingBox) : bool :=
  float32Range (x b) && float32Range (y b) && float32Range (width b) && float32Range (height b).


Definition createRootBounds (worldBounds : BoundingBox) : NodeBounds :=
  let halfWidth := (width worldBounds / 2)%Q in
  let halfHeight := (height worldBounds / 2)%Q in
  {| centerX := (x worldBounds + halfWidth)%Q;
     centerY := (y worldBounds + halfHeight)%Q;
     halfWidth := halfWidth;
     halfHeight := halfHeight |}.

(** ** ObjectStoreNodePool (core/ObjectStoreNode.ts) *)

Module NodePool.

Definition CHILDREN_PER_NODE : Z := 4.
Definition Leaf : Z := 1.   (* NodeFlag.Leaf = 1 << 0 *)

Record t := mk
  { capacity : Z;
    bounds : list Q;          (* Float32Array(capacity * 4) *)
    firstObject : list Z;     (* Int32Array(capacity), filled with -1 *)
    objectCount : list Z;     (* Uint16Array(capacity) *)
    parent : list Z;          (* Int32Array(capacity), filled with -1 *)
    children : list Z;        (* Int32Array(capacity * 4), filled with -1 *)
    depth : list Z;           (* Uint8Array(capacity) *)
    flags : list Z;           (* Uint8Array(capacity) *)
    freeList : list Z;        (* number[], head = last pushed *)
    nodeCount : Z }.

Definition with_bounds p v :=
  mk (capacity p) v (firstObject p) (objectCount p) (parent p) (children p) (depth p) (flags p) (freeList p) (nodeCount p).
Definition with_firstObject p v :=
  mk (capacity p) (bounds p) v (objectCount p) (parent p) (children p) (depth p) (flags p) (freeList p) (nodeCount p).
Definition with_objectCount p v :=
  mk (capacity p) (bounds p) (firstObject p) v (parent p) (children p) (depth p) (flags p) (freeList p) (nodeCount p).
Definition with_parent p v :=
  mk (capacity p) (bounds p) (firstObject p) (objectCount p) v (children p) (depth p) (flags p) (freeList p) (nodeCount p).
Definition with_children p v :=
  mk (capacity p) (bounds p) (firstObject p) (objectCount p) (parent p) v (depth p) (flags p) (freeList p) (nodeCount p).
Definition with_depth p v :=
  mk (capacity p) (bounds p) (firstObject p) (objectCount p) (parent p) (children p) v (flags p) (freeList p) (nodeCount p).
Definition with_flags p v :=
  mk (capacity p) (bounds p) (firstObject p) (objectCount p) (parent p) (children p) (depth p) v (freeList p) (nodeCount p).
Definition with_freeList p v :=
  mk (capacity p) (bounds p) (firstObject p) (objectCount p) (parent p) (children p) (depth p) (flags p) v (nodeCount p).
Definition with_nodeCount p v :=
  mk (capacity p) (bounds p) (firstObject p) (objectCount p) (parent p) (children p) (depth p) (flags p) (freeList p) v.

(** [constructor(capacity)] *)
Definition create (cap : Z) : outcome t :=
  if cap <=? 0 then Throws
  else Ret {| capacity := cap;
              bounds := tnew (cap * 4) 0%Q;
              firstObject := tnew cap (-1);
              objectCount := tnew cap 0;
              parent := tnew cap (-1);
              children := tnew (cap * CHILDREN_PER_NODE) (-1);
              depth := tnew cap 0;
              flags := tnew cap 0;
              freeList := [];
              nodeCount := 0 |}.

Definition obtainNodeId (p : t) : outcome (Z * t) :=
  match freeList p with
  | id :: rest => Ret (id, with_freeList p rest)
  | [] =>
      if capacity p <=? nodeCount p then Throws   (* 'ObjectStoreNodePool exhausted' *)
      else Ret (nodeCount p, with_nodeCount p (nodeCount p + 1))
  end.

Definition writeBounds (b : list Q) (nodeId : Z) (nb : NodeBounds) : list Q :=
  let offset := nodeId * 4 in
  tset (tset (tset (tset b offset (fround (centerX nb))) (offset + 1) (fround (centerY nb)))
             (offset + 2) (fround (halfWidth nb))) (offset + 3) (fround (halfHeight nb)).

Definition clearChildren (c : list Z) (nodeId : Z) : list Z :=
  let childrenOffset := nodeId * CHILDREN_PER_NODE in
  tset (tset (tset (tset c childrenOffset (-1)) (childrenOffset + 1) (-1))
             (childrenOffset + 2) (-1)) (childrenOffset + 3) (-1).

Definition allocateNode (p : t) (parentId depth_ : Z) (nb : NodeBounds) : outcome (Z * t) :=
  do r <- obtainNodeId p;
  let '(nodeId, p) := r in
  Ret (nodeId,
       {| capacity := capacity p;
          bounds := writeBounds (bounds p) nodeId nb;
          firstObject := tset (firstObject p) nodeId (-1);
          objectCount := tset (objectCount p) nodeId 0;
          parent := tset (parent p) nodeId parentId;
          children := clearChildren (children p) nodeId;
          depth := tset (depth p) nodeId (u8 depth_);
          flags := tset (flags p) nodeId Leaf;
          freeList := freeList p;
          nodeCount := nodeCount p |}).

Definition releaseNode (p : t) (nodeId : Z) : t :=
  if bool_decide (nodeId < 0 \/ capacity p <= nodeId) then p
  else {| capacity := capacity p;
          bounds := bounds p;
          firstObject := tset (firstObject p) nodeId (-1);
          objectCount := tset (objectCount p) nodeId 0;
          parent := parent p;
          children := clearChildren (children p) nodeId;
          depth := depth p;
          flags := tset (flags p) nodeId Leaf;
          freeList := nodeId :: freeList p;
          nodeCount := nodeCount p |}.

(** [flags[nodeId] |= Leaf] or [flags[nodeId] &= ~Leaf] *)
Definition setLeaf (p : t) (nodeId : Z) (value : bool) : t :=
  let old := default 0 (tget (flags p) nodeId) in
  with_flags p (tset (flags p) nodeId
                  (if value then Z.lor old Leaf else Z.land old (Z.lnot Leaf))).

(** [(flags[nodeId] & Leaf) !== 0]; [undefined & 1] is [0] *)
Definition isLeaf (p : t) (nodeId : Z) : bool :=
  negb (Z.land (default 0 (tget (flags p) nodeId)) Leaf =? 0).

Definition getParent (p : t) (nodeId : Z) : option Z := tget (parent p) nodeId.

(** The four cells of a node are all inside [bounds] or all outside; outside,
    the scratch buffer receives [NaN] and every comparison on it is false. *)
Definition getBounds (p : t) (nodeId : Z) : option NodeBounds :=
  let offset := nodeId * 4 in
  match tget (bounds p) offset, tget (bounds p) (offset + 1),
        tget (bounds p) (offset + 2), tget (bounds p) (offset + 3) with
  | Some cx, Some cy, Some hw, Some hh => Some (mkNodeBounds cx cy hw hh)
  | _, _, _, _ => None
  end.

Definition setBounds (p : t) (nodeId : Z) (nb : NodeBounds) : t :=
  with_bounds p (writeBounds (bounds p) nodeId nb).

Definition getFirstObject (p : t) (nodeId : Z) : option Z := tget (firstObject p) nodeId.

Definition setFirstObject (p : t) (nodeId handle : Z) : t :=
  with_firstObject p (tset (firstObject p) nodeId handle).

Definition getObjectCount (p : t) (nodeId : Z) : option Z := tget (objectCount p) nodeId.

Definition incrementObjectCount (p : t) (nodeId : Z) : t :=
  match tget (objectCount p) nodeId with
  | Some c => with_objectCount p (tset (objectCount p) nodeId (u16 (c + 1)))
  | None => p
  end.

Definition decrementObjectCount (p : t) (nodeId : Z) : t :=
  match tget (objectCount p) nodeId with
  | Some c => if 0 <? c then with_objectCount p (tset (objectCount p) nodeId (u16 (c - 1))) else p
  | None => p
  end.

Definition getChild (p : t) (nodeId index : Z) : option Z :=
  tget (children p) (nodeId * CHILDREN_PER_NODE + index).

Definition setChild (p : t) (nodeId index childId : Z) : t :=
  with_children p (tset (children p) (nodeId * CHILDREN_PER_NODE + index) childId).

End NodePool.

(** ** Logical objects (types.ts, objects/DrawObject.ts) *)

Module DrawObject.
(** Only what the index and the chunk cache read of a [DrawObject]: the
    identifier, the cached box, the draw order, and [geometryBox], the box
    [ObjectUtils.getObjectBoundingBox] derives from the object's own
    geometry (points and thickness, image or text rectangle). *)
Record t := mk
  { id : string;
    bbox : option BoundingBox;
    zIndex : option Z;
    geometryBox : BoundingBox }.

(** [ObjectUtils.ensureBoundingBox]: caches the box on the object. *)
Definition ensureBoundingBox (obj : t) : t * BoundingBox :=
  match bbox obj with
  | Some b => (obj, b)
  | None => (mk (id obj) (Some (geometryBox obj)) (zIndex obj) (geometryBox obj), geometryBox obj)
  end.
End DrawObject.

(** ** ObjectStore (core/ObjectStore.ts) *)

Module Options.
Record t := mk
  { minNodeSize : Q;
    maxDepth : Z;
    maxObjectsPerNode : Z;
    mergeThreshold : Z;
    looseness : Q;
    oversizedNodeDepthCap : Z;
    nodePoolSize : Z;
    objectCapacity : Z;
    objectRefCapacity : Z;
    tileChunkSize : Z;
    dynamicUpdateThreshold : Z;
    dynamicUpdateWindow : Z }.

Definition DEFAULT_OPTIONS : t :=
  {| minNodeSize := 256;
     maxDepth := 8;
     maxObjectsPerNode := 32;
     mergeThreshold := 12;
     looseness := 3 # 2;
     oversizedNodeDepthCap := 4;
     nodePoolSize := 16384;
     objectCapacity := 4096;
     objectRefCapacity := 4096;
     tileChunkSize := 32;
     dynamicUpdateThreshold := 6;
     dynamicUpdateWindow := 16 |}.
End Options.

Module ObjectFlags.
Definition None_ : Z := 0.
Definition Static : Z := 1.              (* 1 << 0 *)
Definition Dynamic : Z := 2.             (* 1 << 1 *)
Definition Dirty : Z := 4.               (* 1 << 2 *)
Definition Deleted : Z := 8.             (* 1 << 3 *)
Definition Oversized : Z := 16.          (* 1 << 4 *)
Definition TileCoverageDirty : Z := 32.  (* 1 << 5 *)
End ObjectFlags.

Module ChildIndex.
Definition NorthWest : Z := 0.
Definition NorthEast : Z := 1.
Definition SouthWest : Z := 2.
Definition SouthEast : Z := 3.
End ChildIndex.

Inductive InsertionStatus := inserted | replaced.
Inductive UpdateStatus := updated | moved | failed.
Inductive FindMode := all | nonDeleted.

Record InsertionResult := mkInsertionResult
  { ir_handle : Z; ir_nodeId : Z; ir_flags : Z; ir_status : InsertionStatus }.

Record UpdateResult := mkUpdateResult
  { ur_handle : Z; ur_nodeId : Z; ur_flags : Z; ur_status : UpdateStatus }.

Record FindOptions := mkFindOptions
  { includeDynamic : option bool; mode : option FindMode }.

Record ObjectRecord := mkObjectRecord
  { rec_id : string;
    rec_handle : Z;
    rec_nodeId : Z;
    rec_flags : Z;
    updateTicks : Z;
    windowTicks : Z }.

Module ObjectStore.

Definition BBOX_COMPONENTS : Z := 4.

Record t := mk
  { options : Options.t;
    nodePool : NodePool.t;
    objectIndex : gmap string ObjectRecord;
    handleToId : list (option string)   (* (DrawObjectId | null)[]; None is null or a hole *);
    objectStore : gmap string DrawObject.t;
    objectBounds : list Q   (* Float32Array(objectCapacity * 4) *);
    objectFlags : list Z   (* Uint32Array(objectCapacity) *);
    objectNode : list Z   (* Int32Array(objectCapacity), filled with -1 *);
    objectRefIndex : list Z   (* Int32Array(objectCapacity), filled with -1 *);
    objectUpdateCounter : list Z   (* Uint16Array(objectCapacity) *);
    objectWindowCounter : list Z   (* Uint16Array(objectCapacity) *);
    objectRefHandle : list Z   (* Uint32Array(objectRefCapacity) *);
    objectRefNext : list Z   (* Int32Array(objectRefCapacity), filled with -1 *);
    dynamicHandles : list Z   (* Uint32Array(objectCapacity) *);
    objectCapacity : Z;
    objectRefCapacity : Z;
    handleFreeList : list Z   (* number[], head = last pushed *);
    objectRefFreeList : list Z   (* number[], head = last pushed *);
    objectRefUsed : Z;
    dynamicHandleCount : Z;
    usedHandles : Z;
    rootNodeId : Z;
    externalGetter : option (string -> option DrawObject.t) }.

Definition with_nodePool (s : t) v : t :=
  mk (options s) v (objectIndex s) (handleToId s) (objectStore s) (objectBounds s) (objectFlags s) (objectNode s) (objectRefIndex s) (objectUpdateCounter s) (objectWindowCounter s) (objectRefHandle s) (objectRefNext s) (dynamicHandles s) (objectCapacity s) (objectRefCapacity s) (handleFreeList s) (objectRefFreeList s) (objectRefUsed s) (dynamicHandleCount s) (usedHandles s) (rootNodeId s) (externalGetter s).
Definition with_objectIndex (s : t) v : t :=
  mk (options s) (nodePool s) v (handleToId s) (objectStore s) (objectBounds s) (objectFlags s) (objectNode s) (objectRefIndex s) (objectUpdateCounter s) (objectWindowCounter s) (objectRefHandle s) (objectRefNext s) (dynamicHandles s) (objectCapacity s) (objectRefCapacity s) (handleFreeList s) (objectRefFreeList s) (objectRefUsed s) (dynamicHandleCount s) (usedHandles s) (rootNodeId s) (externalGetter s).
Definition with_handleToId (s : t) v : t :=
  mk (options s) (nodePool s) (objectIndex s) v (objectStore s) (objectBounds s) (objectFlags s) (objectNode s) (objectRefIndex s) (objectUpdateCounter s) (objectWindowCounter s) (objectRefHandle s) (objectRefNext s) (dynamicHandles s) (objectCapacity s) (objectRefCapacity s) (handleFreeList s) (objectRefFreeList s) (objectRefUsed s) (dynamicHandleCount s) (usedHandles s) (rootNodeId s) (externalGetter s).
Definition with_objectStore (s : t) v : t :=
  mk (options s) (nodePool s) (objectIndex s) (handleToId s) v (objectBounds s) (objectFlags s) (objectNode s) (objectRefIndex s) (objectUpdateCounter s) (objectWindowCounter s) (objectRefHandle s) (objectRefNext s) (dynamicHandles s) (objectCapacity s) (objectRefCapacity s) (handleFreeList s) (objectRefFreeList s) (objectRefUsed s) (dynamicHandleCount s) (usedHandles s) (rootNodeId s) (externalGetter s).
Definition with_objectBounds (s : t) v : t :=
  mk (options s) (nodePool s) (objectIndex s) (handleToId s) (objectStore s) v (objectFlags s) (objectNode s) (objectRefIndex s) (objectUpdateCounter s) (objectWindowCounter s) (objectRefHandle s) (objectRefNext s) (dynamicHandles s) (objectCapacity s) (objectRefCapacity s) (handleFreeList s) (objectRefFreeList s) (objectRefUsed s) (dynamicHandleCount s) (usedHandles s) (rootNodeId s) (externalGetter s).
Definition with_objectFlags (s : t) v : t :=
  mk (options s) (nodePool s) (objectIndex s) (handleToId s) (objectStore s) (objectBounds s) v (objectNode s) (objectRefIndex s) (objectUpdateCounter s) (objectWindowCounter s) (objectRefHandle s) (objectRefNext s) (dynamicHandles s) (objectCapacity s) (objectRefCapacity s) (handleFreeList s) (objectRefFreeList s) (objectRefUsed s) (dynamicHandleCount s) (usedHandles s) (rootNodeId s) (externalGetter s).
Definition with_objectNode (s : t) v : t :=
  mk (options s) (nodePool s) (objectIndex s) (handleToId s) (objectStore s) (objectBounds s) (objectFlags s) v (objectRefIndex s) (objectUpdateCounter s) (objectWindowCounter s) (objectRefHandle s) (objectRefNext s) (dynamicHandles s) (objectCapacity s) (objectRefCapacity s) (handleFreeList s) (objectRefFreeList s) (objectRefUsed s) (dynamicHandleCount s) (usedHandles s) (rootNodeId s) (externalGetter s).
Definition with_objectRefIndex (s : t) v : t :=
  mk (options s) (nodePool s) (objectIndex s) (handleToId s) (objectStore s) (objectBounds s) (objectFlags s) (objectNode s) v (objectUpdateCounter s) (objectWindowCounter s) (objectRefHandle s) (objectRefNext s) (dynamicHandles s) (objectCapacity s) (objectRefCapacity s) (handleFreeList s) (objectRefFreeList s) (objectRefUsed s) (dynamicHandleCount s) (usedHandles s) (rootNodeId s) (externalGetter s).
Definition with_objectUpdateCounter (s : t) v : t :=
  mk (options s) (nodePool s) (objectIndex s) (handleToId s) (objectStore s) (objectBounds s) (objectFlags s) (objectNode s) (objectRefIndex s) v (objectWindowCounter s) (objectRefHandle s) (objectRefNext s) (dynamicHandles s) (objectCapacity s) (objectRefCapacity s) (handleFreeList s) (objectRefFreeList s) (objectRefUsed s) (dynamicHandleCount s) (usedHandles s) (rootNodeId s) (externalGetter s).
Definition with_objectWindowCounter (s : t) v : t :=
  mk (options s) (nodePool s) (objectIndex s) (handleToId s) (objectStore s) (objectBounds s) (objectFlags s) (objectNode s) (objectRefIndex s) (objectUpdateCounter s) v (objectRefHandle s) (objectRefNext s) (dynamicHandles s) (objectCapacity s) (objectRefCapacity s) (handleFreeList s) (objectRefFreeList s) (objectRefUsed s) (dynamicHandleCount s) (usedHandles s) (rootNodeId s) (externalGetter s).
Definition with_objectRefHandle (s : t) v : t :=
  mk (options s) (nodePool s) (objectIndex s) (handleToId s) (objectStore s) (objectBounds s) (objectFlags s) (objectNode s) (objectRefIndex s) (objectUpdateCounter s) (objectWindowCounter s) v (objectRefNext s) (dynamicHandles s) (objectCapacity s) (objectRefCapacity s) (handleFreeList s) (objectRefFreeList s) (objectRefUsed s) (dynamicHandleCount s) (usedHandles s) (rootNodeId s) (externalGetter s).
Definition with_objectRefNext (s : t) v : t :=
  mk (options s) (nodePool s) (objectIndex s) (handleToId s) (objectStore s) (objectBounds s) (objectFlags s) (objectNode s) (objectRefIndex s) (objectUpdateCounter s) (objectWindowCounter s) (objectRefHandle s) v (dynamicHandles s) (objectCapacity s) (objectRefCapacity s) (handleFreeList s) (objectRefFreeList s) (objectRefUsed s) (dynamicHandleCount s) (usedHandles s) (rootNodeId s) (externalGetter s).
Definition with_dynamicHandles (s : t) v : t :=
  mk (options s) (nodePool s) (objectIndex s) (handleToId s) (objectStore s) (objectBounds s) (objectFlags s) (objectNode s) (objectRefIndex s) (objectUpdateCounter s) (objectWindowCounter s) (objectRefHandle s) (objectRefNext s) v (objectCapacity s) (objectRefCapacity s) (handleFreeList s) (objectRefFreeList s) (objectRefUsed s) (dynamicHandleCount s) (usedHandles s) (rootNodeId s) (externalGetter s).
Definition with_objectCapacity (s : t) v : t :=
  mk (options s) (nodePool s) (objectIndex s) (handleToId s) (objectStore s) (objectBounds s) (objectFlags s) (objectNode s) (objectRefIndex s) (objectUpdateCounter s) (objectWindowCounter s) (objectRefHandle s) (objectRefNext s) (dynamicHandles s) v (objectRefCapacity s) (handleFreeList s) (objectRefFreeList s) (objectRefUsed s) (dynamicHandleCount s) (usedHandles s) (rootNodeId s) (externalGetter s).
Definition with_objectRefCapacity (s : t) v : t :=
  mk (options s) (nodePool s) (objectIndex s) (handleToId s) (objectStore s) (objectBounds s) (objectFlags s) (objectNode s) (objectRefIndex s) (objectUpdateCounter s) (objectWindowCounter s) (objectRefHandle s) (objectRefNext s) (dynamicHandles s) (objectCapacity s) v (handleFreeList s) (objectRefFreeList s) (objectRefUsed s) (dynamicHandleCount s) (usedHandles s) (rootNodeId s) (externalGetter s).
Definition with_handleFreeList (s : t) v : t :=
  mk (options s) (nodePool s) (objectIndex s) (handleToId s) (objectStore s) (objectBounds s) (objectFlags s) (objectNode s) (objectRefIndex s) (objectUpdateCounter s) (objectWindowCounter s) (objectRefHandle s) (objectRefNext s) (dynamicHandles s) (objectCapacity s) (objectRefCapacity s) v (objectRefFreeList s) (objectRefUsed s) (dynamicHandleCount s) (usedHandles s) (rootNodeId s) (externalGetter s).
Definition with_objectRefFreeList (s : t) v : t :=
  mk (options s) (nodePool s) (objectIndex s) (handleToId s) (objectStore s) (objectBounds s) (objectFlags s) (objectNode s) (objectRefIndex s) (objectUpdateCounter s) (objectWindowCounter s) (objectRefHandle s) (objectRefNext s) (dynamicHandles s) (objectCapacity s) (objectRefCapacity s) (handleFreeList s) v (objectRefUsed s) (dynamicHandleCount s) (usedHandles s) (rootNodeId s) (externalGetter s).
Definition with_objectRefUsed (s : t) v : t :=
  mk (options s) (nodePool s) (objectIndex s) (handleToId s) (objectStore s) (objectBounds s) (objectFlags s) (objectNode s) (objectRefIndex s) (objectUpdateCounter s) (objectWindowCounter s) (objectRefHandle s) (objectRefNext s) (dynamicHandles s) (objectCapacity s) (objectRefCapacity s) (handleFreeList s) (objectRefFreeList s) v (dynamicHandleCount s) (usedHandles s) (rootNodeId s) (externalGetter s).
Definition with_dynamicHandleCount (s : t) v : t :=
  mk (options s) (nodePool s) (objectIndex s) (handleToId s) (objectStore s) (objectBounds s) (objectFlags s) (objectNode s) (objectRefIndex s) (objectUpdateCounter s) (objectWindowCounter s) (objectRefHandle s) (objectRefNext s) (dynamicHandles s) (objectCapacity s) (objectRefCapacity s) (handleFreeList s) (objectRefFreeList s) (objectRefUsed s) v (usedHandles s) (rootNodeId s) (externalGetter s).
Definition with_usedHandles (s : t) v : t :=
  mk (options s) (nodePool s) (objectIndex s) (handleToId s) (objectStore s) (objectBounds s) (objectFlags s) (objectNode s) (objectRefIndex s) (objectUpdateCounter s) (objectWindowCounter s) (objectRefHandle s) (objectRefNext s) (dynamicHandles s) (objectCapacity s) (objectRefCapacity s) (handleFreeList s) (objectRefFreeList s) (objectRefUsed s) (dynamicHandleCount s) v (rootNodeId s) (externalGetter s).
Definition with_externalGetter (s : t) v : t :=
  mk (options s) (nodePool s) (objectIndex s) (handleToId s) (objectStore s) (objectBounds s) (objectFlags s) (objectNode s) (objectRefIndex s) (objectUpdateCounter s) (objectWindowCounter s) (objectRefHandle s) (objectRefNext s) (dynamicHandles s) (objectCapacity s) (objectRefCapacity s) (handleFreeList s) (objectRefFreeList s) (objectRefUsed s) (dynamicHandleCount s) (usedHandles s) (rootNodeId s) v.

(** Lengths of the scratch stacks allocated by the constructor. *)
Definition nodeStackLength (s : t) : Z := Options.maxDepth (options s) * 16.
Definition handleStackLength (s : t) : Z := Options.maxObjectsPerNode (options s) * 4.

(** [constructor(options)]: a typed array of negative length is a
    [RangeError]; the pool rejects a capacity that is not positive. *)
Definition create (o : Options.t) : outcome t :=
  do pool <- NodePool.create (Options.nodePoolSize o);
  if bool_decide (Options.objectCapacity o < 0 \/ Options.objectRefCapacity o < 0 \/
                  Options.maxDepth o < 0 \/ Options.maxObjectsPerNode o < 0 \/
                  Options.tileChunkSize o < 0) then Throws
  else
    let rootBounds :=
      createRootBounds (mkBBox 0 0 (Options.minNodeSize o) (Options.minNodeSize o)) in
    do r <- NodePool.allocateNode pool (-1) 0 rootBounds;
    let '(root, pool) := r in
    Ret {| options := o;
           nodePool := pool;
           objectIndex := ∅;
           handleToId := tnew (Options.objectCapacity o) None;
           objectStore := ∅;
           objectBounds := tnew (Options.objectCapacity o * BBOX_COMPONENTS) 0%Q;
           objectFlags := tnew (Options.objectCapacity o) 0;
           objectNode := tnew (Options.objectCapacity o) (-1);
           objectRefIndex := tnew (Options.objectCapacity o) (-1);
           objectUpdateCounter := tnew (Options.objectCapacity o) 0;
           objectWindowCounter := tnew (Options.objectCapacity o) 0;
           objectRefHandle := tnew (Options.objectRefCapacity o) 0;
           objectRefNext := tnew (Options.objectRefCapacity o) (-1);
           dynamicHandles := tnew (Options.objectCapacity o) 0;
           objectCapacity := Options.objectCapacity o;
           objectRefCapacity := Options.objectRefCapacity o;
           handleFreeList := [];
           objectRefFreeList := [];
           objectRefUsed := 0;
           dynamicHandleCount := 0;
           usedHandles := 0;
           rootNodeId := root;
           externalGetter := None |}.

Definition ensureRootBounds (s : t) (bbox : BoundingBox) : t :=
  match NodePool.getBounds (nodePool s) (rootNodeId s) with
  | None => s
  | Some nb =>
      let halfWidth := halfWidth nb in
      let halfHeight := halfHeight nb in
      let minX := (centerX nb - halfWidth)%Q in
      let maxX := (centerX nb + halfWidth)%Q in
      let minY := (centerY nb - halfHeight)%Q in
      let maxY := (centerY nb + halfHeight)%Q in
      let bboxMinX := x bbox in
      let bboxMaxX := (x bbox + width bbox)%Q in
      let bboxMinY := y bbox in
      let bboxMaxY := (y bbox + height bbox)%Q in
      if Qleb minX bboxMinX && Qleb bboxMaxX maxX && Qleb minY bboxMinY && Qleb bboxMaxY maxY
      then s
      else
        let newCenterX := (qmin minX bboxMinX + (qmax maxX bboxMaxX - qmin minX bboxMinX) / 2)%Q in
        let newCenterY := (qmin minY bboxMinY + (qmax maxY bboxMaxY - qmin minY bboxMinY) / 2)%Q in
        let newHalfWidth := ((qmax maxX bboxMaxX - qmin minX bboxMinX) / 2)%Q in
        let newHalfHeight := ((qmax maxY bboxMaxY - qmin minY bboxMinY) / 2)%Q in
        let nextHalfWidth := qmax newHalfWidth (Options.minNodeSize (options s) / 2)%Q in
        let nextHalfHeight := qmax newHalfHeight (Options.minNodeSize (options s) / 2)%Q in
        with_nodePool s
          (NodePool.setBounds (nodePool s) (rootNodeId s)
             (mkNodeBounds newCenterX newCenterY nextHalfWidth nextHalfHeight))
  end.

(** [get]: the external getter when attached, else the own object map. *)
Definition get (s : t) (objectId : string) : option DrawObject.t :=
  match externalGetter s with
  | Some getter => getter objectId
  | None => objectStore s !! objectId
  end.

Definition attachExternalStore (s : t) (getter : string -> option DrawObject.t) : t :=
  with_externalGetter s (Some getter).

(** *** Handle arena *)

Definition resizeHandles (s : t) (newCapacity : Z) : t :=
  let oldCapacity := objectCapacity s in
  let s := with_objectCapacity s newCapacity in
  let s := with_objectBounds s (tgrow (objectBounds s) (newCapacity * BBOX_COMPONENTS) 0%Q) in
  let s := with_objectFlags s (tgrow (objectFlags s) newCapacity 0) in
  let s := with_objectNode s (tgrow (objectNode s) newCapacity (-1)) in
  let s := with_objectRefIndex s (tgrow (objectRefIndex s) newCapacity (-1)) in
  let s := with_objectUpdateCounter s (tgrow (objectUpdateCounter s) newCapacity 0) in
  let s := with_objectWindowCounter s (tgrow (objectWindowCounter s) newCapacity 0) in
  let s := with_dynamicHandles s (tgrow (dynamicHandles s) newCapacity 0) in
  with_handleToId s
    (foldl (fun a i => jsset None a i None) (handleToId s)
           (seqZ oldCapacity (newCapacity - oldCapacity))).

Definition expandHandles (s : t) : Z * t :=
  let s := if bool_decide (objectCapacity s = tlen (handleToId s))
           then resizeHandles s (objectCapacity s * 2) else s in
  (usedHandles s, s).

Definition obtainHandle (s : t) (id : string) : Z * t :=
  match objectIndex s !! id with
  | Some record => (rec_handle record, s)
  | None =>
      let '(handle, s) :=
        match handleFreeList s with
        | h :: rest => (h, with_handleFreeList s rest)
        | [] => if objectCapacity s <=? usedHandles s then expandHandles s
                else (usedHandles s, s)
        end in
      let s := with_usedHandles s (usedHandles s + 1) in
      let s := with_handleToId s (jsset None (handleToId s) handle (Some id)) in
      let s := with_objectFlags s (tset (objectFlags s) handle ObjectFlags.None_) in
      let s := with_objectNode s (tset (objectNode s) handle (-1)) in
      let s := with_objectRefIndex s (tset (objectRefIndex s) handle (-1)) in
      let s := with_objectUpdateCounter s (tset (objectUpdateCounter s) handle 0) in
      let s := with_objectWindowCounter s (tset (objectWindowCounter s) handle 0) in
      (handle, s)
  end.

Definition writeBoundingBox (s : t) (handle : Z) (bbox : BoundingBox) : t :=
  let offset := handle * BBOX_COMPONENTS in
  with_objectBounds s
    (tset (tset (tset (tset (objectBounds s) offset (fround (x bbox)))
                      (offset + 1) (fround (y bbox)))
                (offset + 2) (fround (width bbox))) (offset + 3) (fround (height bbox))).

(** The scratch box receives [NaN] for a cell outside [objectBounds]; every
    comparison on it is then false, which [None] stands for. *)
Definition readBoundingBox (s : t) (handle : Z) : option BoundingBox :=
  let offset := handle * BBOX_COMPONENTS in
  match tget (objectBounds s) offset, tget (objectBounds s) (offset + 1),
        tget (objectBounds s) (offset + 2), tget (objectBounds s) (offset + 3) with
  | Some bx, Some by_, Some bw, Some bh => Some (mkBBox bx by_ bw bh)
  | _, _, _, _ => None
  end.

(** *** Object-reference arena and node lists *)

Definition expandObjectRefs (s : t) : t :=
  let newCapacity := objectRefCapacity s * 2 in
  let s := with_objectRefCapacity s newCapacity in
  let s := with_objectRefHandle s (tgrow (objectRefHandle s) newCapacity 0) in
  with_objectRefNext s (tgrow (objectRefNext s) newCapacity (-1)).

Definition obtainObjectRefIndex (s : t) : Z * t :=
  match objectRefFreeList s with
  | r :: rest => (r, with_objectRefFreeList s rest)
  | [] =>
      let s := if objectRefCapacity s <=? objectRefUsed s then expandObjectRefs s else s in
      (objectRefUsed s, with_objectRefUsed s (objectRefUsed s + 1))
  end.

(** A value read as [undefined] and stored into an [Int32Array] cell is
    stored as [0]; [default 0] below stands for that conversion. *)
Definition attachToNode (s : t) (handle nodeId : Z) : t :=
  let '(refIndex, s) := obtainObjectRefIndex s in
  let first := default 0 (NodePool.getFirstObject (nodePool s) nodeId) in
  let s := with_objectRefHandle s (tset (objectRefHandle s) refIndex handle) in
  let s := with_objectRefNext s (tset (objectRefNext s) refIndex first) in
  let s := with_nodePool s (NodePool.setFirstObject (nodePool s) nodeId refIndex) in
  let s := with_nodePool s (NodePool.incrementObjectCount (nodePool s) nodeId) in
  let s := with_objectRefIndex s (tset (objectRefIndex s) handle refIndex) in
  with_objectNode s (tset (objectNode s) handle nodeId).

Definition detachRef (s : t) (nodeId refIndex prevRef handle : Z) : t :=
  let next := default 0 (tget (objectRefNext s) refIndex) in
  let s := if prevRef =? -1
           then with_nodePool s (NodePool.setFirstObject (nodePool s) nodeId next)
           else with_objectRefNext s (tset (objectRefNext s) prevRef next) in
  let s := with_objectRefNext s (tset (objectRefNext s) refIndex (-1)) in
  let s := with_objectRefHandle s (tset (objectRefHandle s) refIndex 0) in
  let s := if (0 <=? handle) && (handle <? tlen (objectRefIndex s)) &&
              bool_decide (tget (objectRefIndex s) handle = Some refIndex)
           then with_objectNode (with_objectRefIndex s (tset (objectRefIndex s) handle (-1)))
                                (tset (objectNode s) handle (-1))
           else s in
  let s := with_objectRefFreeList s (refIndex :: objectRefFreeList s) in
  with_nodePool s (NodePool.decrementObjectCount (nodePool s) nodeId).

(** Step budget of a walk along a node's reference list: a list without a
    cycle has at most one entry per arena cell. *)
Definition walkBudget (s : t) : nat := S (length (objectRefNext s)).

(** The [while (current !== -1)] loop of [purgeHandleFromNode].  Once
    [current] is read from outside the arena it is [undefined] and stays so:
    the source never leaves the loop. *)
Fixpoint purgeLoop (fuel : nat) (s : t) (handle nodeId current prev : Z) : outcome (bool * t) :=
  match fuel with
  | O => Stray
  | S fuel =>
      if current =? -1 then Ret (false, s)
      else
        let next := tget (objectRefNext s) current in
        if bool_decide (tget (objectRefHandle s) current = Some handle)
        then Ret (true, detachRef s nodeId current prev handle)
        else match next with
             | Some next => purgeLoop fuel s handle nodeId next current
             | None => Stray
             end
  end.

Definition purgeHandleFromNode (s : t) (handle nodeId : Z) : outcome (bool * t) :=
  if nodeId =? -1 then Ret (false, s)
  else match NodePool.getFirstObject (nodePool s) nodeId with
       | Some current => purgeLoop (walkBudget s) s handle nodeId current (-1)
       | None => Stray
       end.

(** First loop of [tryMerge]: [Some total] when every present child is a
    leaf; [total] is [None] when a count was read as [undefined] (the sum is
    then [NaN], and [NaN > mergeThreshold] is false). *)
Fixpoint mergeScan (s : t) (parentId : Z) (idx : list Z) (total : option Z) : option (option Z) :=
  match idx with
  | [] => Some total
  | i :: idx =>
      match NodePool.getChild (nodePool s) parentId i with
      | Some (-1) => mergeScan s parentId idx total
      | Some childId =>
          if NodePool.isLeaf (nodePool s) childId
          then mergeScan s parentId idx
                 (match total, NodePool.getObjectCount (nodePool s) childId with
                  | Some t, Some c => Some (t + c)
                  | _, _ => None
                  end)
          else None
      | None => None   (* [isLeaf(undefined)] is false *)
      end
  end.

(** The [while (ref !== -1)] loop of [tryMerge]. *)
Fixpoint mergeWalk (fuel : nat) (s : t) (parentId ref : Z) : outcome t :=
  match fuel with
  | O => Stray
  | S fuel =>
      if ref =? -1 then Ret s
      else match tget (objectRefHandle s) ref with
           | None => Stray
           | Some handle =>
               let s := attachToNode s handle parentId in
               match tget (objectRefNext s) ref with
               | Some next => mergeWalk fuel s parentId next
               | None => Stray
               end
           end
  end.

Fixpoint mergeChildren (s : t) (parentId : Z) (idx : list Z) : outcome t :=
  match idx with
  | [] => Ret s
  | i :: idx =>
      match NodePool.getChild (nodePool s) parentId i with
      | Some (-1) => mergeChildren s parentId idx
      | Some childId =>
          match NodePool.getFirstObject (nodePool s) childId with
          | None => Stray
          | Some ref =>
              do s <- mergeWalk (walkBudget s) s parentId ref;
              let s := with_nodePool s (NodePool.releaseNode (nodePool s) childId) in
              let s := with_nodePool s (NodePool.setChild (nodePool s) parentId i (-1)) in
              mergeChildren s parentId idx
          end
      | None => Stray
      end
  end.

Definition tryMerge (s : t) (nodeId : Z) : outcome t :=
  match NodePool.getParent (nodePool s) nodeId with
  | None => Ret s
  | Some (-1) => Ret s
  | Some parentId =>
      match mergeScan s parentId [0; 1; 2; 3] (Some 0) with
      | None => Ret s                              (* !canMerge *)
      | Some total =>
          if match total with
             | Some total => Options.mergeThreshold (options s) <? total
             | None => false
             end
          then Ret s
          else
            do s <- mergeChildren s parentId [0; 1; 2; 3];
            Ret (with_nodePool s (NodePool.setLeaf (nodePool s) parentId true))
      end
  end.

Definition detachFromNode (s : t) (handle nodeId : Z) : outcome t :=
  if nodeId =? -1 then Ret s
  else
    do r <- purgeHandleFromNode s handle nodeId;
    let '(removed, s) := r in
    if removed : bool then tryMerge s nodeId else Ret s.

(** *** Quadtree descent *)

Definition selectChild (s : t) (nodeId : Z) (bbox : option BoundingBox) (depth : Z) : Z :=
  if Options.maxDepth (options s) <=? depth then -1
  else match NodePool.getBounds (nodePool s) nodeId, bbox with
       | Some nb, Some bbox =>
           let width' := halfWidth nb in     (* nodeBounds[2] *)
           let height' := halfHeight nb in   (* nodeBounds[3] *)
           if Qleb width' (Options.minNodeSize (options s)) &&
              Qleb height' (Options.minNodeSize (options s)) then -1
           else
             let midX := centerX nb in
             let midY := centerY nb in
             let bboxMinX := x bbox in
             let bboxMinY := y bbox in
             let bboxMaxX := (x bbox + width bbox)%Q in
             let bboxMaxY := (y bbox + height bbox)%Q in
             let fitsLeft := Qleb bboxMaxX midX in
             let fitsRight := Qleb midX bboxMinX in
             let fitsTop := Qleb bboxMaxY midY in
             let fitsBottom := Qleb midY bboxMinY in
             if fitsLeft then
               if fitsTop then ChildIndex.NorthWest
               else if fitsBottom then ChildIndex.SouthWest
               else -1
             else if fitsRight then
               if fitsTop then ChildIndex.NorthEast
               else if fitsBottom then ChildIndex.SouthEast
               else -1
             else -1
       | _, _ => -1   (* comparisons on [NaN] are false *)
       end.

Definition fitsNode (s : t) (nodeId : Z) (bbox : BoundingBox) : bool :=
  match NodePool.getBounds (nodePool s) nodeId with
  | None => false
  | Some nb =>
      let looseness := Options.looseness (options s) in
      let halfWidth := (halfWidth nb * looseness)%Q in
      let halfHeight := (halfHeight nb * looseness)%Q in
      let minX := (centerX nb - halfWidth)%Q in
      let minY := (centerY nb - halfHeight)%Q in
      let maxX := (centerX nb + halfWidth)%Q in
      let maxY := (centerY nb + halfHeight)%Q in
      Qleb minX (x bbox) && Qleb minY (y bbox) &&
      Qleb (x bbox + width bbox)%Q maxX && Qleb (y bbox + height bbox)%Q maxY
  end.

(** First loop of [redistribute]: the handles copied into the scratch
    [handleStack], at most [handleStack.length] of them.  A cell read as
    [undefined] is stored into the [Int32Array] as [0]. *)
Fixpoint collectHandles (room : nat) (s : t) (ref : option Z) : list Z :=
  match room with
  | O => []
  | S room =>
      match ref with
      | Some (-1) => []
      | Some r => default 0 (tget (objectRefHandle s) r)
                  :: collectHandles room s (tget (objectRefNext s) r)
      | None => 0 :: collectHandles room s None
      end
  end.

Fixpoint redistributeLoop (s : t) (nodeId depth : Z) (handles : list Z) : outcome t :=
  match handles with
  | [] => Ret s
  | handle :: handles =>
      let childIndex := selectChild s nodeId (readBoundingBox s handle) depth in
      if childIndex =? -1 then redistributeLoop s nodeId depth handles
      else match NodePool.getChild (nodePool s) nodeId childIndex with
           | Some (-1) => redistributeLoop s nodeId depth handles
           | Some childId =>
               do s <- detachFromNode s handle nodeId;
               redistributeLoop (attachToNode s handle childId) nodeId depth handles
           | None => Stray
           end
  end.

Definition redistribute (s : t) (nodeId depth : Z) : outcome t :=
  redistributeLoop s nodeId depth
    (collectHandles (Z.to_nat (handleStackLength s)) s
                    (NodePool.getFirstObject (nodePool s) nodeId)).

Fixpoint allocateChildren (s : t) (nodeId childDepth : Z)
    (childBounds : list (Z * NodeBounds)) : outcome t :=
  match childBounds with
  | [] => Ret s
  | (i, nb) :: childBounds =>
      do r <- NodePool.allocateNode (nodePool s) nodeId childDepth nb;
      let '(childId, pool) := r in
      allocateChildren (with_nodePool s (NodePool.setChild pool nodeId i childId))
                       nodeId childDepth childBounds
  end.

Definition splitNode (s : t) (nodeId depth : Z) : outcome t :=
  let s := with_nodePool s (NodePool.setLeaf (nodePool s) nodeId false) in
  match NodePool.getBounds (nodePool s) nodeId with
  | None => Stray
  | Some nb =>
      let halfWidth := (halfWidth nb / 2)%Q in
      let halfHeight := (halfHeight nb / 2)%Q in
      let centerX := centerX nb in
      let centerY := centerY nb in
      let childDepth := depth + 1 in
      let childBounds :=
        [ (0, mkNodeBounds (centerX - halfWidth) (centerY - halfHeight) halfWidth halfHeight);
          (1, mkNodeBounds (centerX + halfWidth) (centerY - halfHeight) halfWidth halfHeight);
          (2, mkNodeBounds (centerX - halfWidth) (centerY + halfHeight) halfWidth halfHeight);
          (3, mkNodeBounds (centerX + halfWidth) (centerY + halfHeight) halfWidth halfHeight) ] in
      do s <- allocateChildren s nodeId childDepth childBounds;
      redistribute s nodeId depth
  end.

(** The [while (true)] loop of [insertHandle]; [depth] grows by one per
    iteration and the loop returns once it exceeds [maxDepth + 5]. *)
Fixpoint insertHandleLoop (fuel : nat) (s : t) (handle : Z) (bbox : BoundingBox)
    (nodeId depth : Z) : outcome (Z * t) :=
  match fuel with
  | O => Stray
  | S fuel =>
      do s <-
        (if NodePool.isLeaf (nodePool s) nodeId then
           let room :=
             match NodePool.getObjectCount (nodePool s) nodeId with
             | Some nodeCount => nodeCount <? Options.maxObjectsPerNode (options s)
             | None => false
             end in
           if room || (Options.maxDepth (options s) <=? depth) then Ret (inl s)
           else do s <- splitNode s nodeId depth; Ret (inr s)
         else Ret (inr s));
      match s with
      | inl s => Ret (nodeId, attachToNode s handle nodeId)
      | inr s =>
          let childIndex := selectChild s nodeId (Some bbox) depth in
          if childIndex =? -1 then Ret (nodeId, attachToNode s handle nodeId)
          else match NodePool.getChild (nodePool s) nodeId childIndex with
               | Some (-1) => Ret (nodeId, attachToNode s handle nodeId)
               | Some childId =>
                   let depth := depth + 1 in
                   if Options.maxDepth (options s) + 5 <? depth
                   then Ret (childId, attachToNode s handle childId)
                   else insertHandleLoop fuel s handle bbox childId depth
               | None => Stray
               end
      end
  end.

Definition insertHandle (s : t) (handle : Z) (bbox : BoundingBox) (_flags : Z) : outcome (Z * t) :=
  let s := ensureRootBounds s bbox in
  insertHandleLoop (Z.to_nat (Options.maxDepth (options s) + 6) + 1) s handle bbox (rootNodeId s) 0.

(** *** Public operations *)

Definition insert (s : t) (objectId : string) (bbox : BoundingBox) (flags : Z)
    : outcome (InsertionResult * t) :=
  let '(handle, s) := obtainHandle s objectId in
  let s := writeBoundingBox s handle bbox in
  let s := ensureRootBounds s bbox in
  do s <-
    match tget (objectNode s) handle with
    | Some (-1) => Ret s
    | Some nodeId => do r <- purgeHandleFromNode s handle nodeId; Ret (snd r)
    | None => Stray
    end;
  do r <- insertHandle s handle bbox flags;
  let '(nodeId, s) := r in
  let record := mkObjectRecord objectId handle nodeId flags 0 0 in
  let s := with_objectIndex s (<[objectId := record]> (objectIndex s)) in
  let s := with_objectNode s (tset (objectNode s) handle nodeId) in
  let s := with_objectFlags s (tset (objectFlags s) handle (u32 flags)) in
  Ret (mkInsertionResult handle nodeId flags inserted, s).

Definition remove (s : t) (objectId : string) : outcome t :=
  match objectIndex s !! objectId with
  | None => Ret s
  | Some record =>
      let handle := rec_handle record in
      do s <- detachFromNode s handle (rec_nodeId record);
      let s := match tget (objectFlags s) handle with
               | Some f => with_objectFlags s (tset (objectFlags s) handle (Z.lor f ObjectFlags.Deleted))
               | None => s
               end in
      let s := with_handleToId s (jsset None (handleToId s) handle None) in
      let s := with_objectIndex s (delete objectId (objectIndex s)) in
      let s := with_objectNode s (tset (objectNode s) handle (-1)) in
      let s := with_objectRefIndex s (tset (objectRefIndex s) handle (-1)) in
      let s := with_handleFreeList s (handle :: handleFreeList s) in
      Ret (with_usedHandles s (usedHandles s - 1))
  end.

Definition bumpDynamicCounters (s : t) (handle : Z) : t :=
  let updateCount := (fun c => c + 1) <$> tget (objectUpdateCounter s) handle in
  let s := match updateCount with
           | Some c => with_objectUpdateCounter s (tset (objectUpdateCounter s) handle (u16 c))
           | None => s
           end in
  let windowCount := (fun c => c + 1) <$> tget (objectWindowCounter s) handle in
  let s := match windowCount with
           | Some c => with_objectWindowCounter s (tset (objectWindowCounter s) handle (u16 c))
           | None => s
           end in
  let s := if match windowCount with
              | Some c => Options.dynamicUpdateWindow (options s) <=? c
              | None => false
              end
           then with_objectWindowCounter
                  (with_objectUpdateCounter s (tset (objectUpdateCounter s) handle 0))
                  (tset (objectWindowCounter s) handle 0)
           else s in
  if match updateCount with
     | Some c => Options.dynamicUpdateThreshold (options s) <=? c
     | None => false
     end
  then
    let flags := default 0 (tget (objectFlags s) handle) in
    if Z.land flags ObjectFlags.Dynamic =? 0 then
      let s := with_objectFlags s (tset (objectFlags s) handle (Z.lor flags ObjectFlags.Dynamic)) in
      let s := if tlen (dynamicHandles s) <=? dynamicHandleCount s
               then with_dynamicHandles s
                      (tgrow (dynamicHandles s) (tlen (dynamicHandles s) * 2) 0)
               else s in
      let s := with_dynamicHandles s (tset (dynamicHandles s) (dynamicHandleCount s) handle) in
      with_dynamicHandleCount s (dynamicHandleCount s + 1)
    else s
  else s.

Definition updateBoundingBox (s : t) (objectId : string) (bbox : BoundingBox)
    : outcome (UpdateResult * t) :=
  match objectIndex s !! objectId with
  | None => Ret (mkUpdateResult (-1) (-1) ObjectFlags.None_ failed, s)
  | Some record =>
      let handle := rec_handle record in
      let currentNode := rec_nodeId record in
      let s := writeBoundingBox s handle bbox in
      let record := mkObjectRecord (rec_id record) handle currentNode
                      (default 0 (tget (objectFlags s) handle))
                      (updateTicks record) (windowTicks record) in
      let s := with_objectIndex s (<[objectId := record]> (objectIndex s)) in
      do r <-
        (if negb (fitsNode s currentNode bbox) then
           do s <- detachFromNode s handle currentNode;
           do r <- insertHandle s handle bbox (rec_flags record);
           let '(newNode, s) := r in
           let record := mkObjectRecord (rec_id record) handle newNode (rec_flags record)
                           (updateTicks record) (windowTicks record) in
           let s := with_objectIndex s (<[objectId := record]> (objectIndex s)) in
           let s := with_objectNode s (tset (objectNode s) handle newNode) in
           Ret (newNode, moved, s)
         else Ret (currentNode, updated, s));
      let '(newNode, status, s) := r in
      let s := match tget (objectFlags s) handle with
               | Some f =>
                   with_objectFlags s
                     (tset (objectFlags s) handle
                        (Z.lor f (Z.lor ObjectFlags.Dirty ObjectFlags.TileCoverageDirty)))
               | None => s
               end in
      let s := bumpDynamicCounters s handle in
      Ret (mkUpdateResult handle newNode (default 0 (tget (objectFlags s) handle)) status, s)
  end.

(** [add]: the legacy entry point used by the command stack. *)
Definition add (s : t) (obj : DrawObject.t) : outcome t :=
  let '(obj, bbox) := DrawObject.ensureBoundingBox obj in
  let obj := match DrawObject.zIndex obj with
             | Some z => if z =? 0
                         then DrawObject.mk (DrawObject.id obj) (DrawObject.bbox obj)
                                (Some (Z.of_nat (size (objectStore s)))) (DrawObject.geometryBox obj)
                         else obj
             | None => DrawObject.mk (DrawObject.id obj) (DrawObject.bbox obj)
                         (Some (Z.of_nat (size (objectStore s)))) (DrawObject.geometryBox obj)
             end in
  let s := with_objectStore s (<[DrawObject.id obj := obj]> (objectStore s)) in
  match objectIndex s !! DrawObject.id obj with
  | Some _ => do r <- updateBoundingBox s (DrawObject.id obj) bbox; Ret (snd r)
  | None => do r <- insert s (DrawObject.id obj) bbox ObjectFlags.None_; Ret (snd r)
  end.

Definition update (s : t) (objectId : string) (updated_ : DrawObject.t) : outcome t :=
  let '(updated_, bbox) := DrawObject.ensureBoundingBox updated_ in
  let s := with_objectStore s (<[objectId := updated_]> (objectStore s)) in
  do r <- updateBoundingBox s objectId bbox; Ret (snd r).

(** *** Region query *)

Definition bboxIntersects (lhs rhs : BoundingBox) : bool :=
  let lhsMaxX := (x lhs + width lhs)%Q in
  let lhsMaxY := (y lhs + height lhs)%Q in
  let rhsMaxX := (x rhs + width rhs)%Q in
  let rhsMaxY := (y rhs + height rhs)%Q in
  Qltb (x lhs) rhsMaxX && Qltb (x rhs) lhsMaxX && Qltb (y lhs) rhsMaxY && Qltb (y rhs) lhsMaxY.

Definition nodeIntersects (s : t) (nodeId : Z) (bounds : BoundingBox) : bool :=
  match NodePool.getBounds (nodePool s) nodeId with
  | None => false
  | Some nb =>
      let looseness := Options.looseness (options s) in
      let minX := (centerX nb - halfWidth nb * looseness)%Q in
      let maxX := (centerX nb + halfWidth nb * looseness)%Q in
      let minY := (centerY nb - halfHeight nb * looseness)%Q in
      let maxY := (centerY nb + halfHeight nb * looseness)%Q in
      let boundsMaxX := (x bounds + width bounds)%Q in
      let boundsMaxY := (y bounds + height bounds)%Q in
      Qltb minX boundsMaxX && Qltb (x bounds) maxX && Qltb minY boundsMaxY && Qltb (y bounds) maxY
  end.

(** An identifier is truthy unless it is the empty string. *)
Definition truthyId (o : option string) : bool :=
  match o with
  | Some i => negb (bool_decide (i = EmptyString))
  | None => false
  end.

(** The test of line 371: the reference is stale and must be purged. *)
Definition staleHandle (s : t) (nodeId handle : Z) : bool :=
  (handle <? 0) || (objectCapacity s <=? handle) ||
  negb (truthyId (mjoin (tget (handleToId s) handle))) ||
  negb (bool_decide (tget (objectNode s) handle = Some nodeId)) ||
  negb (Z.land (default 0 (tget (objectFlags s) handle)) ObjectFlags.Deleted =? 0).

Inductive walkResult :=
  | WalkFull (s : t) (out : list Z) (count : Z)
      (* [return count]: the buffer is full *)
  | WalkDone (s : t) (out : list Z) (count : Z) (remaining : nat).
      (* the inner loop ended with [maxTraverse - traversedObjs = remaining] *)

(** The inner [while (ref !== -1 && traversedObjs < maxTraverse)] loop.
    [objectRefNext] has the length of [objectRefHandle] (both are created
    and resized together), so the read of [objectRefNext[ref]] is inside the
    array once [ref] passed the range test; were it not, the source would go
    on with [undefined] until [maxTraverse] and then leave the outer loop
    without writing anything more, which [WalkDone _ _ _ 0] reports. *)
Fixpoint walkRefs (remaining : nat) (s : t) (nodeId : Z) (bounds : BoundingBox)
    (includeDynamic : bool) (mode : FindMode) (out : list Z) (count ref prevRef : Z)
    : walkResult :=
  if ref =? -1 then WalkDone s out count remaining
  else match remaining with
  | O => WalkDone s out count O
  | S remaining =>
      if (ref <? 0) || (tlen (objectRefHandle s) <=? ref) then WalkDone s out count remaining
      else
        let handle := default 0 (tget (objectRefHandle s) ref) in
        if staleHandle s nodeId handle then
          match tget (objectRefNext s) ref with
          | Some nextRef =>
              walkRefs remaining (detachRef s nodeId ref prevRef handle) nodeId bounds
                       includeDynamic mode out count nextRef prevRef
          | None => WalkDone s out count O
          end
        else
          let flags := default 0 (tget (objectFlags s) handle) in
          let hit :=
            (match mode with all => true | nonDeleted => Z.land flags ObjectFlags.Deleted =? 0 end) &&
            (match readBoundingBox s handle with
             | Some bbox => bboxIntersects bbox bounds
             | None => false
             end) &&
            (includeDynamic || (Z.land flags ObjectFlags.Dynamic =? 0)) in
          let out' := if hit then tset out count handle else out in
          let count' := if hit then count + 1 else count in
          if hit && (tlen out <=? count') then WalkFull s out' count'
          else match tget (objectRefNext s) ref with
               | Some nextRef =>
                   walkRefs remaining s nodeId bounds includeDynamic mode out' count' nextRef ref
               | None => WalkDone s out' count' O
               end
  end.

(** [nodeStack[stackSize++] = v] on the scratch [Int32Array]: past its end
    the write is dropped and the later read yields [undefined]. *)
Definition pushNode (s : t) (stack : list (option Z)) (v : Z) : list (option Z) :=
  (if Z.of_nat (length stack) <? nodeStackLength s then Some v else None) :: stack.

(** The [for (i = 0; i < 4; i++)] loop pushing the children. *)
Definition pushChildren (s : t) (nodeId : Z) (stack : list (option Z)) : list (option Z) :=
  foldl (fun stack i =>
           match NodePool.getChild (nodePool s) nodeId i with
           | Some (-1) => stack
           | Some childId => pushNode s stack childId
           | None => pushNode s stack 0
           end) stack [0; 1; 2; 3].

(** The outer [while (stackSize > 0)] loop; [visits] is
    [10000 - nodeVisitCount]. *)
Fixpoint visitNodes (visits : nat) (s : t) (bounds : BoundingBox) (includeDynamic : bool)
    (mode : FindMode) (out : list Z) (count : Z) (stack : list (option Z)) : Z * list Z * t :=
  match stack with
  | [] => (count, out, s)
  | top :: stack =>
      match visits with
      | O => (0, out, s)     (* 'TOO MANY NODES VISITED', [return 0] *)
      | S visits =>
          match top with
          | None => visitNodes visits s bounds includeDynamic mode out count stack
          | Some nodeId =>
              if negb (nodeIntersects s nodeId bounds)
              then visitNodes visits s bounds includeDynamic mode out count stack
              else
                match NodePool.getFirstObject (nodePool s) nodeId,
                      NodePool.getObjectCount (nodePool s) nodeId with
                | Some firstRef, Some expectedObjCount =>
                    let maxTraverse := expectedObjCount * 2 + 10 in
                    match walkRefs (Z.to_nat maxTraverse) s nodeId bounds includeDynamic mode
                                   out count firstRef (-1) with
                    | WalkFull s out count => (count, out, s)
                    | WalkDone s out count O => (count, out, s)   (* 'LONG OBJ LIST', [break] *)
                    | WalkDone s out count (S _) =>
                        visitNodes visits s bounds includeDynamic mode out count
                                   (pushChildren s nodeId stack)
                    end
                | Some _, None =>
                    visitNodes visits s bounds includeDynamic mode out count
                               (pushChildren s nodeId stack)
                | None, Some _ => (count, out, s)
                | None, None =>
                    visitNodes visits s bounds includeDynamic mode out count
                               (pushChildren s nodeId stack)
                end
          end
      end
  end.

(** [findInBounds(bounds, outBuffer, options)]: the returned count, the
    output buffer and the store after the call. *)
Definition findInBounds (s : t) (bounds : BoundingBox) (outBuffer : list Z) (o : FindOptions)
    : Z * list Z * t :=
  let includeDynamic := default true (includeDynamic o) in
  let mode := default nonDeleted (mode o) in
  visitNodes (Z.to_nat 10000) s bounds includeDynamic mode outBuffer 0
             (pushNode s [] (rootNodeId s)).

Definition release (s : t) : t :=
  let s := with_objectIndex s ∅ in
  let s := with_objectStore s ∅ in
  let s := with_handleFreeList s [] in
  let s := with_objectRefFreeList s [] in
  with_dynamicHandleCount s 0.

End ObjectStore.

(** ** ChunkManager (core/render/ChunkManager.ts) *)

(** A JavaScript [Map]: iteration follows insertion order, [set] on a present
    key keeps its position. *)
Module JsMap.
Section JsMap.
Context {K V : Type} `{EqDecision K}.

Definition t := list (K * V).

Definition get (m : list (K * V)) (k : K) : option V :=
  snd <$> List.find (fun kv => bool_decide (fst kv = k)) m.

Definition has (m : list (K * V)) (k : K) : bool := bool_decide (is_Some (get m k)).

Fixpoint set (m : list (K * V)) (k : K) (v : V) : list (K * V) :=
  match m with
  | [] => [(k, v)]
  | (k', v') :: m => if bool_decide (k' = k) then (k, v) :: m else (k', v') :: set m k v
  end.

Definition delete (m : list (K * V)) (k : K) : list (K * V) :=
  List.filter (fun kv => negb (bool_decide (fst kv = k))) m.

Definition keys (m : list (K * V)) : list K := List.map fst m.
Definition values (m : list (K * V)) : list V := List.map snd m.
Definition size (m : list (K * V)) : nat := length m.
End JsMap.
End JsMap.

(** [const enum LODLevel { Near = 0, Mid = 1, Far = 2, Overview = 3 }]
    (types.ts): the four level-of-detail bands, nearest first. *)
Inductive LODLevel := Near | Mid | Far | Overview.

#[global] Instance LODLevel_eq_dec : EqDecision LODLevel.
Proof. solve_decision. Defined.

(** The fields of a [Viewport] the chunk cache reads; [lodLevel] may be
    [undefined] ([None]). *)
Record Viewport := mkViewport { scale : Q; lodLevel : option LODLevel }.

(** [PIXI.Rectangle] (pixi.js, an external library). *)
Module Rectangle.
Record t := mk { x : Q; y : Q; width : Q; height : Q }.

Definition right (r : t) : Q := (x r + width r)%Q.
Definition bottom (r : t) : Q := (y r + height r)%Q.

(** [Rectangle.intersects(other)] without a transform. *)
Definition intersects (r other : t) : bool :=
  let x0 := if Qltb (x r) (x other) then x other else x r in
  let x1 := if Qltb (right other) (right r) then right other else right r in
  if Qleb x1 x0 then false
  else
    let y0 := if Qltb (y r) (y other) then y other else y r in
    let y1 := if Qltb (bottom other) (bottom r) then bottom other else bottom r in
    Qltb y0 y1.

(** [Rectangle.contains(px, py)]: a rectangle of no width or height holds
    no point; the right and bottom edges are excluded. *)
Definition contains (r : t) (px py : Q) : Prop :=
  (0 < width r /\ 0 < height r /\
   x r <= px /\ px < x r + width r /\ y r <= py /\ py < y r + height r)%Q.
End Rectangle.

Module ChunkManager.

Definition CHUNK_SIZE : Z := 1024.

(** A chunk key [`${cx},${cy}`] is kept as the pair it prints; printing is
    injective and [split(',')] followed by [parseInt] or [Number] gives the
    pair back.  A segment key [`${objectId}:${chunkKey}`] is kept as the
    pair of its parts: a chunk key holds no colon, so the last colon of a
    segment key separates them and the printed key determines both. *)
Definition ChunkKey : Type := Z * Z.
Definition SegmentKey : Type := string * ChunkKey.

Record ChunkSegment := mkSegment
  { objectId : string;
    chunkKey : ChunkKey;
    localX : Q;
    localY : Q;
    clipRect : Rectangle.t;
    seg_zIndex : Z;
    lod : LODLevel }.

(** A child of a [PIXI.Container], as far as the cache decides it. *)
Record PixiChild := mkChild
  { child_object : string; child_x : Q; child_y : Q; child_zIndex : Z; child_lod : LODLevel }.

Inductive RebuildEvent :=
  | RebuiltLive (key : ChunkKey)
  | RebuiltRenderTexture (key : ChunkKey).

Record Chunk := mkChunk
  { key : ChunkKey;
    live : list PixiChild;               (* live.children *)
    renderContainer : list PixiChild;    (* renderContainer.children *)
    segments : list (SegmentKey * ChunkSegment);
    isDirty : bool;
    previousLod : option (option LODLevel);   (* [None] is [null] *)
    updatedLodContent : bool }.

Definition sprite_x (c : Chunk) : Q := inject_Z (fst (key c) * CHUNK_SIZE).
Definition sprite_y (c : Chunk) : Q := inject_Z (snd (key c) * CHUNK_SIZE).

Definition newChunk (cx cy : Z) : Chunk :=
  {| key := (cx, cy); live := []; renderContainer := []; segments := [];
     isDirty := true; previousLod := None; updatedLodContent := false |}.

Definition addSegment (c : Chunk) (segment : ChunkSegment) : Chunk :=
  let segmentKey := (objectId segment, chunkKey segment) in
  if JsMap.has (segments c) segmentKey then c
  else mkChunk (key c) (live c) (renderContainer c)
               (JsMap.set (segments c) segmentKey segment) true (previousLod c) true.

(** [key.startsWith(`${objectId}:`)] on the printed key
    [`${o}:${cx},${cy}`]. *)
Definition keyStartsWith (objectId : string) (k : SegmentKey) : bool :=
  bool_decide (fst k = objectId) || String.prefix (objectId ++ ":") (fst k).

Definition removeSegmentsByObjectId (c : Chunk) (objectId : string) : Chunk :=
  let kept := List.filter (fun kv => negb (keyStartsWith objectId (fst kv))) (segments c) in
  let changed := existsb (fun kv => keyStartsWith objectId (fst kv)) (segments c) in
  if changed
  then mkChunk (key c) (live c) (renderContainer c) kept true (previousLod c) true
  else c.

Section Rendering.
(** The renderer plugin: whether [drawObjectToPixi(obj, lod)] yields a
    display object ([true]) or [null]. *)
Variable drawObjectToPixi : DrawObject.t -> LODLevel -> bool.

(** [children.sort] by [zIndex]; the sort is stable. *)
Definition zOrder (a b : PixiChild) : Prop := child_zIndex a <= child_zIndex b.

#[local] Instance zOrder_dec a b : Decision (zOrder a b).
Proof. unfold zOrder. apply _. Defined.

Definition sortChildren (l : list PixiChild) : list PixiChild := merge_sort zOrder l.

(** [Math.sqrt(w ** 2 + h ** 2) * scale >= c] for a positive [c] holds
    exactly when [scale] is positive and [(w² + h²) * scale² >= c²]. *)
Definition diagAtLeast (bbox : BoundingBox) (scale : Q) (c : Q) : bool :=
  Qltb 0 scale &&
  Qleb (c * c) ((width bbox * width bbox + height bbox * height bbox) * (scale * scale)).

Definition computeLOD (obj : DrawObject.t) (viewport : Viewport) : outcome LODLevel :=
  match DrawObject.bbox obj with
  | None => Throws   (* [obj.bbox!] is [undefined] *)
  | Some bbox =>
      Ret (if diagAtLeast bbox (scale viewport) 130 then Near
           else if diagAtLeast bbox (scale viewport) 60 then Mid
           else if diagAtLeast bbox (scale viewport) 30 then Far
           else Overview)
  end.

(** The loop of [rebuildLive] over [segments.values()]. *)
Fixpoint liveChildren (chunkX chunkY : Q) (getObject : string -> option DrawObject.t)
    (segs : list (SegmentKey * ChunkSegment)) : outcome (list PixiChild) :=
  match segs with
  | [] => Ret []
  | (_, segment) :: segs =>
      match getObject (objectId segment) with
      | None => liveChildren chunkX chunkY getObject segs
      | Some obj =>
          if negb (drawObjectToPixi obj Near) then liveChildren chunkX chunkY getObject segs
          else match DrawObject.bbox obj with
               | None => Throws   (* [obj.bbox!] is [undefined] *)
               | Some bbox =>
                   do rest <- liveChildren chunkX chunkY getObject segs;
                   Ret (mkChild (objectId segment) (x bbox - chunkX) (y bbox - chunkY)
                                (default 0 (DrawObject.zIndex obj)) Near :: rest)
               end
      end
  end.

Definition rebuildLive (c : Chunk) (getObject : string -> option DrawObject.t) : outcome Chunk :=
  do children <- liveChildren (sprite_x c) (sprite_y c) getObject (segments c);
  Ret (mkChunk (key c) (sortChildren children) (renderContainer c) (segments c)
               (isDirty c) (previousLod c) (updatedLodContent c)).

Definition textureChildren (getObject : string -> option DrawObject.t)
    (segs : list (SegmentKey * ChunkSegment)) : list PixiChild :=
  omap (fun kv =>
          let segment := snd kv in
          match getObject (objectId segment) with
          | None => None
          | Some obj =>
              if drawObjectToPixi obj (lod segment)
              then Some (mkChild (objectId segment) (localX segment) (localY segment)
                                 (seg_zIndex segment) (lod segment))
              else None
          end) segs.

Definition rebuildRenderTexture (c : Chunk) (getObject : string -> option DrawObject.t) : Chunk :=
  mkChunk (key c) (live c) (sortChildren (textureChildren getObject (segments c)))
          (segments c) (isDirty c) (previousLod c) (updatedLodContent c).

(** The loop of [update] that refreshes [segment.lod]. *)
Fixpoint refreshLods (viewport : Viewport) (getObject : string -> option DrawObject.t)
    (segs : list (SegmentKey * ChunkSegment)) : outcome (list (SegmentKey * ChunkSegment)) :=
  match segs with
  | [] => Ret []
  | (k, segment) :: segs =>
      do segment <-
        match getObject (objectId segment) with
        | Some obj =>
            do l <- computeLOD obj viewport;
            Ret (mkSegment (objectId segment) (chunkKey segment) (localX segment)
                           (localY segment) (clipRect segment) (seg_zIndex segment) l)
        | None => Ret segment
        end;
      do rest <- refreshLods viewport getObject segs;
      Ret ((k, segment) :: rest)
  end.

(** [Chunk.update]; the second component lists the rebuilds performed. *)
Definition update (c : Chunk) (viewport : Viewport)
    (getObject : string -> option DrawObject.t) : outcome (Chunk * list RebuildEvent) :=
  let lod := lodLevel viewport in
  let c :=
    match previousLod c with
    | Some prev =>
        if negb (bool_decide (prev = lod)) &&
           (bool_decide (lod = Some Near) || bool_decide (prev = Some Near)) &&
           updatedLodContent c
        then mkChunk (key c) (live c) (renderContainer c) (segments c) true (previousLod c) false
        else c
    | None => c
    end in
  let c := mkChunk (key c) (live c) (renderContainer c) (segments c) (isDirty c)
                   (Some lod) (updatedLodContent c) in
  do segs <- refreshLods viewport getObject (segments c);
  let c := mkChunk (key c) (live c) (renderContainer c) segs (isDirty c)
                   (previousLod c) (updatedLodContent c) in
  if bool_decide (lod = Some Near) then
    if isDirty c || bool_decide (live c = []) then
      do c <- rebuildLive c getObject;
      Ret (mkChunk (key c) (live c) (renderContainer c) (segments c) false
                   (previousLod c) (updatedLodContent c), [RebuiltLive (key c)])
    else Ret (c, [])
  else
    if isDirty c then
      let c := rebuildRenderTexture c getObject in
      Ret (mkChunk (key c) (live c) (renderContainer c) (segments c) false
                   (previousLod c) (updatedLodContent c), [RebuiltRenderTexture (key c)])
    else Ret (c, []).
End Rendering.

Record t := mk
  { chunks : list (ChunkKey * Chunk);               (* Map<string, Chunk> *)
    objectToChunks : gmap string (list ChunkKey);   (* Map<string, Set<string>> *)
    objects : gmap string DrawObject.t }.

Definition empty : t := mk [] ∅ ∅.

(** The sums are taken as exact, as the doubles of the source are for whole
    numbers of magnitude up to [2^52]; the division by 1024, a power of two,
    is exact in doubles as well. *)
Definition getChunksForBbox (bbox : BoundingBox) : list ChunkKey :=
  let left := Qfloor (x bbox / inject_Z CHUNK_SIZE) in
  let right := Qfloor ((x bbox + width bbox - 1) / inject_Z CHUNK_SIZE) in
  let top := Qfloor (y bbox / inject_Z CHUNK_SIZE) in
  let bottom := Qfloor ((y bbox + height bbox - 1) / inject_Z CHUNK_SIZE) in
  cx ← seqZ left (right - left + 1);
  cy ← seqZ top (bottom - top + 1);
  [(cx, cy)].

Definition segmentFor (obj : DrawObject.t) (bbox : BoundingBox) (k : ChunkKey)
    : option ChunkSegment :=
  let chunkX := inject_Z (fst k * CHUNK_SIZE) in
  let chunkY := inject_Z (snd k * CHUNK_SIZE) in
  let ix := qmax (x bbox) chunkX in
  let iy := qmax (y bbox) chunkY in
  let ax := qmin (x bbox + width bbox) (chunkX + inject_Z CHUNK_SIZE) in
  let ay := qmin (y bbox + height bbox) (chunkY + inject_Z CHUNK_SIZE) in
  if Qleb ax ix || Qleb ay iy then None   (* [continue] *)
  else Some {| objectId := DrawObject.id obj;
               chunkKey := k;
               localX := ix - chunkX;
               localY := iy - chunkY;
               clipRect := Rectangle.mk (ix - x bbox) (iy - y bbox) (ax - ix) (ay - iy);
               seg_zIndex := default 0 (DrawObject.zIndex obj);
               lod := Near |}.

Definition computeSegmentsForObject (obj : DrawObject.t) : list ChunkSegment :=
  match DrawObject.bbox obj with
  | None => []
  | Some bbox => omap (segmentFor obj bbox) (getChunksForBbox bbox)
  end.

(** [Set.add]: insertion-ordered, no duplicates. *)
Definition setAdd (l : list ChunkKey) (k : ChunkKey) : list ChunkKey :=
  if bool_decide (k ∈ l) then l else l ++ [k].

Definition addObject (m : t) (obj : DrawObject.t) : t :=
  match DrawObject.bbox obj with
  | None => m   (* 'has no bbox, skipping' *)
  | Some _ =>
      let objects' := <[DrawObject.id obj := obj]> (objects m) in
      let chunks1 :=
        match objectToChunks m !! DrawObject.id obj with
        | Some oldChunkKeys =>
            foldl (fun cs k =>
                     match JsMap.get cs k with
                     | Some chunk =>
                         JsMap.set cs k (removeSegmentsByObjectId chunk (DrawObject.id obj))
                     | None => cs
                     end) (chunks m) oldChunkKeys
        | None => chunks m
        end in
      let '(chunks2, newChunkKeys) :=
        foldl (fun '(cs, ks) segment =>
                 let chunk := match JsMap.get cs (chunkKey segment) with
                              | Some chunk => chunk
                              | None => newChunk (fst (chunkKey segment)) (snd (chunkKey segment))
                              end in
                 (JsMap.set cs (chunkKey segment) (addSegment chunk segment),
                  setAdd ks (chunkKey segment)))
              (chunks1, []) (computeSegmentsForObject obj) in
      mk chunks2 (<[DrawObject.id obj := newChunkKeys]> (objectToChunks m)) objects'
  end.

Definition addObjects (m : t) (objs : list DrawObject.t) : t := foldl addObject m objs.

Section Visible.
Variable drawObjectToPixi : DrawObject.t -> LODLevel -> bool.

Fixpoint updateChunks (objs : gmap string DrawObject.t) (viewport : Viewport)
    (visible : Rectangle.t) (cs : list (ChunkKey * Chunk))
    : outcome (list (ChunkKey * Chunk) * list RebuildEvent) :=
  match cs with
  | [] => Ret ([], [])
  | (k, chunk) :: cs =>
      let chunkRect := Rectangle.mk (sprite_x chunk) (sprite_y chunk)
                         (inject_Z CHUNK_SIZE) (inject_Z CHUNK_SIZE) in
      do r <- (if Rectangle.intersects visible chunkRect
               then update drawObjectToPixi chunk viewport (fun id => objs !! id)
               else Ret (chunk, []));
      do rest <- updateChunks objs viewport visible cs;
      Ret ((k, fst r) :: fst rest, snd r ++ snd rest)
  end.

(** [updateVisibleChunks]; the second component lists the rebuilds. *)
Definition updateVisibleChunks (m : t) (viewport : Viewport) (visible : Rectangle.t)
    : outcome (t * list RebuildEvent) :=
  do r <- updateChunks (objects m) viewport visible (chunks m);
  Ret (mk (fst r) (objectToChunks m) (objects m), snd r).
End Visible.

Definition getChunksSize (m : t) : nat := JsMap.size (chunks m).

End ChunkManager.

(** * Properties of the chunk cache *)

Section SegmentConsistency.
Import ChunkManager.

(** A bounding box and a chunk as rectangles of the world plane. *)
Definition boxRect (bbox : BoundingBox) : Rectangle.t :=
  Rectangle.mk (x bbox) (y bbox) (width bbox) (height bbox).

Definition chunkRect (k : ChunkKey) : Rectangle.t :=
  Rectangle.mk (inject_Z (fst k * CHUNK_SIZE)) (inject_Z (snd k * CHUNK_SIZE))
               (inject_Z CHUNK_SIZE) (inject_Z CHUNK_SIZE).

(** The clip rectangle of a segment is relative to the object's box;
    adding the origin of the box maps it back to world space. *)
Definition worldClip (bbox : BoundingBox) (segment : ChunkSegment) : Rectangle.t :=
  Rectangle.mk (Rectangle.x (clipRect segment) + x bbox) (Rectangle.y (clipRect segment) + y bbox)
               (Rectangle.width (clipRect segment)) (Rectangle.height (clipRect segment)).

Lemma chunk_size_Q : inject_Z CHUNK_SIZE == 1024.
Proof. reflexivity. Qed.

Lemma qmax_spec a b : (a <= qmax a b /\ b <= qmax a b /\ (qmax a b == a \/ qmax a b == b))%Q.
Proof.
  unfold qmax. destruct (Qleb a b) eqn:E.
  - apply Qleb_le in E. repeat split; [lra|lra|right; reflexivity].
  - apply Qleb_false in E. repeat split; [lra|lra|left; reflexivity].
Qed.

Lemma qmin_spec a b : (qmin a b <= a /\ qmin a b <= b /\ (qmin a b == a \/ qmin a b == b))%Q.
Proof.
  unfold qmin. destruct (Qleb a b) eqn:E.
  - apply Qleb_le in E. repeat split; [lra|lra|left; reflexivity].
  - apply Qleb_false in E. repeat split; [lra|lra|right; reflexivity].
Qed.

(** The segment built for a chunk clips exactly the part of the box that
    lies in that chunk. *)
Lemma segmentFor_contains obj bbox k px py :
  (exists segment, segmentFor obj bbox k = Some segment /\
                   Rectangle.contains (worldClip bbox segment) px py)
  <-> Rectangle.contains (boxRect bbox) px py /\ Rectangle.contains (chunkRect k) px py.
Proof.
  unfold segmentFor, Rectangle.contains, worldClip, boxRect, chunkRect; simpl.
  pose proof chunk_size_Q as HS.
  set (S := inject_Z CHUNK_SIZE) in *.
  set (cX := inject_Z (fst k * CHUNK_SIZE)). set (cY := inject_Z (snd k * CHUNK_SIZE)).
  destruct (qmax_spec (x bbox) cX) as (Hx1 & Hx2 & Hx3).
  destruct (qmax_spec (y bbox) cY) as (Hy1 & Hy2 & Hy3).
  destruct (qmin_spec (x bbox + width bbox) (cX + S)) as (Ha1 & Ha2 & Ha3).
  destruct (qmin_spec (y bbox + height bbox) (cY + S)) as (Hb1 & Hb2 & Hb3).
  set (ix := qmax (x bbox) cX) in *. set (iy := qmax (y bbox) cY) in *.
  set (ax := qmin (x bbox + width bbox) (cX + S)) in *.
  set (ay := qmin (y bbox + height bbox) (cY + S)) in *.
  split.
  - intros (segment & Hseg & Hc).
    destruct (Qleb ax ix || Qleb ay iy) eqn:E; [discriminate|].
    injection Hseg as <-. simpl in Hc.
    repeat split; lra.
  - intros [Hb Hk].
    destruct (Qleb ax ix || Qleb ay iy) eqn:E.
    + exfalso. apply orb_true_iff in E as [E|E]; apply Qleb_le in E.
      * destruct Ha3 as [Ha3|Ha3]; destruct Hx3 as [Hx3|Hx3]; lra.
      * destruct Hb3 as [Hb3|Hb3]; destruct Hy3 as [Hy3|Hy3]; lra.
    + eexists. split; [reflexivity|]. simpl.
      apply orb_false_iff in E as [E1 E2]. apply Qleb_false in E1, E2.
      destruct Hx3 as [Hx3|Hx3], Ha3 as [Ha3|Ha3], Hy3 as [Hy3|Hy3], Hb3 as [Hb3|Hb3];
        repeat split; lra.
Qed.

(** The clip rectangles of the segments computed for an object, moved back
    to world space, cover exactly the part of the object's bounding box that
    lies in the chunks [getChunksForBbox] finds for it: a point of the plane
    is in some segment if and only if it is in the box and in one of those
    chunks.  Rectangles hold their points as [PIXI.Rectangle.contains] says
    (left and top edges included, right and bottom excluded). *)
Lemma segments_cover_box_in_chunks (id : string) (z : option Z) (g bbox : BoundingBox)
    (px py : Q) :
  (exists segment,
      segment ∈ computeSegmentsForObject (DrawObject.mk id (Some bbox) z g) /\
      Rectangle.contains (worldClip bbox segment) px py)
  <->
  (Rectangle.contains (boxRect bbox) px py /\
   exists k, k ∈ getChunksForBbox bbox /\ Rectangle.contains (chunkRect k) px py).
Proof.
  unfold computeSegmentsForObject; simpl.
  set (obj := DrawObject.mk id (Some bbox) z g).
  split.
  - intros (segment & Hin & Hc).
    apply list_elem_of_omap in Hin as (k & Hk & Hseg).
    destruct (proj1 (segmentFor_contains obj bbox k px py)) as [Hb Hck]; [eauto|].
    split; [exact Hb|]. eauto.
  - intros (Hb & k & Hk & Hck).
    destruct (proj2 (segmentFor_contains obj bbox k px py)) as (segment & Hseg & Hc); [auto|].
    exists segment. split; [|exact Hc].
    apply list_elem_of_omap. eauto.
Qed.


(** [getChunksForBbox] subtracts one world unit from the right and bottom
    edges before flooring.  A box whose last fraction of a unit crosses a
    chunk boundary is therefore not filed under the chunk it crosses into:
    the box [{1023.5, 0, 1, 10}] is given chunk (0,0) only. *)
Example chunks_of_fractional_box :
  getChunksForBbox (mkBBox (2047 # 2) 0 1 10) = [(0, 0)].
Proof. vm_compute. reflexivity. Qed.

(** C4. The box [{1023.5, 0, 1, 10}] reaches half a unit into chunk [1,0],
    and only chunk [0,0] is found for it.  One segment is computed, whose
    clip rectangle ends at the chunk boundary [1024]: the point
    [(1024.25, 5)] lies in the box and in the rectangle of chunk [1,0], and
    in the clip rectangle, moved back to world space, of no segment of the
    object. *)
Theorem fractional_box_leaves_gap :
  let bbox := mkBBox (2047 # 2) 0 1 10 in
  let obj := DrawObject.mk "f" (Some bbox) None bbox in
  let px := (4097 # 4)%Q in
  let py := 5%Q in
  Rectangle.contains (boxRect bbox) px py /\
  Rectangle.contains (chunkRect (1, 0)) px py /\
  getChunksForBbox bbox = [(0, 0)] /\
  List.map chunkKey (computeSegmentsForObject obj) = [(0, 0)] /\
  ~ exists segment,
      segment ∈ computeSegmentsForObject obj /\
      Rectangle.contains (worldClip bbox segment) px py.
Proof.
  intros bbox obj px py.
  split; [unfold Rectangle.contains; repeat split; vm_compute; first [reflexivity|discriminate]|].
  split; [unfold Rectangle.contains; repeat split; vm_compute; first [reflexivity|discriminate]|].
  split; [vm_compute; reflexivity|].
  split; [vm_compute; reflexivity|].
  intros (segment & Hin & Hc).
  destruct (proj1 (segments_cover_box_in_chunks "f" None bbox bbox px py)) as (_ & k & Hk & Hck).
  { exists segment. split; [exact Hin|exact Hc]. }
  assert (E : getChunksForBbox bbox = [(0, 0)]) by (vm_compute; reflexivity).
  rewrite E in Hk. apply list_elem_of_singleton in Hk. subst k.
  unfold Rectangle.contains, chunkRect in Hck. cbn in Hck.
  destruct Hck as (_ & _ & _ & Hlt & _). vm_compute in Hlt. discriminate.
Qed.
End SegmentConsistency.

Section IdempotentRebuild.
Import ChunkManager.
Variable drawObjectToPixi : DrawObject.t -> LODLevel -> bool.

(** The rebuild a chunk still asks for once it has been updated for a
    viewport: at the nearest band a chunk whose live container is empty is
    rebuilt on every update. *)
Definition idleRebuild (viewport : Viewport) (c : Chunk) : list RebuildEvent :=
  if bool_decide (lodLevel viewport = Some Near) && bool_decide (live c = [])
  then [RebuiltLive (key c)] else [].

Definition idleRebuilds (viewport : Viewport) (visible : Rectangle.t)
    (cs : list (ChunkKey * Chunk)) : list RebuildEvent :=
  flat_map (fun kc =>
              if Rectangle.intersects visible
                   (Rectangle.mk (sprite_x (snd kc)) (sprite_y (snd kc))
                                 (inject_Z CHUNK_SIZE) (inject_Z CHUNK_SIZE))
              then idleRebuild viewport (snd kc) else []) cs.

Lemma refreshLods_idem viewport getObject segs segs' :
  refreshLods viewport getObject segs = Ret segs' ->
  refreshLods viewport getObject segs' = Ret segs'.
Proof.
  revert segs'. induction segs as [|[k segment] segs IH]; intros segs' H; simpl in H.
  - injection H as <-. reflexivity.
  - apply obind_Ret in H as (segment' & Hseg & H).
    apply obind_Ret in H as (rest & Hrest & H). injection H as <-.
    simpl. rewrite (IH _ Hrest). simpl.
    destruct (getObject (objectId segment)) as [obj|] eqn:Hobj.
    + apply obind_Ret in Hseg as (l & Hl & Hseg). injection Hseg as <-. simpl.
      rewrite Hobj, Hl. reflexivity.
    + injection Hseg as <-. rewrite Hobj. reflexivity.
Qed.

(** A second [update] for the same viewport leaves the chunk as it is and
    rebuilds only what [idleRebuild] names. *)
Lemma update_twice c viewport getObject c1 ev1 :
  update drawObjectToPixi c viewport getObject = Ret (c1, ev1) ->
  update drawObjectToPixi c1 viewport getObject = Ret (c1, idleRebuild viewport c1).
Proof.
  destruct c as [k lv rc segs dirty prev ulc].
  unfold update, idleRebuild. cbn [key live renderContainer segments isDirty previousLod updatedLodContent].
  set (pre := match prev with
              | Some prev0 => _
              | None => _
              end).
  destruct pre as [k0 lv0 rc0 segs0 dirty0 prev0 ulc0] eqn:Hpre.
  cbn [key live renderContainer segments isDirty previousLod updatedLodContent].
  intros H. apply obind_Ret in H as (segs' & Hsegs & H).
  pose proof (refreshLods_idem _ _ _ _ Hsegs) as Hidem.
  destruct (bool_decide (lodLevel viewport = Some Near)) eqn:Hnear.
  - destruct (dirty0 || bool_decide (lv0 = [])) eqn:Hd.
    + apply obind_Ret in H as (c' & Hc' & H). injection H as <- <-.
      unfold rebuildLive in Hc'. cbn in Hc'.
      apply obind_Ret in Hc' as (children & Hch & Hc'). injection Hc' as <-.
      cbn [key live renderContainer segments isDirty previousLod updatedLodContent].
      rewrite bool_decide_eq_true_2 by reflexivity.
      cbn [negb andb orb key live renderContainer segments isDirty previousLod updatedLodContent].
      rewrite Hidem. cbn [obind]. rewrite ?Hnear. cbn [orb andb].
      destruct (bool_decide (sortChildren children = [])) eqn:He.
      * apply bool_decide_eq_true_1 in He.
        unfold rebuildLive. cbn. unfold sprite_x, sprite_y in *. cbn in *.
        rewrite Hch. cbn. rewrite He. reflexivity.
      * reflexivity.
    + injection H as <- <-.
      cbn [key live renderContainer segments isDirty previousLod updatedLodContent].
      rewrite bool_decide_eq_true_2 by reflexivity.
      cbn [negb andb orb key live renderContainer segments isDirty previousLod updatedLodContent].
      rewrite Hidem. cbn [obind]. rewrite ?Hnear.
      apply orb_false_iff in Hd as [-> ->]. reflexivity.
  - destruct dirty0.
    + injection H as <- <-.
      cbn [key live renderContainer segments isDirty previousLod updatedLodContent rebuildRenderTexture].
      rewrite bool_decide_eq_true_2 by reflexivity.
      cbn [negb andb orb key live renderContainer segments isDirty previousLod updatedLodContent].
      rewrite Hidem. cbn [obind]. rewrite ?Hnear. reflexivity.
    + injection H as <- <-.
      cbn [key live renderContainer segments isDirty previousLod updatedLodContent].
      rewrite bool_decide_eq_true_2 by reflexivity.
      cbn [negb andb orb key live renderContainer segments isDirty previousLod updatedLodContent].
      rewrite Hidem. cbn [obind]. rewrite ?Hnear. reflexivity.
Qed.

Lemma updateChunks_twice objs viewport visible cs cs1 ev1 :
  updateChunks drawObjectToPixi objs viewport visible cs = Ret (cs1, ev1) ->
  updateChunks drawObjectToPixi objs viewport visible cs1
  = Ret (cs1, idleRebuilds viewport visible cs1).
Proof.
  revert cs1 ev1. induction cs as [|[k c] cs IH]; intros cs1 ev1 H; simpl in H.
  - injection H as <- <-. reflexivity.
  - apply obind_Ret in H as ([c1 e1] & Hc & H).
    apply obind_Ret in H as ([rest e2] & Hrest & H). injection H as <- <-.
    simpl. rewrite (IH _ _ Hrest). simpl.
    destruct (Rectangle.intersects visible _) eqn:Hvis.
    + pose proof (update_twice _ _ _ _ _ Hc) as H2.
      assert (Hk : key c1 = key c).
      { clear -Hc. destruct c as [k lv rc segs dirty prev ulc]. unfold update in Hc.
        cbn [key live renderContainer segments isDirty previousLod updatedLodContent] in Hc.
        repeat match type of Hc with
               | context [match ?prev with Some _ => _ | None => _ end] => destruct prev
               | context [if ?b then _ else _] => destruct b
               end;
          cbn [key live renderContainer segments isDirty previousLod updatedLodContent] in Hc;
          apply obind_Ret in Hc as (? & _ & Hc);
          repeat match type of Hc with
                 | context [if ?b then _ else _] => destruct b
                 end;
          try (unfold rebuildLive in Hc; cbn in Hc; apply obind_Ret in Hc as (? & Hc' & Hc);
               apply obind_Ret in Hc' as (? & _ & Hc'); injection Hc' as <-);
          injection Hc as <- _; reflexivity. }
      unfold sprite_x, sprite_y in *. rewrite Hk, Hvis. rewrite H2. reflexivity.
    + injection Hc as <- <-. rewrite Hvis. reflexivity.
Qed.

(** C5 (amended). When [updateVisibleChunks] has run for a viewport and a
    visible rectangle, running it again with the same viewport and rectangle,
    nothing added or removed in between, leaves the cache as it is, never
    rebuilds a cached raster, and rebuilds the live container of exactly those
    visible chunks whose live container is empty, which happens at the nearest
    band only; at any other band the second call rebuilds nothing. *)
Theorem second_update_rebuilds_only_empty_live
    (m m1 : ChunkManager.t) (viewport : Viewport) (visible : Rectangle.t) (ev1 : list RebuildEvent) :
  updateVisibleChunks drawObjectToPixi m viewport visible = Ret (m1, ev1) ->
  updateVisibleChunks drawObjectToPixi m1 viewport visible
  = Ret (m1, idleRebuilds viewport visible (chunks m1)) /\
  (forall e, e ∈ idleRebuilds viewport visible (chunks m1) ->
     exists k c, (k, c) ∈ chunks m1 /\ e = RebuiltLive (key c) /\
                 live c = [] /\ lodLevel viewport = Some Near) /\
  (lodLevel viewport <> Some Near -> idleRebuilds viewport visible (chunks m1) = []).
Proof.
  unfold updateVisibleChunks. intros H.
  apply obind_Ret in H as ([cs1 e1] & Hcs & H). injection H as <- <-. simpl.
  split; [|split].
  - rewrite (updateChunks_twice _ _ _ _ _ _ Hcs). reflexivity.
  - intros e He. unfold idleRebuilds in He.
    apply list_elem_of_In, in_flat_map in He as ([k c] & Hin & He). simpl in He.
    destruct (Rectangle.intersects _ _); [|inversion He].
    unfold idleRebuild in He.
    destruct (bool_decide (lodLevel viewport = Some Near)) eqn:Hn; [|inversion He].
    destruct (bool_decide (live c = [])) eqn:Hl; [|inversion He].
    apply bool_decide_eq_true_1 in Hn, Hl.
    destruct He as [<-|[]]. exists k, c. repeat split; auto.
    by apply list_elem_of_In.
  - intros Hn. unfold idleRebuilds, idleRebuild.
    rewrite bool_decide_eq_false_2 by exact Hn. simpl.
    clear. induction cs1 as [|kc cs IH]; simpl; [reflexivity|].
    rewrite IH. destruct (Rectangle.intersects _ _); reflexivity.
Qed.
End IdempotentRebuild.

(** Reduces the field selections of a store built by the [with_] setters. *)
Ltac store_fields :=
  cbn [ObjectStore.options ObjectStore.nodePool ObjectStore.objectIndex
       ObjectStore.handleToId ObjectStore.objectStore ObjectStore.objectBounds
       ObjectStore.objectFlags ObjectStore.objectNode ObjectStore.objectRefIndex
       ObjectStore.objectUpdateCounter ObjectStore.objectWindowCounter
       ObjectStore.objectRefHandle ObjectStore.objectRefNext ObjectStore.dynamicHandles
       ObjectStore.objectCapacity ObjectStore.objectRefCapacity
       ObjectStore.handleFreeList ObjectStore.objectRefFreeList
       ObjectStore.objectRefUsed ObjectStore.dynamicHandleCount ObjectStore.usedHandles
       ObjectStore.rootNodeId ObjectStore.externalGetter ObjectStore.with_nodePool
       ObjectStore.with_objectIndex ObjectStore.with_handleToId
       ObjectStore.with_objectStore ObjectStore.with_objectBounds
       ObjectStore.with_objectFlags ObjectStore.with_objectNode
       ObjectStore.with_objectRefIndex ObjectStore.with_objectUpdateCounter
       ObjectStore.with_objectWindowCounter ObjectStore.with_objectRefHandle
       ObjectStore.with_objectRefNext ObjectStore.with_dynamicHandles
       ObjectStore.with_objectCapacity ObjectStore.with_objectRefCapacity
       ObjectStore.with_handleFreeList ObjectStore.with_objectRefFreeList
       ObjectStore.with_objectRefUsed ObjectStore.with_dynamicHandleCount
       ObjectStore.with_usedHandles ObjectStore.with_externalGetter] in *.

(** * Properties of the spatial index *)

Section HandleSide.
Import ObjectStore.

(** What the quadtree operations leave alone: the identifier index, the
    handle table, the per-handle boxes, flags and counters, and the lengths of
    the two per-handle link arrays. *)
Definition handleSide (s : t) :=
  (options s, objectIndex s, handleToId s, objectStore s, objectBounds s, objectFlags s,
   objectUpdateCounter s, objectWindowCounter s, dynamicHandles s, objectCapacity s,
   handleFreeList s, dynamicHandleCount s, usedHandles s, rootNodeId s, externalGetter s,
   tlen (objectNode s), tlen (objectRefIndex s)).

Definition keeps (s : t) (o : outcome t) : Prop :=
  forall s', o = Ret s' -> handleSide s' = handleSide s.

Definition keeps2 {A} (s : t) (o : outcome (A * t)) : Prop :=
  forall a s', o = Ret (a, s') -> handleSide s' = handleSide s.

Lemma keeps_Ret s s' : handleSide s' = handleSide s -> keeps s (Ret s').
Proof. intros H s'' [= <-]. exact H. Qed.

Lemma keeps_bind s (m : outcome t) (k : t -> outcome t) :
  keeps s m -> (forall s1, handleSide s1 = handleSide s -> keeps s1 (k s1)) -> keeps s (obind m k).
Proof.
  intros Hm Hk s' H. apply obind_Ret in H as (s1 & H1 & H2).
  rewrite (Hk s1 (Hm _ H1) _ H2). exact (Hm _ H1).
Qed.

Lemma handleSide_obtainObjectRefIndex s :
  handleSide (snd (obtainObjectRefIndex s)) = handleSide s.
Proof.
  unfold obtainObjectRefIndex, expandObjectRefs.
  destruct (objectRefFreeList s); [destruct (_ <=? _)|]; reflexivity.
Qed.

Lemma handleSide_attachToNode s handle nodeId :
  handleSide (attachToNode s handle nodeId) = handleSide s.
Proof.
  unfold attachToNode.
  pose proof (handleSide_obtainObjectRefIndex s) as H.
  destruct (obtainObjectRefIndex s) as [refIndex s1]. simpl in H. rewrite <- H.
  unfold handleSide. cbn. rewrite !tlen_tset. reflexivity.
Qed.

Lemma handleSide_detachRef s nodeId refIndex prevRef handle :
  handleSide (detachRef s nodeId refIndex prevRef handle) = handleSide s.
Proof.
  unfold detachRef, handleSide.
  destruct (prevRef =? -1); cbn;
    repeat match goal with |- context [if ?b then _ else _] => destruct b end;
    cbn; rewrite ?tlen_tset; reflexivity.
Qed.

Lemma keeps_purgeLoop fuel s handle nodeId current prev :
  keeps2 s (purgeLoop fuel s handle nodeId current prev).
Proof.
  revert current prev. induction fuel as [|fuel IH]; intros current prev b s' H; simpl in H.
  - discriminate.
  - destruct (current =? -1); [injection H as <- <-; reflexivity|].
    case_bool_decide.
    + injection H as <- <-. apply handleSide_detachRef.
    + destruct (tget (objectRefNext s) current); [|discriminate]. eapply IH, H.
Qed.

Lemma keeps_purgeHandleFromNode s handle nodeId :
  keeps2 s (purgeHandleFromNode s handle nodeId).
Proof.
  unfold purgeHandleFromNode. intros b s' H.
  destruct (nodeId =? -1); [injection H as <- <-; reflexivity|].
  destruct (NodePool.getFirstObject _ _); [|discriminate].
  eapply keeps_purgeLoop, H.
Qed.

Lemma keeps_mergeWalk fuel s parentId ref : keeps s (mergeWalk fuel s parentId ref).
Proof.
  revert s ref. induction fuel as [|fuel IH]; intros s ref s' H; simpl in H.
  - discriminate.
  - destruct (ref =? -1); [injection H as <-; reflexivity|].
    destruct (tget (objectRefHandle s) ref) as [handle|]; [|discriminate].
    destruct (tget (objectRefNext _) ref) as [next|]; [|discriminate].
    rewrite (IH _ _ _ H). apply handleSide_attachToNode.
Qed.

Lemma keeps_mergeChildren s parentId idx : keeps s (mergeChildren s parentId idx).
Proof.
  revert s. induction idx as [|i idx IH]; intros s s' H; simpl in H.
  - injection H as <-. reflexivity.
  - destruct (NodePool.getChild _ _ _) as [childId|]; [|discriminate].
    destruct (bool_decide (childId = -1)) eqn:E.
    + apply bool_decide_eq_true_1 in E. subst. eapply IH, H.
    + assert (Hgo : forall s0,
                 (match NodePool.getFirstObject (nodePool s) childId with
                  | Some ref =>
                      do s1 <- mergeWalk (walkBudget s) s parentId ref;
                      mergeChildren
                        (with_nodePool (with_nodePool s1 (NodePool.releaseNode (nodePool s1) childId))
                           (NodePool.setChild
                              (nodePool (with_nodePool s1 (NodePool.releaseNode (nodePool s1) childId)))
                              parentId i (-1))) parentId idx
                  | None => Stray
                  end) = Ret s0 -> handleSide s0 = handleSide s).
      { intros s0 H0. destruct (NodePool.getFirstObject _ _); [|discriminate].
        apply obind_Ret in H0 as (s1 & H1 & H2).
        rewrite (IH _ _ H2). cbn. apply (keeps_mergeWalk _ _ _ _ _ H1). }
      destruct childId as [|p|p]; try (apply Hgo; exact H).
      destruct p; try (apply Hgo; exact H). discriminate.
Qed.

Lemma keeps_tryMerge s nodeId : keeps s (tryMerge s nodeId).
Proof.
  unfold tryMerge. intros s' H.
  destruct (NodePool.getParent _ _) as [parentId|]; [|injection H as <-; reflexivity].
  assert (Hgo : forall s0,
             (match mergeScan s parentId [0; 1; 2; 3] (Some 0) with
              | Some total =>
                  if match total with
                     | Some total0 => Options.mergeThreshold (options s) <? total0
                     | None => false
                     end
                  then Ret s
                  else do s1 <- mergeChildren s parentId [0; 1; 2; 3];
                       Ret (with_nodePool s1 (NodePool.setLeaf (nodePool s1) parentId true))
              | None => Ret s
              end) = Ret s0 -> handleSide s0 = handleSide s).
  { intros s0 H0. destruct (mergeScan _ _ _ _); [|injection H0 as <-; reflexivity].
    destruct (match o with Some _ => _ | None => _ end); [injection H0 as <-; reflexivity|].
    apply obind_Ret in H0 as (s1 & H1 & H2). injection H2 as <-.
    cbn. apply (keeps_mergeChildren _ _ _ _ H1). }
  destruct parentId as [|p|p]; try (apply Hgo; exact H).
  destruct p; apply Hgo; exact H.
Qed.

Lemma keeps_detachFromNode s handle nodeId : keeps s (detachFromNode s handle nodeId).
Proof.
  unfold detachFromNode. intros s' H.
  destruct (nodeId =? -1); [injection H as <-; reflexivity|].
  apply obind_Ret in H as ([removed s1] & H1 & H2).
  apply keeps_purgeHandleFromNode in H1.
  destruct removed; [|injection H2 as <-; exact H1].
  rewrite (keeps_tryMerge _ _ _ H2). exact H1.
Qed.

Lemma handleSide_ensureRootBounds s bbox : handleSide (ensureRootBounds s bbox) = handleSide s.
Proof.
  unfold ensureRootBounds.
  destruct (NodePool.getBounds _ _); [|reflexivity].
  destruct (_ && _); reflexivity.
Qed.

Lemma keeps_redistributeLoop s nodeId depth handles :
  keeps s (redistributeLoop s nodeId depth handles).
Proof.
  revert s. induction handles as [|handle handles IH]; intros s s' H; simpl in H.
  - injection H as <-. reflexivity.
  - destruct (_ =? -1); [eapply IH, H|].
    destruct (NodePool.getChild _ _ _) as [childId|]; [|discriminate].
    destruct childId as [|p|p]; [| |destruct p];
      first [ eapply IH, H
            | apply obind_Ret in H as (s1 & H1 & H2);
              rewrite (IH _ _ H2), handleSide_attachToNode;
              apply (keeps_detachFromNode _ _ _ _ H1) ].
Qed.

Lemma keeps_redistribute s nodeId depth : keeps s (redistribute s nodeId depth).
Proof. apply keeps_redistributeLoop. Qed.

Lemma keeps_allocateChildren s nodeId childDepth childBounds :
  keeps s (allocateChildren s nodeId childDepth childBounds).
Proof.
  revert s. induction childBounds as [|[i nb] childBounds IH]; intros s s' H; simpl in H.
  - injection H as <-. reflexivity.
  - apply obind_Ret in H as ([childId pool] & H1 & H2).
    rewrite (IH _ _ H2). reflexivity.
Qed.

Lemma keeps_splitNode s nodeId depth : keeps s (splitNode s nodeId depth).
Proof.
  unfold splitNode. intros s' H.
  destruct (NodePool.getBounds _ _); [|discriminate].
  apply obind_Ret in H as (s1 & H1 & H2).
  rewrite (keeps_redistribute _ _ _ _ H2).
  rewrite (keeps_allocateChildren _ _ _ _ _ H1). reflexivity.
Qed.

Lemma keeps_insertHandleLoop fuel s handle bbox nodeId depth :
  keeps2 s (insertHandleLoop fuel s handle bbox nodeId depth).
Proof.
  revert s nodeId depth. induction fuel as [|fuel IH]; intros s nodeId depth n s' H; simpl in H.
  - discriminate.
  - apply obind_Ret in H as (r & H1 & H2).
    assert (Hr : match r with inl s1 | inr s1 => handleSide s1 = handleSide s end).
    { destruct (NodePool.isLeaf _ _).
      - destruct (_ || _).
        + injection H1 as <-. reflexivity.
        + apply obind_Ret in H1 as (s1 & H1 & H1'). injection H1' as <-.
          apply (keeps_splitNode _ _ _ _ H1).
      - injection H1 as <-. reflexivity. }
    destruct r as [s1|s1].
    + injection H2 as <- <-. rewrite handleSide_attachToNode. exact Hr.
    + destruct (_ =? -1).
      { injection H2 as <- <-. rewrite handleSide_attachToNode. exact Hr. }
      destruct (NodePool.getChild _ _ _) as [childId|]; [|discriminate].
      destruct childId as [|p|p]; [| |destruct p];
        first [ injection H2 as <- <-; rewrite handleSide_attachToNode; exact Hr
              | destruct (_ <? _);
                [ injection H2 as <- <-; rewrite handleSide_attachToNode; exact Hr
                | rewrite (IH _ _ _ _ _ H2); exact Hr ] ].
Qed.

Lemma keeps_insertHandle s handle bbox flags : keeps2 s (insertHandle s handle bbox flags).
Proof.
  unfold insertHandle. intros n s' H.
  rewrite (keeps_insertHandleLoop _ _ _ _ _ _ _ _ H). apply handleSide_ensureRootBounds.
Qed.

(** The region query changes the store only by purging stale references. *)
Lemma handleSide_walkRefs remaining s nodeId bounds incl mode out count ref prevRef :
  match walkRefs remaining s nodeId bounds incl mode out count ref prevRef with
  | WalkFull s' _ _ | WalkDone s' _ _ _ => handleSide s' = handleSide s
  end.
Proof.
  revert s out count ref prevRef.
  induction remaining as [|remaining IH]; intros s out count ref prevRef; simpl.
  - destruct (ref =? -1); reflexivity.
  - destruct (ref =? -1); [reflexivity|].
    destruct (_ || _); [reflexivity|].
    destruct (staleHandle _ _ _).
    + destruct (tget (objectRefNext s) ref) as [nextRef|]; [|reflexivity].
      specialize (IH (detachRef s nodeId ref prevRef (default 0 (tget (objectRefHandle s) ref)))
                     out count nextRef prevRef).
      destruct (walkRefs _ _ _ _ _ _ _ _ _ _); rewrite IH; apply handleSide_detachRef.
    + destruct (_ && (_ <=? _)); [reflexivity|].
      destruct (tget (objectRefNext s) ref) as [nextRef|]; [|reflexivity].
      apply IH.
Qed.

Lemma handleSide_visitNodes visits s bounds incl mode out count stack :
  handleSide (snd (visitNodes visits s bounds incl mode out count stack)) = handleSide s.
Proof.
  revert s out count stack.
  induction visits as [|visits IH]; intros s out count stack.
  - destruct stack; reflexivity.
  - destruct stack as [|top stack]; [reflexivity|]. simpl.
    destruct top as [nodeId|]; [|apply IH].
    destruct (negb _); [apply IH|].
    destruct (NodePool.getFirstObject _ _) as [firstRef|],
             (NodePool.getObjectCount _ _) as [expected|]; try apply IH; try reflexivity.
    pose proof (handleSide_walkRefs (Z.to_nat (expected * 2 + 10)) s nodeId bounds incl mode
                  out count firstRef (-1)) as Hw.
    destruct (walkRefs _ _ _ _ _ _ _ _ _ _) as [s1 out1 count1|s1 out1 count1 [|k]];
      try exact Hw.
    rewrite IH. exact Hw.
Qed.

Lemma handleSide_findInBounds s bounds out o :
  handleSide (snd (findInBounds s bounds out o)) = handleSide s.
Proof. apply handleSide_visitNodes. Qed.

(** What a query leaves alone of the quadtree: the pool's capacity, bounds,
    parents, children, depths, flags, free list and high-water mark, and the
    size and the high-water mark of the reference arena. *)
Definition treeShape (s : t) :=
  (NodePool.capacity (nodePool s), NodePool.bounds (nodePool s), NodePool.parent (nodePool s),
   NodePool.children (nodePool s), NodePool.depth (nodePool s), NodePool.flags (nodePool s),
   NodePool.freeList (nodePool s), NodePool.nodeCount (nodePool s),
   objectRefCapacity s, objectRefUsed s).

Lemma treeShape_detachRef s nodeId refIndex prevRef handle :
  treeShape (detachRef s nodeId refIndex prevRef handle) = treeShape s.
Proof.
  unfold detachRef, treeShape, NodePool.decrementObjectCount, NodePool.setFirstObject.
  destruct (prevRef =? -1); cbn;
    repeat match goal with
           | |- context [if ?b then _ else _] => destruct b
           | |- context [match tget ?a ?i with Some _ => _ | None => _ end] => destruct (tget a i)
           end;
    cbn; reflexivity.
Qed.

Lemma treeShape_walkRefs remaining s nodeId bounds incl mode out count ref prevRef :
  match walkRefs remaining s nodeId bounds incl mode out count ref prevRef with
  | WalkFull s' _ _ | WalkDone s' _ _ _ => treeShape s' = treeShape s
  end.
Proof.
  revert s out count ref prevRef.
  induction remaining as [|remaining IH]; intros s out count ref prevRef; simpl.
  - destruct (ref =? -1); reflexivity.
  - destruct (ref =? -1); [reflexivity|].
    destruct (_ || _); [reflexivity|].
    destruct (staleHandle _ _ _).
    + destruct (tget (objectRefNext s) ref) as [nextRef|]; [|reflexivity].
      specialize (IH (detachRef s nodeId ref prevRef (default 0 (tget (objectRefHandle s) ref)))
                     out count nextRef prevRef).
      destruct (walkRefs _ _ _ _ _ _ _ _ _ _); rewrite IH; apply treeShape_detachRef.
    + destruct (_ && (_ <=? _)); [reflexivity|].
      destruct (tget (objectRefNext s) ref) as [nextRef|]; [|reflexivity].
      apply IH.
Qed.

Lemma treeShape_visitNodes visits s bounds incl mode out count stack :
  treeShape (snd (visitNodes visits s bounds incl mode out count stack)) = treeShape s.
Proof.
  revert s out count stack.
  induction visits as [|visits IH]; intros s out count stack.
  - destruct stack; reflexivity.
  - destruct stack as [|top stack]; [reflexivity|]. simpl.
    destruct top as [nodeId|]; [|apply IH].
    destruct (negb _); [apply IH|].
    destruct (NodePool.getFirstObject _ _) as [firstRef|],
             (NodePool.getObjectCount _ _) as [expected|]; try apply IH; try reflexivity.
    pose proof (treeShape_walkRefs (Z.to_nat (expected * 2 + 10)) s nodeId bounds incl mode
                  out count firstRef (-1)) as Hw.
    destruct (walkRefs _ _ _ _ _ _ _ _ _ _) as [s1 out1 count1|s1 out1 count1 [|k]];
      try exact Hw.
    rewrite IH. exact Hw.
Qed.

Lemma treeShape_findInBounds s bounds out o :
  treeShape (snd (findInBounds s bounds out o)) = treeShape s.
Proof. apply treeShape_visitNodes. Qed.
End HandleSide.

Section HandleInvariant.
Import ObjectStore.

(** The handle table as the index keeps it: every array indexed by a handle
    has the current capacity, every indexed identifier owns one handle below
    the high-water mark [usedHandles + handleFreeList.length], the handle
    table maps exactly those handles back, and the free handles are distinct
    and unowned. *)
Record handles_wf (s : t) : Prop := mk_handles_wf
  { wf_cap_pos : 0 < objectCapacity s;
    wf_len_ids : tlen (handleToId s) = objectCapacity s;
    wf_len_bounds : tlen (objectBounds s) = objectCapacity s * 4;
    wf_len_flags : tlen (objectFlags s) = objectCapacity s;
    wf_len_node : tlen (objectNode s) = objectCapacity s;
    wf_len_refIndex : tlen (objectRefIndex s) = objectCapacity s;
    wf_len_update : tlen (objectUpdateCounter s) = objectCapacity s;
    wf_len_window : tlen (objectWindowCounter s) = objectCapacity s;
    wf_used : usedHandles s = Z.of_nat (size (objectIndex s));
    wf_bound : usedHandles s + tlen (handleFreeList s) <= objectCapacity s;
    wf_index : forall id r, objectIndex s !! id = Some r ->
                 0 <= rec_handle r < usedHandles s + tlen (handleFreeList s) /\
                 tget (handleToId s) (rec_handle r) = Some (Some id);
    wf_ids : forall h id, tget (handleToId s) h = Some (Some id) ->
               exists r, objectIndex s !! id = Some r /\ rec_handle r = h;
    wf_free : forall h, h ∈ handleFreeList s ->
                0 <= h < usedHandles s + tlen (handleFreeList s) /\
                tget (handleToId s) h = Some None;
    wf_free_nodup : NoDup (handleFreeList s) }.

Lemma handles_wf_ext s s' : handleSide s' = handleSide s -> handles_wf s -> handles_wf s'.
Proof.
  unfold handleSide. intros H [].
  injection H as E1 E2 E3 E4 E5 E6 E7 E8 E9 E10 E11 E12 E13 E14 E15 E16 E17.
  constructor;
    rewrite ?E1, ?E2, ?E3, ?E4, ?E5, ?E6, ?E7, ?E8, ?E9, ?E10, ?E11, ?E12, ?E13, ?E14, ?E15,
            ?E16, ?E17; assumption.
Qed.

Lemma handleSide_with_objectIndex s s' idx :
  handleSide s' = handleSide s ->
  handleSide (with_objectIndex s' idx) = handleSide (with_objectIndex s idx).
Proof.
  unfold handleSide. cbn. intros H.
  injection H as E1 E2 E3 E4 E5 E6 E7 E8 E9 E10 E11 E12 E13 E14 E15 E16 E17.
  rewrite E1, E3, E4, E5, E6, E7, E8, E9, E10, E11, E12, E13, E14, E15, E16, E17. reflexivity.
Qed.

Lemma jsset_in_range {A} (d : A) a i v : 0 <= i < tlen a -> jsset d a i v = tset a i v.
Proof.
  intros [H1 H2]. unfold jsset.
  rewrite bool_decide_eq_false_2 by lia. rewrite bool_decide_eq_true_2 by lia. reflexivity.
Qed.

(** The loop of [resizeHandles] that writes [null] into the new cells. *)
Lemma extend_handleToId (a : list (option string)) (n : nat) :
  foldl (fun a i => jsset None a i None) a (seqZ (tlen a) (Z.of_nat n)) = a ++ replicate n None.
Proof.
  revert a. induction n as [|n IH]; intros a.
  - simpl. rewrite app_nil_r. reflexivity.
  - rewrite Nat2Z.inj_succ, seqZ_cons by lia. simpl.
    replace (Z.pred (Z.succ (Z.of_nat n))) with (Z.of_nat n) by lia.
    assert (Hj : jsset None a (tlen a) None = a ++ [None]).
    { unfold jsset. pose proof (tlen_nonneg a).
      rewrite !bool_decide_eq_false_2 by lia.
      unfold tlen. rewrite Nat2Z.id, Nat.sub_diag. reflexivity. }
    rewrite Hj.
    replace (Z.succ (tlen a)) with (tlen (a ++ [None]))
      by (unfold tlen; rewrite length_app; simpl; lia).
    rewrite IH, <- app_assoc. reflexivity.
Qed.

Lemma resized_handleToId (a : list (option string)) cap :
  tlen a = cap ->
  let a' := foldl (fun a i => jsset None a i None) a (seqZ cap (cap * 2 - cap)) in
  tlen a' = cap * 2 /\
  (forall i, i < cap -> tget a' i = tget a i) /\
  (forall i, cap <= i < cap * 2 -> tget a' i = Some None).
Proof.
  intros Hlen. pose proof (tlen_nonneg a) as Hnn. simpl.
  replace (cap * 2 - cap) with (Z.of_nat (length a)) by (unfold tlen in *; lia).
  rewrite <- Hlen, extend_handleToId.
  split; [|split].
  - unfold tlen. rewrite length_app, length_replicate. lia.
  - intros i Hi. unfold tget. case_bool_decide; [|reflexivity].
    apply lookup_app_l. unfold tlen in Hi. lia.
  - intros i Hi. unfold tget, tlen in *. rewrite bool_decide_eq_true_2 by lia.
    rewrite lookup_app_r by lia. apply lookup_replicate_2. lia.
Qed.

(** [obtainHandle] for an identifier that is not indexed: the handle it
    returns is inside the (possibly doubled) arena, and the store is ready
    for the record [insert] files under the identifier. *)
Lemma obtainHandle_new s id h s1 nodeId flags :
  handles_wf s ->
  objectIndex s !! id = None ->
  obtainHandle s id = (h, s1) ->
  handles_wf (with_objectIndex s1 (<[id := mkObjectRecord id h nodeId flags 0 0]> (objectIndex s1))) /\
  0 <= h < objectCapacity s1 /\
  tget (handleToId s1) h = Some (Some id) /\
  objectIndex s1 = objectIndex s /\
  objectStore s1 = objectStore s /\
  externalGetter s1 = externalGetter s /\
  (forall i, i <> h -> i < objectCapacity s -> tget (handleToId s1) i = tget (handleToId s) i).
Proof.
  intros Hwf Hnone. unfold obtainHandle. rewrite Hnone.
  destruct Hwf as [Hcap Lids Lb Lf Ln Lr Lu Lw Hused Hbound Hindex Hids Hfree Hnd].
  destruct (handleFreeList s) as [|h0 rest] eqn:Hfl.
  - (* no free handle *)
    assert (Hfresh : forall id' r, objectIndex s !! id' = Some r -> rec_handle r < usedHandles s).
    { intros id' r Hr. destruct (Hindex _ _ Hr) as [Hr1 _]. unfold tlen in Hr1. simpl in Hr1. lia. }
    unfold tlen in Hbound. simpl in Hbound.
    destruct (objectCapacity s <=? usedHandles s) eqn:Hfull.
    + (* arena exhausted: doubled *)
      apply Z.leb_le in Hfull. unfold expandHandles.
      rewrite bool_decide_eq_true_2 by (symmetry; exact Lids).
      unfold resizeHandles. cbn.
      destruct (resized_handleToId (handleToId s) (objectCapacity s) Lids) as (R1 & R2 & R3).
      cbn in R1, R2, R3.
      set (ids' := foldl _ _ _) in *.
      intros [= <- <-]. cbn. rewrite ?Hfl. cbn.
      assert (Hh : 0 <= usedHandles s < tlen ids') by lia.
      rewrite (jsset_in_range _ _ _ _ Hh).
      split; [|split; [unfold tlen in *; lia|split; [apply tget_tset_eq; lia|repeat split; try reflexivity]]].
      * constructor; cbn; rewrite ?tlen_tset, ?tlen_tgrow, ?Hfl; unfold tlen, BBOX_COMPONENTS in *; cbn; try lia.
        -- rewrite map_size_insert_None by exact Hnone. lia.
        -- intros id' r. rewrite lookup_insert. case_decide as Hc.
           ++ subst id'. intros [= <-]. cbn. split; [lia|]. apply tget_tset_eq; unfold tlen; lia.
           ++ intros Hr. specialize (Hfresh _ _ Hr). destruct (Hindex _ _ Hr) as [Hr1 Hr2].
              split; [lia|]. rewrite tget_tset_ne by lia. rewrite R2 by lia. exact Hr2.
        -- intros h' id'. rewrite tget_tset. case_bool_decide as Hc.
           ++ intros [= <-]. exists (mkObjectRecord id (usedHandles s) nodeId flags 0 0).
              rewrite lookup_insert_eq. destruct Hc. auto.
           ++ intros Hid. assert (Hlt : h' < objectCapacity s).
              { destruct (Z.lt_ge_cases h' (objectCapacity s)) as [|Hge]; [assumption|].
                apply tget_Some_range in Hid as Hrg. unfold tlen in Hrg. rewrite R3 in Hid by lia. discriminate. }
              rewrite R2 in Hid by lia. destruct (Hids _ _ Hid) as (r & Hr & Hrh).
              exists r. split; [|exact Hrh]. rewrite lookup_insert_ne; [exact Hr|].
              intros <-. congruence.
        -- intros h' Hin. inversion Hin.
        -- constructor.
      * intros i Hi Hlt. rewrite tget_tset_ne by lia. apply R2. exact Hlt.
    + (* a fresh handle below the capacity *)
      apply Z.leb_gt in Hfull.
      intros [= <- <-]. cbn. rewrite ?Hfl. cbn.
      assert (Hh : 0 <= usedHandles s < tlen (handleToId s)) by lia.
      rewrite (jsset_in_range _ _ _ _ Hh).
      split; [|split; [unfold tlen in *; lia|split; [apply tget_tset_eq; lia|repeat split; try reflexivity]]].
      * constructor; cbn; rewrite ?tlen_tset, ?Hfl; unfold tlen, BBOX_COMPONENTS in *; cbn; try lia.
        -- rewrite map_size_insert_None by exact Hnone. lia.
        -- intros id' r. rewrite lookup_insert. case_decide as Hc.
           ++ subst id'. intros [= <-]. cbn. split; [lia|]. apply tget_tset_eq; unfold tlen; lia.
           ++ intros Hr. specialize (Hfresh _ _ Hr). destruct (Hindex _ _ Hr) as [Hr1 Hr2].
              split; [lia|]. rewrite tget_tset_ne by lia. exact Hr2.
        -- intros h' id'. rewrite tget_tset. case_bool_decide as Hc.
           ++ intros [= <-]. exists (mkObjectRecord id (usedHandles s) nodeId flags 0 0).
              rewrite lookup_insert_eq. destruct Hc. auto.
           ++ intros Hid. destruct (Hids _ _ Hid) as (r & Hr & Hrh).
              exists r. split; [|exact Hrh]. rewrite lookup_insert_ne; [exact Hr|].
              intros <-. congruence.
        -- intros h' Hin. inversion Hin.
        -- constructor.
      * intros i Hi Hlt. apply tget_tset_ne. lia.
  - (* a recycled handle *)
    intros [= <- <-]. cbn.
    assert (Hh0 : 0 <= h0 < usedHandles s + tlen (h0 :: rest) /\ tget (handleToId s) h0 = Some None).
    { apply Hfree. left. }
    destruct Hh0 as [Hh0 Hnull].
    apply NoDup_cons in Hnd as [Hnotin Hnd].
    unfold tlen in Hbound, Hh0. simpl in Hbound, Hh0.
    assert (Hh : 0 <= h0 < tlen (handleToId s)) by lia.
    rewrite (jsset_in_range _ _ _ _ Hh).
    split; [|split; [unfold tlen in *; lia|split; [apply tget_tset_eq; lia|repeat split; try reflexivity]]].
    * constructor; cbn; rewrite ?tlen_tset; unfold tlen, BBOX_COMPONENTS in *; cbn; try lia.
      -- rewrite map_size_insert_None by exact Hnone. lia.
      -- intros id' r. rewrite lookup_insert. case_decide as Hc.
         ++ subst id'. intros [= <-]. cbn. split; [lia|]. apply tget_tset_eq; unfold tlen; lia.
         ++ intros Hr. destruct (Hindex _ _ Hr) as [Hr1 Hr2]. simpl in Hr1.
            split; [lia|]. rewrite tget_tset_ne; [exact Hr2|]. intros E. rewrite <- E in Hr2. congruence.
      -- intros h' id'. rewrite tget_tset. case_bool_decide as Hc.
         ++ intros [= <-]. exists (mkObjectRecord id h0 nodeId flags 0 0).
            rewrite lookup_insert_eq. destruct Hc. auto.
         ++ intros Hid. destruct (Hids _ _ Hid) as (r & Hr & Hrh).
            exists r. split; [|exact Hrh]. rewrite lookup_insert_ne; [exact Hr|].
            intros <-. congruence.
      -- intros h' Hin. destruct (Hfree h') as [Hf1 Hf2]; [by right|]. simpl in Hf1.
         split; [lia|]. rewrite tget_tset_ne; [exact Hf2|]. intros <-. contradiction.
      -- exact Hnd.
    * intros i Hi Hlt. apply tget_tset_ne. lia.
Qed.


(** What [handles_wf] reads of a store. *)
Definition handleShape (s : t) :=
  (objectCapacity s, handleToId s, tlen (objectBounds s), tlen (objectFlags s),
   tlen (objectNode s), tlen (objectRefIndex s), tlen (objectUpdateCounter s),
   tlen (objectWindowCounter s), usedHandles s, objectIndex s, handleFreeList s).

Lemma handles_wf_shape s s' : handleShape s' = handleShape s -> handles_wf s -> handles_wf s'.
Proof.
  unfold handleShape. intros H [].
  injection H as E1 E2 E3 E4 E5 E6 E7 E8 E9 E10 E11.
  constructor;
    rewrite ?E1, ?E2, ?E3, ?E4, ?E5, ?E6, ?E7, ?E8, ?E9, ?E10, ?E11; assumption.
Qed.

Lemma handleSide_fields s s' :
  handleSide s' = handleSide s ->
  options s' = options s /\ objectIndex s' = objectIndex s /\ handleToId s' = handleToId s /\
  objectStore s' = objectStore s /\ objectBounds s' = objectBounds s /\
  objectFlags s' = objectFlags s /\ objectUpdateCounter s' = objectUpdateCounter s /\
  objectWindowCounter s' = objectWindowCounter s /\ dynamicHandles s' = dynamicHandles s /\
  objectCapacity s' = objectCapacity s /\ handleFreeList s' = handleFreeList s /\
  dynamicHandleCount s' = dynamicHandleCount s /\ usedHandles s' = usedHandles s /\
  rootNodeId s' = rootNodeId s /\ externalGetter s' = externalGetter s /\
  tlen (objectNode s') = tlen (objectNode s) /\ tlen (objectRefIndex s') = tlen (objectRefIndex s).
Proof. unfold handleSide. intros [= -> -> -> -> -> -> -> -> -> -> -> -> -> -> -> -> ->]. repeat split. Qed.

Lemma handleSide_shape s s' : handleSide s' = handleSide s -> handleShape s' = handleShape s.
Proof.
  intros H. apply handleSide_fields in H.
  destruct H as (_ & E2 & E3 & _ & E5 & E6 & E7 & E8 & _ & E10 & E11 & _ & E13 & _ & _ & E16 & E17).
  unfold handleShape. rewrite E2, E3, E5, E6, E7, E8, E10, E11, E13, E16, E17. reflexivity.
Qed.

Lemma readBoundingBox_write s handle bbox :
  0 <= handle -> handle * 4 + 3 < tlen (objectBounds s) ->
  readBoundingBox (writeBoundingBox s handle bbox) handle = Some (float32Box bbox).
Proof.
  intros H0 H1. unfold readBoundingBox, writeBoundingBox, BBOX_COMPONENTS. cbn.
  rewrite (tget_tset_ne _ (handle * 4 + 3) (handle * 4)) by lia.
  rewrite (tget_tset_ne _ (handle * 4 + 2) (handle * 4)) by lia.
  rewrite (tget_tset_ne _ (handle * 4 + 1) (handle * 4)) by lia.
  rewrite (tget_tset_eq _ (handle * 4)) by lia.
  rewrite (tget_tset_ne _ (handle * 4 + 3) (handle * 4 + 1)) by lia.
  rewrite (tget_tset_ne _ (handle * 4 + 2) (handle * 4 + 1)) by lia.
  rewrite (tget_tset_eq _ (handle * 4 + 1)) by (rewrite !tlen_tset; lia).
  rewrite (tget_tset_ne _ (handle * 4 + 3) (handle * 4 + 2)) by lia.
  rewrite (tget_tset_eq _ (handle * 4 + 2)) by (rewrite !tlen_tset; lia).
  rewrite (tget_tset_eq _ (handle * 4 + 3)) by (rewrite !tlen_tset; lia).
  reflexivity.
Qed.

(** [insert] keeps the handle table well formed, files the record under the
    identifier, and leaves the handle holding the identifier and the box as
    float32 cells hold it. *)
Lemma insert_spec s id bbox flags r s2 :
  handles_wf s ->
  insert s id bbox flags = Ret (r, s2) ->
  handles_wf s2 /\
  objectIndex s2 = <[id := mkObjectRecord id (ir_handle r) (ir_nodeId r) flags 0 0]> (objectIndex s) /\
  0 <= ir_handle r < objectCapacity s2 /\
  tget (handleToId s2) (ir_handle r) = Some (Some id) /\
  readBoundingBox s2 (ir_handle r) = Some (float32Box bbox) /\
  objectStore s2 = objectStore s /\
  externalGetter s2 = externalGetter s /\
  (forall i, i <> ir_handle r -> i < objectCapacity s ->
             tget (handleToId s2) i = tget (handleToId s) i) /\
  ir_handle r = fst (obtainHandle s id).
Proof.
  intros Hwf H. unfold insert in H.
  destruct (obtainHandle s id) as [h s1] eqn:Hob.
  apply obind_Ret in H as (sc & Hpurge & H).
  apply obind_Ret in H as ([nodeId sd] & Hins & H).
  injection H as <- <-. cbn.
  set (sa := writeBoundingBox s1 h bbox) in *.
  set (sb := ensureRootBounds sa bbox) in *.
  assert (Hsc : handleSide sc = handleSide sb).
  { destruct (tget (objectNode sb) h) as [n|]; [|discriminate].
    destruct n as [|p|p]; [| |destruct p];
      first [ injection Hpurge as <-; reflexivity
            | apply obind_Ret in Hpurge as ([b s'] & Hp & Hq); injection Hq as <-;
              apply (keeps_purgeHandleFromNode _ _ _ _ _ Hp) ]. }
  pose proof (keeps_insertHandle _ _ _ _ _ _ Hins) as Hsd.
  assert (Hsb : handleSide sb = handleSide sa) by apply handleSide_ensureRootBounds.
  assert (Hall : handleSide sd = handleSide sa) by congruence.
  apply handleSide_fields in Hall.
  destruct Hall as (E1 & E2 & E3 & E4 & E5 & E6 & E7 & E8 & E9 & E10 & E11 & E12 & E13 & E14 & E15 & E16 & E17).
  cbn in E2, E3, E4, E5, E6, E7, E8, E10, E11, E13, E15, E16, E17.
  assert (Hpost :
    handles_wf (with_objectIndex s1 (<[id := mkObjectRecord id h nodeId flags 0 0]> (objectIndex s1))) /\
    0 <= h < objectCapacity s1 /\ tget (handleToId s1) h = Some (Some id) /\
    <[id := mkObjectRecord id h nodeId flags 0 0]> (objectIndex s1)
      = <[id := mkObjectRecord id h nodeId flags 0 0]> (objectIndex s) /\
    objectStore s1 = objectStore s /\ externalGetter s1 = externalGetter s /\
    (forall i, i <> h -> i < objectCapacity s -> tget (handleToId s1) i = tget (handleToId s) i)).
  { destruct (objectIndex s !! id) as [rec|] eqn:Hrec.
    - unfold obtainHandle in Hob. rewrite Hrec in Hob. injection Hob as <- <-.
      destruct Hwf as [Hcap Lids Lb Lf Ln Lr Lu Lw Hused Hbound Hindex Hids Hfree Hnd].
      destruct (Hindex _ _ Hrec) as [Hr1 Hr2].
      split; [|repeat split; auto; lia].
      constructor; cbn; try assumption.
      + rewrite map_size_insert_Some by eauto. exact Hused.
      + intros id' r. rewrite lookup_insert. case_decide as Hc.
        * subst id'. intros [= <-]. cbn. auto.
        * apply Hindex.
      + intros h' id' Hid. destruct (Hids _ _ Hid) as (r & Hr & Hrh).
        destruct (decide (id = id')) as [<-|Hne].
        * eexists. rewrite lookup_insert_eq. split; [reflexivity|]. cbn. congruence.
        * exists r. rewrite lookup_insert_ne by exact Hne. auto.
    - destruct (obtainHandle_new s id h s1 nodeId flags Hwf Hrec Hob)
        as (H1 & H2 & H3 & H4 & H5 & H6 & H7).
      split; [exact H1|]. rewrite H4. repeat split; auto; lia. }
  destruct Hpost as (P1 & P2 & P3 & P4 & P5 & P6 & P7).
  assert (Hlenb : tlen (objectBounds sa) = tlen (objectBounds s1)).
  { unfold sa, writeBoundingBox. cbn. rewrite !tlen_tset. reflexivity. }
  split; [|split; [|split; [|split; [|split; [|split; [|split; [|split; [|reflexivity]]]]]]]].
  - eapply handles_wf_shape; [|exact P1].
    unfold handleShape. cbn. rewrite !tlen_tset.
    rewrite E2, E3, E5, E6, E7, E8, E10, E11, E13, E16, E17, !tlen_tset. reflexivity.
  - rewrite E2, <- P4. reflexivity.
  - rewrite E10. exact P2.
  - rewrite E3. exact P3.
  - unfold readBoundingBox. cbn. rewrite E5.
    destruct P1 as [_ _ Lb _ _ _ _ _ _ _ _ _ _ _]. cbn in Lb.
    apply (readBoundingBox_write s1 h bbox); [lia|]. rewrite Lb. unfold BBOX_COMPONENTS. lia.
  - rewrite E4. exact P5.
  - rewrite E15. exact P6.
  - rewrite E3. exact P7.
Qed.

(** [remove] forgets the identifier: no record, no handle mapped to it; the
    object map and the external getter are not touched. *)
Lemma remove_spec s id s2 :
  handles_wf s ->
  remove s id = Ret s2 ->
  handles_wf s2 /\
  objectIndex s2 = delete id (objectIndex s) /\
  (forall h, tget (handleToId s2) h <> Some (Some id)) /\
  objectStore s2 = objectStore s /\
  externalGetter s2 = externalGetter s /\
  objectCapacity s2 = objectCapacity s /\
  (forall r, objectIndex s !! id = Some r ->
     handleFreeList s2 = rec_handle r :: handleFreeList s /\
     handleToId s2 = tset (handleToId s) (rec_handle r) None).
Proof.
  intros Hwf H. unfold remove in H.
  destruct (objectIndex s !! id) as [rec|] eqn:Hrec.
  - apply obind_Ret in H as (s1 & Hd & H). injection H as <-.
    pose proof (keeps_detachFromNode _ _ _ _ Hd) as Hs1.
    apply handleSide_fields in Hs1.
    destruct Hs1 as (E1 & E2 & E3 & E4 & E5 & E6 & E7 & E8 & E9 & E10 & E11 & E12 & E13 & E14 & E15 & E16 & E17).
    destruct Hwf as [Hcap Lids Lb Lf Ln Lr Lu Lw Hused Hbound Hindex Hids Hfree Hnd].
    destruct (Hindex _ _ Hrec) as [Hr1 Hr2].
    assert (Hh : 0 <= rec_handle rec < tlen (handleToId s1))
      by (rewrite E3, Lids; pose proof (tlen_nonneg (handleFreeList s)); lia).
    assert (Hinj : forall id' r', objectIndex s !! id' = Some r' ->
                     rec_handle r' = rec_handle rec -> id' = id).
    { intros id' r' Hr' Heq. destruct (Hindex _ _ Hr') as [_ Hr2']. congruence. }
    assert (Hout :
      forall s', handleShape s' =
           (objectCapacity s, tset (handleToId s) (rec_handle rec) None, tlen (objectBounds s),
            tlen (objectFlags s), tlen (objectNode s), tlen (objectRefIndex s),
            tlen (objectUpdateCounter s), tlen (objectWindowCounter s), usedHandles s - 1,
            delete id (objectIndex s), rec_handle rec :: handleFreeList s) ->
           handles_wf s').
    { intros s' Hs'. unfold handleShape in Hs'.
      injection Hs' as F1 F2 F3 F4 F5 F6 F7 F8 F9 F10 F11.
      constructor; rewrite ?F1, ?F2, ?F3, ?F4, ?F5, ?F6, ?F7, ?F8, ?F9, ?F10, ?F11, ?tlen_tset;
        try assumption.
      - rewrite map_size_delete_Some by eauto. rewrite Hused.
        assert (size (objectIndex s) <> 0%nat).
        { intros Hz. apply map_size_empty_inv in Hz. rewrite Hz in Hrec. discriminate. }
        lia.
      - unfold tlen in *. simpl. lia.
      - intros id' r'. rewrite lookup_delete. case_decide as Hc; [discriminate|].
        intros Hr'. destruct (Hindex _ _ Hr') as [Hi1 Hi2].
        split; [unfold tlen in *; simpl; lia|].
        rewrite tget_tset_ne; [exact Hi2|]. intros E. apply Hc. symmetry. eapply Hinj; eauto.
      - intros h' id'. rewrite tget_tset. case_bool_decide as Hc; [discriminate|].
        intros Hid. destruct (Hids _ _ Hid) as (r' & Hr' & Hrh).
        exists r'. split; [|exact Hrh]. rewrite lookup_delete_ne; [exact Hr'|].
        intros <-. apply Hc. split; [congruence|]. rewrite <- E3. exact Hh.
      - intros h' Hin. apply elem_of_cons in Hin as [->|Hin].
        + split; [unfold tlen in *; simpl; lia|]. apply tget_tset_eq. rewrite <- E3. exact Hh.
        + destruct (Hfree _ Hin) as [Hf1 Hf2].
          split; [unfold tlen in *; simpl; lia|].
          rewrite tget_tset_ne; [exact Hf2|]. intros E. rewrite <- E in Hf2. congruence.
      - apply NoDup_cons. split; [|exact Hnd].
        intros Hin. destruct (Hfree _ Hin) as [_ Hf2]. congruence. }
    assert (Hjs : jsset None (handleToId s1) (rec_handle rec) None
                  = tset (handleToId s) (rec_handle rec) None).
    { rewrite (jsset_in_range _ _ _ _ Hh), E3. reflexivity. }
    destruct (tget (objectFlags s1) (rec_handle rec)) as [f|] eqn:Hf; cbn; rewrite Hjs.
    + split; [|split; [|split; [|split; [|split; [|split]]]]].
      * apply Hout. unfold handleShape. cbn. rewrite !tlen_tset.
        rewrite E2, E5, E6, E7, E8, E10, E11, E13, E16, E17. reflexivity.
      * rewrite E2. reflexivity.
      * intros h' Hh'. rewrite tget_tset in Hh'. case_bool_decide as Hc; [discriminate|].
        destruct (Hids _ _ Hh') as (r' & Hr' & Hrh). apply Hc.
        split; [congruence|]. rewrite <- E3. exact Hh.
      * exact E4.
      * exact E15.
      * exact E10.
      * intros r [= <-]. rewrite E11. auto.
    + split; [|split; [|split; [|split; [|split; [|split]]]]].
      * apply Hout. unfold handleShape. cbn. rewrite !tlen_tset.
        rewrite E2, E5, E6, E7, E8, E10, E11, E13, E16, E17. reflexivity.
      * rewrite E2. reflexivity.
      * intros h' Hh'. rewrite tget_tset in Hh'. case_bool_decide as Hc; [discriminate|].
        destruct (Hids _ _ Hh') as (r' & Hr' & Hrh). apply Hc.
        split; [congruence|]. rewrite <- E3. exact Hh.
      * exact E4.
      * exact E15.
      * exact E10.
      * intros r [= <-]. rewrite E11. auto.
  - injection H as <-.
    split; [exact Hwf|]. split; [by rewrite delete_id|].
    split; [|repeat split; auto; discriminate].
    intros h Hh. destruct (wf_ids _ Hwf _ _ Hh) as (r & Hr & _). congruence.
Qed.

Lemma handleShape_bumpDynamicCounters s handle :
  handleShape (bumpDynamicCounters s handle) = handleShape s.
Proof.
  unfold bumpDynamicCounters, handleShape.
  repeat match goal with
         | |- context [match ?o with Some _ => _ | None => _ end] => destruct o
         | |- context [if ?b then _ else _] => destruct b
         end; cbn; rewrite ?tlen_tset; reflexivity.
Qed.

(** [updateBoundingBox] keeps the handle of the record and the handle table. *)
Lemma updateBoundingBox_spec s id bbox r s2 :
  handles_wf s ->
  updateBoundingBox s id bbox = Ret (r, s2) ->
  handles_wf s2 /\
  handleToId s2 = handleToId s /\
  objectStore s2 = objectStore s /\
  externalGetter s2 = externalGetter s /\
  objectCapacity s2 = objectCapacity s /\
  (forall id', rec_handle <$> objectIndex s2 !! id' = rec_handle <$> objectIndex s !! id').
Proof.
  intros Hwf H. unfold updateBoundingBox in H.
  destruct (objectIndex s !! id) as [rec|] eqn:Hrec.
  2:{ injection H as <- <-. split; [exact Hwf|]. repeat split; auto. }
  apply obind_Ret in H as ([[newNode status] s1] & Hmove & H). injection H as <- <-.
  set (rec1 := mkObjectRecord (rec_id rec) (rec_handle rec) (rec_nodeId rec) _ _ _) in *.
  set (sa := with_objectIndex (writeBoundingBox s (rec_handle rec) bbox) _) in *.
  assert (Hsa : handles_wf sa /\
                forall id', rec_handle <$> objectIndex sa !! id' = rec_handle <$> objectIndex s !! id').
  { split.
    - destruct Hwf as [Hcap Lids Lb Lf Ln Lr Lu Lw Hused Hbound Hindex Hids Hfree Hnd].
      destruct (Hindex _ _ Hrec) as [Hr1 Hr2].
      constructor; cbn; rewrite ?tlen_tset; try assumption.
      + rewrite map_size_insert_Some by eauto. exact Hused.
      + intros id' r'. rewrite lookup_insert. case_decide as Hc.
        * subst id'. intros [= <-]. cbn. auto.
        * apply Hindex.
      + intros h' id' Hid. destruct (Hids _ _ Hid) as (r' & Hr' & Hrh).
        destruct (decide (id = id')) as [<-|Hne].
        * eexists. rewrite lookup_insert_eq. split; [reflexivity|]. cbn. congruence.
        * exists r'. rewrite lookup_insert_ne by exact Hne. auto.
    - intros id'. cbn. rewrite lookup_insert. case_decide as Hc; [|reflexivity].
      subst id'. rewrite Hrec. reflexivity. }
  destruct Hsa as [Hwfa Hsame].
  assert (Hs1 : handles_wf s1 /\ handleToId s1 = handleToId s /\ objectStore s1 = objectStore s /\
                externalGetter s1 = externalGetter s /\ objectCapacity s1 = objectCapacity s /\
                forall id', rec_handle <$> objectIndex s1 !! id' = rec_handle <$> objectIndex s !! id').
  { destruct (negb (fitsNode sa (rec_nodeId rec) bbox)).
    - apply obind_Ret in Hmove as (sb & Hdet & Hmove).
      apply obind_Ret in Hmove as ([n sc] & Hins & Hmove). injection Hmove as <- <- <-.
      pose proof (keeps_detachFromNode _ _ _ _ Hdet) as Hsb.
      pose proof (keeps_insertHandle _ _ _ _ _ _ Hins) as Hsc.
      assert (Hall : handleSide sc = handleSide sa) by congruence.
      apply handleSide_fields in Hall.
      destruct Hall as (E1 & E2 & E3 & E4 & E5 & E6 & E7 & E8 & E9 & E10 & E11 & E12 & E13 & E14 & E15 & E16 & E17).
      cbn. split; [|split; [exact E3|split; [exact E4|split; [exact E15|split; [exact E10|]]]]].
      + destruct Hwfa as [Hcap Lids Lb Lf Ln Lr Lu Lw Hused Hbound Hindex Hids Hfree Hnd].
        assert (Hreca : objectIndex sa !! id = Some rec1)
          by (unfold sa; cbn; apply lookup_insert_eq).
        destruct (Hindex _ _ Hreca) as [Hr1 Hr2].
        constructor; cbn; rewrite ?tlen_tset, ?E2, ?E3, ?E5, ?E6, ?E7, ?E8, ?E10, ?E11, ?E13, ?E16, ?E17;
          try assumption.
        * rewrite map_size_insert_Some by eauto. exact Hused.
        * intros id' r'. rewrite lookup_insert. case_decide as Hc.
          -- subst id'. intros [= <-]. cbn. auto.
          -- apply Hindex.
        * intros h' id' Hid. destruct (Hids _ _ Hid) as (r' & Hr' & Hrh).
          destruct (decide (id = id')) as [<-|Hne].
          -- eexists. rewrite lookup_insert_eq. split; [reflexivity|]. cbn.
             rewrite Hreca in Hr'. injection Hr' as <-. exact Hrh.
          -- exists r'. rewrite lookup_insert_ne by exact Hne. auto.
      + intros id'. rewrite E2, <- Hsame. rewrite lookup_insert. case_decide as Hc; [|reflexivity].
        subst id'. unfold sa. cbn. rewrite lookup_insert_eq. reflexivity.
    - injection Hmove as <- <- <-. split; [exact Hwfa|]. repeat split; auto. }
  destruct Hs1 as (W & I1 & I2 & I3 & I4 & I5).
  set (sd := match tget (objectFlags s1) (rec_handle rec) with Some _ => _ | None => _ end).
  assert (Hsd : handleShape sd = handleShape s1 /\ objectStore sd = objectStore s1 /\
                externalGetter sd = externalGetter s1).
  { unfold sd. destruct (tget (objectFlags s1) (rec_handle rec)); [|auto].
    unfold handleShape. store_fields.
    rewrite tlen_tset. auto. }
  destruct Hsd as (Hsd & Hsd2 & Hsd3).
  pose proof (handleShape_bumpDynamicCounters sd (rec_handle rec)) as Hb.
  assert (Hshape : handleShape (bumpDynamicCounters sd (rec_handle rec)) = handleShape s1)
    by congruence.
  split; [eapply handles_wf_shape; eauto|].
  unfold handleShape in Hshape. injection Hshape as F1 F2 F3 F4 F5 F6 F7 F8 F9 F10 F11.
  split; [congruence|]. 
  assert (Hbump : objectStore (bumpDynamicCounters sd (rec_handle rec)) = objectStore sd /\
                  externalGetter (bumpDynamicCounters sd (rec_handle rec)) = externalGetter sd).
  { unfold bumpDynamicCounters.
    repeat match goal with
           | |- context [match ?o with Some _ => _ | None => _ end] => destruct o
           | |- context [if ?b then _ else _] => destruct b
           end; cbn; auto. }
  destruct Hbump as [B1 B2].
  split; [congruence|]. split; [congruence|]. split; [congruence|].
  intros id'. rewrite F10. apply I5.
Qed.

(** States of the index: a fresh store with a positive [objectCapacity],
    then any run of calls that returned of [insert], [remove],
    [updateBoundingBox], [add], [update], [findInBounds] and
    [attachExternalStore].  Two kinds of store are left out: the one a call
    that threw leaves behind, and the one [release()] leaves, whose index is
    empty while its handle table still names the objects it held. *)
Inductive reachable : t -> Prop :=
  | reach_create o s :
      0 < Options.objectCapacity o -> create o = Ret s -> reachable s
  | reach_insert s id bbox flags r s' :
      reachable s -> insert s id bbox flags = Ret (r, s') -> reachable s'
  | reach_remove s id s' :
      reachable s -> remove s id = Ret s' -> reachable s'
  | reach_updateBoundingBox s id bbox r s' :
      reachable s -> updateBoundingBox s id bbox = Ret (r, s') -> reachable s'
  | reach_add s obj s' :
      reachable s -> add s obj = Ret s' -> reachable s'
  | reach_update s id obj s' :
      reachable s -> update s id obj = Ret s' -> reachable s'
  | reach_findInBounds s bounds out o :
      reachable s -> reachable (snd (findInBounds s bounds out o))
  | reach_attachExternalStore s getter :
      reachable s -> reachable (attachExternalStore s getter).

Lemma handles_wf_with_objectStore s m : handles_wf s -> handles_wf (with_objectStore s m).
Proof. apply handles_wf_shape. reflexivity. Qed.

Lemma handles_wf_create o s :
  0 < Options.objectCapacity o -> create o = Ret s -> handles_wf s.
Proof.
  intros Hcap H. unfold create in H.
  apply obind_Ret in H as (pool & Hpool & H).
  destruct (bool_decide _); [discriminate|].
  apply obind_Ret in H as ([root pool'] & Hroot & H). injection H as <-.
  constructor; cbn; rewrite ?tlen_tnew by (unfold BBOX_COMPONENTS; lia);
    unfold BBOX_COMPONENTS; try lia; try reflexivity.
  - unfold tlen. simpl. lia.
  - intros id r. rewrite lookup_empty. discriminate.
  - intros h id Hh. unfold tget, tnew in Hh. case_bool_decide; [|discriminate].
    apply lookup_replicate in Hh as [Hh _]. discriminate.
  - intros h Hin. inversion Hin.
  - constructor.
Qed.

Theorem reachable_handles_wf s : reachable s -> handles_wf s.
Proof.
  induction 1 as [o s Hcap Hc|s id bbox flags r s' _ IH H|s id s' _ IH H
                 |s id bbox r s' _ IH H|s obj s' _ IH H|s id obj s' _ IH H
                 |s bounds out o _ IH|s getter _ IH].
  - eapply handles_wf_create; eauto.
  - apply (insert_spec _ _ _ _ _ _ IH H).
  - apply (remove_spec _ _ _ IH H).
  - apply (updateBoundingBox_spec _ _ _ _ _ IH H).
  - unfold add in H. destruct (DrawObject.ensureBoundingBox obj) as [obj' bbox].
    match type of H with
    | context [with_objectStore s ?m] =>
        pose proof (handles_wf_with_objectStore s m IH) as Hw; set (s0 := with_objectStore s m) in *
    end.
    destruct (objectIndex s0 !! _).
    + apply obind_Ret in H as ([r s1] & H1 & H2). injection H2 as <-.
      apply (updateBoundingBox_spec _ _ _ _ _ Hw H1).
    + apply obind_Ret in H as ([r s1] & H1 & H2). injection H2 as <-.
      apply (insert_spec _ _ _ _ _ _ Hw H1).
  - unfold update in H. destruct (DrawObject.ensureBoundingBox obj) as [obj' bbox].
    apply obind_Ret in H as ([r s1] & H1 & H2). injection H2 as <-.
    apply (updateBoundingBox_spec _ _ _ _ _ (handles_wf_with_objectStore _ _ IH) H1).
  - eapply handles_wf_ext; [apply handleSide_findInBounds|exact IH].
  - eapply handles_wf_shape; [|exact IH]. reflexivity.
Qed.
End HandleInvariant.

Section HandleClaims.
Import ObjectStore.

(** The identifier a handle resolves to through the handle table. *)
Definition resolve (s : t) (h : Z) : option string := mjoin (tget (handleToId s) h).

Lemma resolve_findInBounds s bounds out o h :
  resolve (snd (findInBounds s bounds out o)) h = resolve s h.
Proof.
  unfold resolve.
  pose proof (handleSide_findInBounds s bounds out o) as H.
  apply handleSide_fields in H. destruct H as (_ & _ & -> & _). reflexivity.
Qed.

Lemma get_unchanged s s' id :
  objectStore s' = objectStore s -> externalGetter s' = externalGetter s -> get s' id = get s id.
Proof. unfold get. intros -> ->. reflexivity. Qed.

(** C2 (amended). In a store built by the constructor with a positive
    [objectCapacity] and by calls of [insert], [remove], [updateBoundingBox],
    [add], [update], [findInBounds] and [attachExternalStore] that all
    returned ([release()] is not among them: it empties the index and leaves
    the handle table as it is): after [insert(id, bbox)] followed by
    [remove(id)] the index holds no record of the identifier, no handle
    resolves to it, and so no handle a later [findInBounds] writes resolves to
    it either; [get(id)] is what it was before the two calls, since neither
    touches the object map or the external getter. *)
Theorem removed_object_is_forgotten (s : t) (id : string) (bbox : BoundingBox) (flags : Z)
    (r : InsertionResult) (s1 s2 : t) :
  reachable s ->
  insert s id bbox flags = Ret (r, s1) ->
  remove s1 id = Ret s2 ->
  objectIndex s2 !! id = None /\
  (forall h, resolve s2 h <> Some id) /\
  get s2 id = get s id /\
  (forall bounds out o i h,
     tget (snd (fst (findInBounds s2 bounds out o))) i = Some h ->
     resolve s2 h <> Some id /\ resolve (snd (findInBounds s2 bounds out o)) h <> Some id).
Proof.
  intros Hreach Hins Hrem.
  pose proof (reachable_handles_wf _ Hreach) as Hwf.
  destruct (insert_spec _ _ _ _ _ _ Hwf Hins) as (Hwf1 & _ & _ & _ & _ & Hst1 & Hg1 & _).
  destruct (remove_spec _ _ _ Hwf1 Hrem) as (Hwf2 & Hidx & Hno & Hst2 & Hg2 & _).
  assert (Hres : forall h, resolve s2 h <> Some id).
  { intros h Hh. unfold resolve in Hh. apply (Hno h).
    destruct (tget (handleToId s2) h) as [[i|]|]; simpl in Hh; congruence. }
  split; [rewrite Hidx; apply lookup_delete_eq|].
  split; [exact Hres|].
  split; [apply get_unchanged; congruence|].
  intros bounds out o i h _. split; [apply Hres|].
  rewrite resolve_findInBounds. apply Hres.
Qed.

Lemma obtainHandle_recycles s id h rest :
  objectIndex s !! id = None -> handleFreeList s = h :: rest -> fst (obtainHandle s id) = h.
Proof. intros Hnone Hfl. unfold obtainHandle. rewrite Hnone, Hfl. reflexivity. Qed.


(** Bit 1 of a flag word is [ObjectFlags.Dynamic]. *)
Lemma lor_sets_Dynamic f : Z.land (Z.lor f ObjectFlags.Dynamic) ObjectFlags.Dynamic = ObjectFlags.Dynamic.
Proof.
  apply Z.bits_inj'. intros n Hn. rewrite Z.land_spec, Z.lor_spec.
  destruct (Z.testbit f n), (Z.testbit ObjectFlags.Dynamic n); reflexivity.
Qed.

Lemma land_Dynamic_cases f :
  Z.land f ObjectFlags.Dynamic = 0 \/ Z.land f ObjectFlags.Dynamic = ObjectFlags.Dynamic.
Proof.
  destruct (Z.testbit f 1) eqn:E; [right|left]; apply Z.bits_inj'; intros n Hn;
    rewrite Z.land_spec; change ObjectFlags.Dynamic with (2 ^ 1);
    rewrite Z.pow2_bits_eqb by lia; rewrite ?Z.bits_0;
    destruct (Z.eqb_spec 1 n) as [<-|]; rewrite ?E, ?andb_false_r; reflexivity.
Qed.

(** One call of [bumpDynamicCounters] on a handle inside the arrays. *)
Lemma bumpDynamicCounters_spec s h u w f :
  tget (objectUpdateCounter s) h = Some u ->
  tget (objectWindowCounter s) h = Some w ->
  tget (objectFlags s) h = Some f ->
  let s' := bumpDynamicCounters s h in
  (w + 1 < Options.dynamicUpdateWindow (options s) ->
     tget (objectUpdateCounter s') h = Some (u16 (u + 1)) /\
     tget (objectWindowCounter s') h = Some (u16 (w + 1))) /\
  (Options.dynamicUpdateWindow (options s) <= w + 1 ->
     tget (objectUpdateCounter s') h = Some 0 /\
     tget (objectWindowCounter s') h = Some 0) /\
  (Options.dynamicUpdateThreshold (options s) <= u + 1 ->
     exists f', tget (objectFlags s') h = Some f' /\
                Z.land f' ObjectFlags.Dynamic = ObjectFlags.Dynamic).
Proof.
  intros Hu Hw Hf. unfold bumpDynamicCounters. rewrite Hu. cbn [fmap option_fmap option_map].
  store_fields. rewrite Hw. cbn [fmap option_fmap option_map].
  apply tget_Some_range in Hu as Ru. apply tget_Some_range in Hw as Rw.
  apply tget_Some_range in Hf as Rf.
  repeat (store_fields; rewrite ?Hf; cbn [default from_option id];
          match goal with |- context [if ?b then _ else _] => destruct b eqn:? end).
  all: store_fields.
  all: repeat match goal with
              | H : (_ <=? _) = true |- _ => apply Z.leb_le in H
              | H : (_ <=? _) = false |- _ => apply Z.leb_gt in H
              | H : (_ =? _) = false |- _ => apply Z.eqb_neq in H
              | H : (_ =? _) = true |- _ => apply Z.eqb_eq in H
              end.
  all: split; [intros ?; try lia; split; apply tget_tset_eq; rewrite ?tlen_tset; lia|].
  all: split; [intros ?; try lia; split; apply tget_tset_eq; rewrite ?tlen_tset; lia|].
  all: intros ?; try lia.
  all: first [ eexists; split; [apply tget_tset_eq; lia | apply lor_sets_Dynamic]
             | exists f; split; [exact Hf|];
               match goal with H : Z.land _ _ <> 0 |- _ => rewrite Hf in H; cbn in H end;
               destruct (land_Dynamic_cases f); congruence ].
Qed.

(** [updateBoundingBox] on an indexed identifier ends with
    [bumpDynamicCounters] on its handle; what comes before leaves the
    counters alone and keeps the flag cell of the handle. *)
Lemma updateBoundingBox_bumps s id bbox r s' rec :
  objectIndex s !! id = Some rec ->
  updateBoundingBox s id bbox = Ret (r, s') ->
  exists sd,
    s' = bumpDynamicCounters sd (rec_handle rec) /\
    objectUpdateCounter sd = objectUpdateCounter s /\
    objectWindowCounter sd = objectWindowCounter s /\
    options sd = options s /\
    (is_Some (tget (objectFlags s) (rec_handle rec)) ->
     is_Some (tget (objectFlags sd) (rec_handle rec))) /\
    ur_status r <> failed /\
    ur_handle r = rec_handle rec.
Proof.
  intros Hrec H. unfold updateBoundingBox in H. rewrite Hrec in H.
  apply obind_Ret in H as ([[newNode status] s1] & Hmove & H). injection H as <- <-.
  match type of Hmove with
  | context [fitsNode ?sa _ _] => set (s0 := sa) in *
  end.
  assert (Hs1 : objectUpdateCounter s1 = objectUpdateCounter s /\
                objectWindowCounter s1 = objectWindowCounter s /\
                options s1 = options s /\ objectFlags s1 = objectFlags s /\ status <> failed).
  { destruct (negb (fitsNode s0 (rec_nodeId rec) bbox)).
    - apply obind_Ret in Hmove as (sb & Hdet & Hmove).
      apply obind_Ret in Hmove as ([n sc] & Hins & Hmove). injection Hmove as <- <- <-.
      pose proof (keeps_detachFromNode _ _ _ _ Hdet) as Hsb.
      pose proof (keeps_insertHandle _ _ _ _ _ _ Hins) as Hsc.
      assert (Hall : handleSide sc = handleSide s0) by congruence.
      apply handleSide_fields in Hall.
      destruct Hall as (E1 & _ & _ & _ & _ & E6 & E7 & E8 & _).
      store_fields. repeat split; auto; discriminate.
    - injection Hmove as <- <- <-. repeat split; auto; discriminate. }
  destruct Hs1 as (U & W & O & F & St).
  eexists. split; [reflexivity|]. cbn [ur_status ur_handle].
  destruct (tget (objectFlags s1) (rec_handle rec)) as [f|] eqn:Hf; store_fields.
  - repeat split; auto. intros _. rewrite tget_tset_eq; [eauto|].
    apply tget_Some_range in Hf. exact Hf.
  - repeat split; auto. rewrite <- F, Hf. auto.
Qed.

(** C9. Every [updateBoundingBox] of an indexed object that returns adds one
    to the object's update counter and to its window counter (cells of
    [Uint16Array]s, hence modulo 65536); when the window counter thereby
    reaches [dynamicUpdateWindow], both counters are set back to zero; and
    when the update counter thereby reaches [dynamicUpdateThreshold], the
    [Dynamic] flag of the object is set after the call. *)
Theorem update_bumps_rolling_counters (s : t) (id : string) (bbox : BoundingBox)
    (r : UpdateResult) (s' : t) (rec : ObjectRecord) :
  reachable s ->
  objectIndex s !! id = Some rec ->
  updateBoundingBox s id bbox = Ret (r, s') ->
  let h := rec_handle rec in
  exists u w,
    tget (objectUpdateCounter s) h = Some u /\
    tget (objectWindowCounter s) h = Some w /\
    ur_status r <> failed /\
    (w + 1 < Options.dynamicUpdateWindow (options s) ->
       tget (objectUpdateCounter s') h = Some (u16 (u + 1)) /\
       tget (objectWindowCounter s') h = Some (u16 (w + 1))) /\
    (Options.dynamicUpdateWindow (options s) <= w + 1 ->
       tget (objectUpdateCounter s') h = Some 0 /\
       tget (objectWindowCounter s') h = Some 0) /\
    (Options.dynamicUpdateThreshold (options s) <= u + 1 ->
       exists f', tget (objectFlags s') h = Some f' /\
                  Z.land f' ObjectFlags.Dynamic = ObjectFlags.Dynamic).
Proof.
  intros Hreach Hrec H h.
  pose proof (reachable_handles_wf _ Hreach) as Hwf.
  destruct (wf_index _ Hwf _ _ Hrec) as [Hr _].
  pose proof (wf_bound _ Hwf) as Hb.
  assert (Hrange : 0 <= h < objectCapacity s) by (unfold h; lia).
  destruct (tget_in_range (objectUpdateCounter s) h) as [u Hu];
    [rewrite (wf_len_update _ Hwf); exact Hrange|].
  destruct (tget_in_range (objectWindowCounter s) h) as [w Hw];
    [rewrite (wf_len_window _ Hwf); exact Hrange|].
  assert (Hf : is_Some (tget (objectFlags s) h))
    by (apply tget_in_range; rewrite (wf_len_flags _ Hwf); exact Hrange).
  destruct (updateBoundingBox_bumps _ _ _ _ _ _ Hrec H) as (sd & -> & U & W & O & F & St & _).
  destruct (F Hf) as [f Hfd].
  exists u, w. split; [exact Hu|]. split; [exact Hw|]. split; [exact St|].
  rewrite <- U in Hu. rewrite <- W in Hw. rewrite <- O.
  exact (bumpDynamicCounters_spec sd h u w f Hu Hw Hfd).
Qed.
End HandleClaims.

Section ArenaGrowth.
Import ObjectStore.

(** [obtainHandle] with every handle in use and none free. *)
Lemma obtainHandle_exhausted s id h s1 :
  handles_wf s -> objectIndex s !! id = None ->
  handleFreeList s = [] -> usedHandles s = objectCapacity s ->
  obtainHandle s id = (h, s1) ->
  h = objectCapacity s /\
  objectCapacity s1 = objectCapacity s * 2 /\
  tlen (handleToId s1) = objectCapacity s1 /\
  tlen (objectBounds s1) = objectCapacity s1 * 4 /\
  tlen (objectFlags s1) = objectCapacity s1 /\
  tlen (objectNode s1) = objectCapacity s1 /\
  tlen (objectRefIndex s1) = objectCapacity s1 /\
  tlen (objectUpdateCounter s1) = objectCapacity s1 /\
  tlen (objectWindowCounter s1) = objectCapacity s1 /\
  tget (handleToId s1) h = Some (Some id) /\
  (forall i, i < objectCapacity s ->
     tget (handleToId s1) i = tget (handleToId s) i /\
     tget (objectFlags s1) i = tget (objectFlags s) i /\
     tget (objectNode s1) i = tget (objectNode s) i /\
     readBoundingBox s1 i = readBoundingBox s i).
Proof.
  intros Hwf Hnone Hfl Hfull.
  unfold obtainHandle. rewrite Hnone, Hfl.
  rewrite (proj2 (Z.leb_le _ _)) by lia.
  unfold expandHandles.
  rewrite bool_decide_eq_true_2 by (symmetry; apply (wf_len_ids _ Hwf)).
  destruct Hwf as [Hcap Lids Lb Lf Ln Lr Lu Lw Hused Hbound Hindex Hids Hfree Hnd].
  destruct (resized_handleToId (handleToId s) (objectCapacity s) Lids) as (R1 & R2 & R3).
  cbn in R1, R2, R3.
  unfold resizeHandles. cbn.
  set (ids' := foldl _ _ _) in *.
  intros [= <- <-]. cbn.
  assert (Hh : 0 <= usedHandles s < tlen ids') by lia.
  rewrite (jsset_in_range _ _ _ _ Hh), !tlen_tset, !tlen_tgrow.
  unfold BBOX_COMPONENTS.
  repeat (split; [lia|]).
  split; [apply tget_tset_eq; exact Hh|].
  intros i Hi. rewrite !tget_tset_ne by lia.
  split; [apply R2; exact Hi|].
  split; [apply tget_tgrow_old; lia|].
  split; [apply tget_tgrow_old; lia|].
  unfold readBoundingBox, BBOX_COMPONENTS. cbn.
  destruct (Z.lt_ge_cases i 0) as [Hneg|Hpos].
  - assert (Hn : forall (a : list Q) k, 0 <= k <= 3 -> tget a (i * 4 + k) = None).
    { intros a k Hk. unfold tget. rewrite bool_decide_eq_false_2 by lia. reflexivity. }
    replace (i * 4) with (i * 4 + 0) by lia. rewrite !Hn by lia. reflexivity.
  - replace (i * 4) with (i * 4 + 0) by lia.
    rewrite !tget_tgrow_old by lia. reflexivity.
Qed.

(** [obtainObjectRefIndex] with every reference cell in use and none free. *)
Lemma obtainObjectRefIndex_exhausted s refIndex s1 :
  0 < objectRefCapacity s ->
  tlen (objectRefHandle s) = objectRefCapacity s ->
  tlen (objectRefNext s) = objectRefCapacity s ->
  objectRefFreeList s = [] -> objectRefUsed s = objectRefCapacity s ->
  obtainObjectRefIndex s = (refIndex, s1) ->
  refIndex = objectRefCapacity s /\
  objectRefCapacity s1 = objectRefCapacity s * 2 /\
  tlen (objectRefHandle s1) = objectRefCapacity s1 /\
  tlen (objectRefNext s1) = objectRefCapacity s1 /\
  tget (objectRefNext s1) refIndex = Some (-1) /\
  (forall i, i < objectRefCapacity s ->
     tget (objectRefHandle s1) i = tget (objectRefHandle s) i /\
     tget (objectRefNext s1) i = tget (objectRefNext s) i).
Proof.
  intros Hcap Lh Ln Hfl Hfull.
  unfold obtainObjectRefIndex. rewrite Hfl.
  rewrite (proj2 (Z.leb_le _ _)) by lia.
  unfold expandObjectRefs. cbn. intros [= <- <-]. cbn. rewrite !tlen_tgrow.
  repeat (split; [lia|]).
  split; [apply tget_tgrow_new; lia|].
  intros i Hi. split; apply tget_tgrow_old; lia.
Qed.

(** Nodes the pool can still hand out: the released ones and those above
    the high-water mark. *)
Definition nodesLeft (p : NodePool.t) : Z :=
  tlen (NodePool.freeList p) + Z.max 0 (NodePool.capacity p - NodePool.nodeCount p).

Lemma allocateNode_takes_one p parentId depth nb :
  match NodePool.allocateNode p parentId depth nb with
  | Ret (_, p') => nodesLeft p' = nodesLeft p - 1
  | Throws => nodesLeft p = 0
  | Stray => False
  end.
Proof.
  unfold NodePool.allocateNode, NodePool.obtainNodeId, nodesLeft.
  destruct (NodePool.freeList p) as [|n rest] eqn:Hfl.
  - destruct (Z.leb_spec (NodePool.capacity p) (NodePool.nodeCount p)); cbn.
    + unfold tlen. simpl. lia.
    + rewrite Hfl. unfold tlen. simpl. lia.
  - cbn. unfold tlen. simpl. lia.
Qed.

Lemma nodesLeft_nonneg p : 0 <= nodesLeft p.
Proof. unfold nodesLeft. pose proof (tlen_nonneg (NodePool.freeList p)). lia. Qed.

(** A split asks the pool for four nodes, one after the other. *)
Lemma allocateChildren_throws childBounds :
  forall s nodeId childDepth,
    nodesLeft (nodePool s) < Z.of_nat (length childBounds) ->
    allocateChildren s nodeId childDepth childBounds = Throws.
Proof.
  induction childBounds as [|[i nb] childBounds IH]; intros s nodeId childDepth Hleft.
  - pose proof (nodesLeft_nonneg (nodePool s)). simpl in Hleft. lia.
  - simpl. pose proof (allocateNode_takes_one (nodePool s) nodeId childDepth nb) as Hone.
    destruct (NodePool.allocateNode (nodePool s) nodeId childDepth nb) as [[childId pool]| |];
      [|reflexivity|contradiction].
    simpl. apply IH. cbn [nodePool with_nodePool].
    change (nodesLeft (NodePool.setChild pool nodeId i childId)) with (nodesLeft pool).
    simpl length in Hleft. lia.
Qed.

Lemma splitNode_throws s nodeId depth nb :
  nodesLeft (nodePool s) < 4 ->
  NodePool.getBounds (nodePool s) nodeId = Some nb ->
  splitNode s nodeId depth = Throws.
Proof.
  intros Hleft Hb. unfold splitNode.
  change (NodePool.getBounds
            (nodePool (with_nodePool s (NodePool.setLeaf (nodePool s) nodeId false))) nodeId)
    with (NodePool.getBounds (nodePool s) nodeId).
  rewrite Hb. cbv zeta. rewrite allocateChildren_throws; [reflexivity|].
  cbn [nodePool with_nodePool].
  change (nodesLeft (NodePool.setLeaf (nodePool s) nodeId false)) with (nodesLeft (nodePool s)).
  simpl length. lia.
Qed.

(** The descent of [insertHandle] at a full leaf above the depth limit. *)
Lemma insertHandleLoop_throws fuel s handle bbox nodeId depth c nb :
  nodesLeft (nodePool s) < 4 ->
  NodePool.isLeaf (nodePool s) nodeId = true ->
  NodePool.getObjectCount (nodePool s) nodeId = Some c ->
  Options.maxObjectsPerNode (options s) <= c ->
  depth < Options.maxDepth (options s) ->
  NodePool.getBounds (nodePool s) nodeId = Some nb ->
  insertHandleLoop (S fuel) s handle bbox nodeId depth = Throws.
Proof.
  intros Hleft Hleaf Hcount Hfull Hdepth Hb. cbn [insertHandleLoop].
  rewrite Hleaf, Hcount.
  rewrite (proj2 (Z.ltb_ge _ _)) by lia. rewrite (proj2 (Z.leb_gt _ _)) by lia.
  cbn [orb]. rewrite (splitNode_throws s nodeId depth nb Hleft Hb). reflexivity.
Qed.

Lemma getBounds_is_Some p n :
  is_Some (NodePool.getBounds p n) <-> 0 <= n /\ n * 4 + 3 < tlen (NodePool.bounds p).
Proof.
  unfold NodePool.getBounds. split.
  - intros [nb H].
    destruct (tget (NodePool.bounds p) (n * 4)) eqn:E0; [|discriminate].
    destruct (tget (NodePool.bounds p) (n * 4 + 1)); [|discriminate].
    destruct (tget (NodePool.bounds p) (n * 4 + 2)); [|discriminate].
    destruct (tget (NodePool.bounds p) (n * 4 + 3)) eqn:E3; [|discriminate].
    apply tget_Some_range in E0, E3. lia.
  - intros [H0 H1].
    destruct (tget_in_range (NodePool.bounds p) (n * 4)) as [a ->]; [lia|].
    destruct (tget_in_range (NodePool.bounds p) (n * 4 + 1)) as [b ->]; [lia|].
    destruct (tget_in_range (NodePool.bounds p) (n * 4 + 2)) as [c ->]; [lia|].
    destruct (tget_in_range (NodePool.bounds p) (n * 4 + 3)) as [d ->]; [lia|].
    eauto.
Qed.

(** [ensureRootBounds] writes bounds and nothing else. *)
Lemma ensureRootBounds_pool s bbox :
  let s' := ensureRootBounds s bbox in
  options s' = options s /\ rootNodeId s' = rootNodeId s /\ objectNode s' = objectNode s /\
  nodesLeft (nodePool s') = nodesLeft (nodePool s) /\
  (forall n, NodePool.isLeaf (nodePool s') n = NodePool.isLeaf (nodePool s) n) /\
  (forall n, NodePool.getObjectCount (nodePool s') n = NodePool.getObjectCount (nodePool s) n) /\
  (forall n, is_Some (NodePool.getBounds (nodePool s) n) ->
             is_Some (NodePool.getBounds (nodePool s') n)).
Proof.
  unfold ensureRootBounds.
  destruct (NodePool.getBounds (nodePool s) (rootNodeId s)) as [nb|]; [|repeat split; auto].
  cbv zeta. destruct (_ && _); [repeat split; auto|].
  cbn [options rootNodeId objectNode nodePool with_nodePool].
  split; [reflexivity|]. split; [reflexivity|]. split; [reflexivity|].
  split; [reflexivity|]. split; [reflexivity|]. split; [reflexivity|].
  intros n Hn. apply getBounds_is_Some. apply getBounds_is_Some in Hn.
  unfold NodePool.setBounds, NodePool.writeBounds. cbn [NodePool.bounds NodePool.with_bounds].
  rewrite !tlen_tset. exact Hn.
Qed.

(** [obtainHandle] for a new identifier leaves the quadtree alone and marks
    the handle as attached to no node. *)
Lemma obtainHandle_fresh s id :
  objectIndex s !! id = None ->
  nodePool (snd (obtainHandle s id)) = nodePool s /\
  options (snd (obtainHandle s id)) = options s /\
  rootNodeId (snd (obtainHandle s id)) = rootNodeId s /\
  (0 <= fst (obtainHandle s id) < tlen (objectNode (snd (obtainHandle s id))) ->
   tget (objectNode (snd (obtainHandle s id))) (fst (obtainHandle s id)) = Some (-1)).
Proof.
  intros Hnone. unfold obtainHandle. rewrite Hnone.
  destruct (handleFreeList s) as [|h0 rest];
    [destruct (objectCapacity s <=? usedHandles s);
       [unfold expandHandles; destruct (bool_decide _)|]|];
    cbn; (split; [reflexivity|]); (split; [reflexivity|]); (split; [reflexivity|]);
    rewrite tlen_tset; apply tget_tset_eq.
Qed.

(** [insert] of a new identifier into a store whose root is a full leaf. *)
Lemma insert_throws s id bbox flags c nb :
  handles_wf s -> objectIndex s !! id = None ->
  nodesLeft (nodePool s) < 4 ->
  NodePool.isLeaf (nodePool s) (rootNodeId s) = true ->
  NodePool.getObjectCount (nodePool s) (rootNodeId s) = Some c ->
  Options.maxObjectsPerNode (options s) <= c ->
  0 < Options.maxDepth (options s) ->
  NodePool.getBounds (nodePool s) (rootNodeId s) = Some nb ->
  insert s id bbox flags = Throws.
Proof.
  intros Hwf Hnone Hleft Hleaf Hcount Hfull Hdepth Hb.
  destruct (obtainHandle_fresh s id Hnone) as (P1 & P2 & P3 & P4).
  unfold insert.
  destruct (obtainHandle s id) as [h s1] eqn:Hob. cbn [fst snd] in P1, P2, P3, P4.
  destruct (obtainHandle_new s id h s1 0 0 Hwf Hnone Hob) as (Hwf1 & Hrange & _).
  pose proof (wf_len_node _ Hwf1) as Ln. cbn in Ln.
  assert (Hnode : tget (objectNode s1) h = Some (-1)) by (apply P4; lia).
  set (sa := writeBoundingBox s1 h bbox).
  destruct (ensureRootBounds_pool sa bbox) as (A1 & A2 & A3 & A4 & A5 & A6 & A7).
  set (sb := ensureRootBounds sa bbox) in *.
  assert (Hnb : tget (objectNode sb) h = Some (-1)) by (rewrite A3; exact Hnode).
  rewrite Hnb. cbn [obind].
  unfold insertHandle.
  destruct (ensureRootBounds_pool sb bbox) as (B1 & B2 & B3 & B4 & B5 & B6 & B7).
  set (sc := ensureRootBounds sb bbox) in *.
  rewrite Nat.add_1_r.
  destruct (B7 (rootNodeId sc)) as [nb' Hb'].
  { apply A7. rewrite B2, A2. cbn. rewrite P3, P1, Hb. eauto. }
  rewrite (insertHandleLoop_throws _ sc h bbox (rootNodeId sc) 0 c nb'); [reflexivity|..].
  - rewrite B4, A4. cbn. rewrite P1. exact Hleft.
  - rewrite B5, A5, B2, A2. cbn. rewrite P1, P3. exact Hleaf.
  - rewrite B6, A6, B2, A2. cbn. rewrite P1, P3. exact Hcount.
  - rewrite B1, A1. cbn. rewrite P2. exact Hfull.
  - rewrite B1, A1. cbn. rewrite P2. exact Hdepth.
  - exact Hb'.
Qed.

(** C6 (amended). In a store that keeps the invariant of the handle table
    ([handles_wf], which every store built by the constructor and by calls
    that returned keeps), and whose reference arrays have the length of a
    positive [objectRefCapacity], the handle arena and the object-reference
    arena grow by doubling when they are exhausted, and the allocation goes
    on: the handle, or the reference index, that is handed out lies inside
    the doubled arrays and the cells already in use keep their contents.
    The quadtree node pool does not grow: with no node left, [allocateNode]
    throws 'ObjectStoreNodePool exhausted'; a split takes four nodes, so with
    fewer than four left [splitNode] throws, and so do the descent of
    [insertHandle] on reaching a full leaf above the depth limit and [insert]
    of a new identifier when the root is such a leaf. *)
Theorem arenas_double_and_node_pool_throws
    (s : t) (id : string) (p : NodePool.t) (parentId depth : Z) (nb : NodeBounds) :
  (handles_wf s -> objectIndex s !! id = None ->
   handleFreeList s = [] -> usedHandles s = objectCapacity s ->
   let '(h, s1) := obtainHandle s id in
   h = objectCapacity s /\
   objectCapacity s1 = objectCapacity s * 2 /\
   tlen (handleToId s1) = objectCapacity s1 /\
   tlen (objectBounds s1) = objectCapacity s1 * 4 /\
   tlen (objectFlags s1) = objectCapacity s1 /\
   tlen (objectNode s1) = objectCapacity s1 /\
   tlen (objectRefIndex s1) = objectCapacity s1 /\
   tlen (objectUpdateCounter s1) = objectCapacity s1 /\
   tlen (objectWindowCounter s1) = objectCapacity s1 /\
   tget (handleToId s1) h = Some (Some id) /\
   (forall i, i < objectCapacity s ->
      tget (handleToId s1) i = tget (handleToId s) i /\
      tget (objectFlags s1) i = tget (objectFlags s) i /\
      tget (objectNode s1) i = tget (objectNode s) i /\
      readBoundingBox s1 i = readBoundingBox s i)) /\
  (0 < objectRefCapacity s ->
   tlen (objectRefHandle s) = objectRefCapacity s ->
   tlen (objectRefNext s) = objectRefCapacity s ->
   objectRefFreeList s = [] -> objectRefUsed s = objectRefCapacity s ->
   let '(refIndex, s1) := obtainObjectRefIndex s in
   refIndex = objectRefCapacity s /\
   objectRefCapacity s1 = objectRefCapacity s * 2 /\
   tlen (objectRefHandle s1) = objectRefCapacity s1 /\
   tlen (objectRefNext s1) = objectRefCapacity s1 /\
   tget (objectRefNext s1) refIndex = Some (-1) /\
   (forall i, i < objectRefCapacity s ->
      tget (objectRefHandle s1) i = tget (objectRefHandle s) i /\
      tget (objectRefNext s1) i = tget (objectRefNext s) i)) /\
  (NodePool.freeList p = [] -> NodePool.capacity p <= NodePool.nodeCount p ->
   NodePool.allocateNode p parentId depth nb = Throws) /\
  (forall (nodeId : Z) (nb0 : NodeBounds),
     nodesLeft (nodePool s) < 4 ->
     NodePool.getBounds (nodePool s) nodeId = Some nb0 ->
     splitNode s nodeId depth = Throws) /\
  (forall (fuel : nat) (handle : Z) (bbox : BoundingBox) (nodeId c : Z) (nb0 : NodeBounds),
     nodesLeft (nodePool s) < 4 ->
     NodePool.isLeaf (nodePool s) nodeId = true ->
     NodePool.getObjectCount (nodePool s) nodeId = Some c ->
     Options.maxObjectsPerNode (options s) <= c ->
     depth < Options.maxDepth (options s) ->
     NodePool.getBounds (nodePool s) nodeId = Some nb0 ->
     insertHandleLoop (S fuel) s handle bbox nodeId depth = Throws) /\
  (forall (bbox : BoundingBox) (flags c : Z) (nb0 : NodeBounds),
     handles_wf s -> objectIndex s !! id = None ->
     nodesLeft (nodePool s) < 4 ->
     NodePool.isLeaf (nodePool s) (rootNodeId s) = true ->
     NodePool.getObjectCount (nodePool s) (rootNodeId s) = Some c ->
     Options.maxObjectsPerNode (options s) <= c ->
     0 < Options.maxDepth (options s) ->
     NodePool.getBounds (nodePool s) (rootNodeId s) = Some nb0 ->
     insert s id bbox flags = Throws).
Proof.
  split; [|split; [|split; [|split; [|split]]]].
  - intros Hwf Hnone Hfl Hfull.
    destruct (obtainHandle s id) as [h s1] eqn:Hob.
    exact (obtainHandle_exhausted s id h s1 Hwf Hnone Hfl Hfull Hob).
  - intros Hcap Lh Ln Hfl Hfull.
    destruct (obtainObjectRefIndex s) as [refIndex s1] eqn:Hob.
    exact (obtainObjectRefIndex_exhausted s refIndex s1 Hcap Lh Ln Hfl Hfull Hob).
  - intros Hfl Hfull. unfold NodePool.allocateNode, NodePool.obtainNodeId.
    rewrite Hfl. rewrite (proj2 (Z.leb_le _ _)) by lia. reflexivity.
  - intros nodeId nb0. apply splitNode_throws.
  - intros fuel handle bbox nodeId c nb0. apply insertHandleLoop_throws.
  - intros bbox flags c nb0. apply insert_throws.
Qed.
End ArenaGrowth.

Section StaleReferences.
Import ObjectStore.

(** [lseg next a l b]: following [next] from [a] through the references [l]
    arrives at [b]. *)
Inductive lseg (next : list Z) : Z -> list Z -> Z -> Prop :=
  | lseg_nil a : lseg next a [] a
  | lseg_cons a n l b :
      a <> -1 -> tget next a = Some n -> lseg next n l b -> lseg next a (a :: l) b.

(** The reference list of a node: the references from [firstObject[nodeId]]
    to the end mark [-1]. *)
Definition nodeList (s : t) (nodeId : Z) (l : list Z) : Prop :=
  exists first, NodePool.getFirstObject (nodePool s) nodeId = Some first /\
                lseg (objectRefNext s) first l (-1).

(** The reference holds a handle that line 371 of [findInBounds] rejects. *)
Definition staleRef (s : t) (nodeId ref : Z) : bool :=
  staleHandle s nodeId (default 0 (tget (objectRefHandle s) ref)).

(** A handle [findInBounds] may report: its slot in the handle table holds an
    identifier and its [Deleted] flag is clear. *)
Definition liveHandle (s : t) (h : Z) : Prop :=
  truthyId (mjoin (tget (handleToId s) h)) = true /\
  Z.land (default 0 (tget (objectFlags s) h)) ObjectFlags.Deleted = 0.

Definition walkState (w : walkResult) : t :=
  match w with WalkFull s _ _ | WalkDone s _ _ _ => s end.

Definition walkOut (w : walkResult) : list Z :=
  match w with WalkFull _ out _ | WalkDone _ out _ _ => out end.

(** The inner loop ran to the end of the list. *)
Definition walkedToEnd (w : walkResult) : Prop :=
  match w with WalkDone _ _ _ (S _) => True | _ => False end.

Lemma lseg_app next a l1 b l2 c :
  lseg next a l1 b -> lseg next b l2 c -> lseg next a (l1 ++ l2) c.
Proof. induction 1; simpl; [auto|]. intros. econstructor; eauto. Qed.

Lemma lseg_agree next next' a l b :
  (forall r, r ∈ l -> tget next' r = tget next r) ->
  lseg next a l b -> lseg next' a l b.
Proof.
  intros Hag H. induction H as [|a n l b Ha Hn H IH]; [constructor|].
  econstructor; [exact Ha| |].
  - rewrite Hag by left. exact Hn.
  - apply IH. intros r Hr. apply Hag. by right.
Qed.

Lemma lseg_snoc_inv next a l r b :
  lseg next a (l ++ [r]) b -> lseg next a l r /\ tget next r = Some b /\ r <> -1.
Proof.
  revert a. induction l as [|x l IH]; intros a H; simpl in H.
  - inversion H as [|? n ? ? Ha Hn Hl]; subst. inversion Hl; subst.
    repeat split; auto. constructor.
  - inversion H as [|? n ? ? Ha Hn Hl]; subst.
    destruct (IH _ Hl) as (H1 & H2 & H3). repeat split; auto. econstructor; eauto.
Qed.

Lemma lseg_end_nil next l b : lseg next (-1) l b -> l = [].
Proof. inversion 1; [reflexivity|congruence]. Qed.

Lemma last_snoc (l : list Z) r d : List.last (l ++ [r]) d = r.
Proof. induction l as [|x l IH]; [reflexivity|]. simpl. destruct (l ++ [r]) eqn:E; [destruct l; discriminate|exact IH]. Qed.

Lemma detachRef_links s nodeId ref prevRef handle n :
  tget (objectRefNext s) ref = Some n ->
  let s' := detachRef s nodeId ref prevRef handle in
  objectRefNext s' = tset (if prevRef =? -1 then objectRefNext s
                           else tset (objectRefNext s) prevRef n) ref (-1) /\
  objectRefHandle s' = tset (objectRefHandle s) ref 0 /\
  NodePool.firstObject (nodePool s') =
    (if prevRef =? -1 then tset (NodePool.firstObject (nodePool s)) nodeId n
     else NodePool.firstObject (nodePool s)).
Proof.
  intros Hn. unfold detachRef. rewrite Hn. cbn [default from_option id].
  assert (Hdec : forall p, NodePool.firstObject (NodePool.decrementObjectCount p nodeId)
                           = NodePool.firstObject p).
  { intros p. unfold NodePool.decrementObjectCount.
    destruct (tget (NodePool.objectCount p) nodeId) as [c|]; [destruct (0 <? c)|]; reflexivity. }
  destruct (prevRef =? -1); store_fields;
    match goal with |- context [if ?b then _ else _] => destruct b end;
    store_fields; rewrite Hdec; auto.
Qed.

Lemma staleHandle_detachRef s nodeId ref prevRef handle h :
  nodeId <> -1 ->
  staleHandle s nodeId handle = true ->
  staleHandle (detachRef s nodeId ref prevRef handle) nodeId h = staleHandle s nodeId h.
Proof.
  intros Hnode Hstale.
  pose proof (handleSide_detachRef s nodeId ref prevRef handle) as Hside.
  apply handleSide_fields in Hside.
  destruct Hside as (_ & _ & E3 & _ & _ & E6 & _ & _ & _ & E10 & _).
  assert (Hnodes : objectNode (detachRef s nodeId ref prevRef handle) = objectNode s \/
                   objectNode (detachRef s nodeId ref prevRef handle)
                   = tset (objectNode s) handle (-1)).
  { unfold detachRef.
    destruct (prevRef =? -1); store_fields;
      match goal with |- context [if ?b then _ else _] => destruct b end;
      store_fields; auto. }
  unfold staleHandle. rewrite E3, E6, E10.
  destruct Hnodes as [->| ->]; [reflexivity|].
  rewrite tget_tset.
  destruct (bool_decide (handle = h /\ 0 <= handle < tlen (objectNode s))) eqn:Hc;
    [|reflexivity].
  apply bool_decide_eq_true_1 in Hc. destruct Hc as [-> _].
  unfold staleHandle in Hstale. rewrite Hstale.
  rewrite (bool_decide_eq_false_2 (Some (-1) = Some nodeId)) by congruence.
  cbn [negb]. rewrite orb_true_r. reflexivity.
Qed.

(** Why the walk of a list stopped where it did: at the end of the list,
    with its step budget used up, or at a live reference whose handle filled
    the buffer, never at a stale reference; and the count grows by at most
    one per reference met. *)
Definition walkStop (budget : nat) (out : list Z) (count : Z) (s : t) (nodeId : Z)
    (w : walkResult) (visited rest : list Z) : Prop :=
  match w with
  | WalkFull _ _ n =>
      tlen out <= n <= count + Z.of_nat (length visited) + 1 /\
      exists r rest', rest = r :: rest' /\ staleRef s nodeId r = false
  | WalkDone _ _ n (S _) => n <= count + Z.of_nat (length visited) /\ rest = []
  | WalkDone _ _ n O =>
      n <= count + Z.of_nat (length visited) /\ (rest = [] \/ length visited = budget)
  end.

(** The walk of one reference list: the references it meets and finds stale
    are unlinked, the others stay in order, and the rest of the list is as it
    was; the walk goes on past every stale reference. *)
Lemma walkRefs_purges remaining :
  forall s nodeId bounds incl mode out count ref prevRef kept l first,
    nodeId <> -1 ->
    tlen (objectRefHandle s) = tlen (objectRefNext s) ->
    NodePool.getFirstObject (nodePool s) nodeId = Some first ->
    lseg (objectRefNext s) first kept ref ->
    prevRef = List.last kept (-1) ->
    lseg (objectRefNext s) ref l (-1) ->
    NoDup (kept ++ l) ->
    let w := walkRefs remaining s nodeId bounds incl mode out count ref prevRef in
    exists visited rest,
      l = visited ++ rest /\
      nodeList (walkState w) nodeId
        (kept ++ List.filter (fun r => negb (staleRef s nodeId r)) visited ++ rest) /\
      walkStop remaining out count s nodeId w visited rest.
Proof.
  induction remaining as [|remaining IH];
    intros s nodeId bounds incl mode out count ref prevRef kept l first
           Hnode Hshape Hfirst Hkept Hprev Hl Hnd; simpl.
  - exists [], l. split; [reflexivity|]. split.
    + destruct (ref =? -1); simpl; exists first; (split; [exact Hfirst|]);
        eapply lseg_app; eauto.
    + destruct (ref =? -1); simpl; (split; [lia|right; reflexivity]).
  - destruct (Z.eqb_spec ref (-1)) as [->|Hne].
    { apply lseg_end_nil in Hl as Hnil. subst l. exists [], []. simpl.
      split; [reflexivity|]. split; [|split; [lia|reflexivity]].
      exists first. split; [exact Hfirst|].
      rewrite app_nil_r. exact Hkept. }
    inversion Hl as [|? n l' ? _ Hn Hl']; subst; [congruence|].
    apply tget_Some_range in Hn as Hrange.
    rewrite (proj2 (Z.ltb_ge _ _)) by lia.
    rewrite (proj2 (Z.leb_gt _ _)) by lia. cbn [orb].
    rewrite Hn.
    assert (Hnd' : NoDup (kept ++ l')).
    { apply NoDup_app in Hnd as (Hk & Hdis & Hl0). apply NoDup_cons in Hl0 as [_ Hl0].
      apply NoDup_app. repeat split; auto. intros r Hr Hr'. apply (Hdis r Hr). by right. }
    assert (Hrefl : ref ∉ l') by (apply NoDup_app in Hnd as (_ & _ & Hl0); by apply NoDup_cons in Hl0 as [? _]).
    assert (Hrefk : ref ∉ kept) by (intros Hin; apply NoDup_app in Hnd as (_ & Hdis & _); apply (Hdis _ Hin); left).
    destruct (staleHandle s nodeId (default 0 (tget (objectRefHandle s) ref))) eqn:Hstale.
    + (* a stale reference: purged *)
      set (handle := default 0 (tget (objectRefHandle s) ref)) in *.
      set (s1 := detachRef s nodeId ref (List.last kept (-1)) handle).
      destruct (detachRef_links s nodeId ref (List.last kept (-1)) handle n Hn) as (Enext & Ehandle & Efirst).
      fold s1 in Enext, Ehandle, Efirst.
      assert (Hagree : forall r, r <> ref -> r <> List.last kept (-1) ->
                                 tget (objectRefNext s1) r = tget (objectRefNext s) r).
      { intros r Hr1 Hr2. rewrite Enext, tget_tset_ne by congruence.
        destruct (_ =? _); [reflexivity|]. apply tget_tset_ne. congruence. }
      assert (Hstep : exists first', NodePool.getFirstObject (nodePool s1) nodeId = Some first' /\
                                     lseg (objectRefNext s1) first' kept n).
      { destruct kept as [|k0 kept0] using rev_ind.
        - simpl in *. inversion Hkept; subst.
          exists n. split; [|constructor].
          unfold NodePool.getFirstObject in *. rewrite Efirst. simpl.
          apply tget_tset_eq. eapply tget_Some_range, Hfirst.
        - clear IHkept0. rewrite last_snoc in *.
          apply lseg_snoc_inv in Hkept as (Hk1 & Hk2 & Hk3).
          assert (Hk0 : k0 <> ref) by (intros ->; apply Hrefk, elem_of_app; right; left).
          exists first. split.
          + unfold NodePool.getFirstObject in *. rewrite Efirst.
            rewrite (proj2 (Z.eqb_neq _ _)) by exact Hk3. exact Hfirst.
          + eapply lseg_app.
            * eapply lseg_agree; [|exact Hk1]. intros r Hr. apply Hagree.
              -- intros ->. apply Hrefk, elem_of_app. by left.
              -- intros ->. apply NoDup_app in Hnd as (Hk & _ & _).
                 apply NoDup_app in Hk as (_ & Hdis & _). apply (Hdis _ Hr). left.
            * econstructor; [exact Hk3| |constructor].
              rewrite Enext, tget_tset_ne by congruence.
              rewrite (proj2 (Z.eqb_neq _ _)) by exact Hk3.
              apply tget_tset_eq. eapply tget_Some_range, Hk2. }
      destruct Hstep as (first' & Hfirst' & Hkept').
      assert (Hl1 : lseg (objectRefNext s1) n l' (-1)).
      { eapply lseg_agree; [|exact Hl']. intros r Hr. apply Hagree.
        - intros ->. contradiction.
        - intros ->. destruct kept as [|k0 kept0] using rev_ind.
          + simpl in Hr. clear -Hl' Hr.
            assert (forall a l b, lseg (objectRefNext s) a l b -> (-1) ∉ l) as Hno.
            { induction 1; [inversion 1|]. intros Hin. apply elem_of_cons in Hin as [?|?]; auto. }
            apply (Hno _ _ _ Hl'), Hr.
          + rewrite last_snoc in Hr. apply NoDup_app in Hnd as (_ & Hdis & _).
            apply (Hdis k0); [apply elem_of_app; right; left|by right]. }
      assert (Hshape1 : tlen (objectRefHandle s1) = tlen (objectRefNext s1)).
      { rewrite Enext, Ehandle, !tlen_tset. destruct (_ =? _); rewrite ?tlen_tset; exact Hshape. }
      assert (Hsame : forall r, r ∈ l' -> staleRef s1 nodeId r = staleRef s nodeId r).
      { intros r Hr. unfold staleRef. rewrite Ehandle, tget_tset_ne.
        - apply staleHandle_detachRef; assumption.
        - intros ->. contradiction. }
      destruct (IH s1 nodeId bounds incl mode out count n (List.last kept (-1)) kept l' first'
                   Hnode Hshape1 Hfirst' Hkept' eq_refl Hl1 Hnd') as (visited & rest & Hsplit & Hlist & Hstop).
      exists (ref :: visited), rest. split; [simpl; congruence|]. split.
      * simpl. unfold staleRef at 1. fold handle. rewrite Hstale. cbn [negb].
        replace (List.filter (fun r => negb (staleRef s nodeId r)) visited)
          with (List.filter (fun r => negb (staleRef s1 nodeId r)) visited); [exact Hlist|].
        apply filter_ext_in. intros r Hr. f_equal. apply Hsame.
        rewrite Hsplit. apply elem_of_app. left. by apply list_elem_of_In.
      * unfold walkStop in *. cbn [length]. rewrite Nat2Z.inj_succ.
        destruct (walkRefs remaining s1 nodeId bounds incl mode out count n (List.last kept (-1)))
          as [sf outf nf|sf outf nf [|k]].
        -- destruct Hstop as (Hn1 & r & rest' & Hr & Hst). split; [lia|].
           exists r, rest'. split; [exact Hr|]. rewrite <- Hsame; [exact Hst|].
           rewrite Hsplit, Hr. apply elem_of_app. right. left.
        -- destruct Hstop as (Hn1 & [Hr|Hr]); (split; [lia|]); [left; exact Hr|right; lia].
        -- destruct Hstop as (Hn1 & Hr). split; [lia|exact Hr].
    + (* a reference that is kept *)
      assert (Hlive : staleRef s nodeId ref = false) by exact Hstale.
      match goal with
      | |- context [if ?hit && (tlen out <=? _) then _ else _] => destruct hit eqn:Hhit
      end; cbn [andb].
      * destruct (Z.leb_spec (tlen out) (count + 1)) as [Hfull|Hroom].
        -- exists [], (ref :: l'). split; [reflexivity|]. split.
           ++ simpl. exists first. split; [exact Hfirst|]. eapply lseg_app; eauto.
           ++ simpl. split; [lia|]. exists ref, l'. auto.
        -- assert (Hkept' : lseg (objectRefNext s) first (kept ++ [ref]) n).
           { eapply lseg_app; [exact Hkept|]. econstructor; eauto. constructor. }
           assert (Hnd2 : NoDup ((kept ++ [ref]) ++ l')) by (rewrite <- app_assoc; exact Hnd).
           destruct (IH s nodeId bounds incl mode
                        (tset out count (default 0 (tget (objectRefHandle s) ref))) (count + 1)
                        n ref (kept ++ [ref]) l' first
                        Hnode Hshape Hfirst Hkept' (eq_sym (last_snoc _ _ _)) Hl' Hnd2)
             as (visited & rest & Hsplit & Hlist & Hstop).
           exists (ref :: visited), rest. split; [simpl; congruence|]. split.
           ++ simpl. rewrite Hlive. cbn [negb]. rewrite <- app_assoc in Hlist. exact Hlist.
           ++ unfold walkStop in *. cbn [length]. rewrite Nat2Z.inj_succ.
              rewrite tlen_tset in Hstop.
              destruct (walkRefs remaining s nodeId bounds incl mode _ (count + 1) n ref)
                as [sf outf nf|sf outf nf [|k]].
              ** destruct Hstop as (Hn1 & Hr). split; [lia|exact Hr].
              ** destruct Hstop as (Hn1 & [Hr|Hr]); (split; [lia|]);
                   [left; exact Hr|right; lia].
              ** destruct Hstop as (Hn1 & Hr). split; [lia|exact Hr].
      * assert (Hkept' : lseg (objectRefNext s) first (kept ++ [ref]) n).
        { eapply lseg_app; [exact Hkept|]. econstructor; eauto. constructor. }
        assert (Hnd2 : NoDup ((kept ++ [ref]) ++ l')) by (rewrite <- app_assoc; exact Hnd).
        destruct (IH s nodeId bounds incl mode out count n ref (kept ++ [ref]) l' first
                     Hnode Hshape Hfirst Hkept' (eq_sym (last_snoc _ _ _)) Hl' Hnd2)
          as (visited & rest & Hsplit & Hlist & Hstop).
        exists (ref :: visited), rest. split; [simpl; congruence|]. split.
        -- simpl. rewrite Hlive. cbn [negb]. rewrite <- app_assoc in Hlist. exact Hlist.
        -- unfold walkStop in *. cbn [length]. rewrite Nat2Z.inj_succ.
           destruct (walkRefs remaining s nodeId bounds incl mode out count n ref)
             as [sf outf nf|sf outf nf [|k]].
           ++ destruct Hstop as (Hn1 & Hr). split; [lia|exact Hr].
           ++ destruct Hstop as (Hn1 & [Hr|Hr]); (split; [lia|]);
                [left; exact Hr|right; lia].
           ++ destruct Hstop as (Hn1 & Hr). split; [lia|exact Hr].
Qed.

(** The first [n] cells of the output buffer hold handles that were live when
    the query started in [s0]; the other cells are those of [out0]. *)
Definition written (s0 : t) (out0 out : list Z) (n : Z) : Prop :=
  tlen out = tlen out0 /\
  (forall i, 0 <= i < n -> i < tlen out0 -> exists h, tget out i = Some h /\ liveHandle s0 h) /\
  (forall i, n <= i -> tget out i = tget out0 i).

Lemma liveHandle_not_stale s nodeId h : staleHandle s nodeId h = false -> liveHandle s h.
Proof.
  unfold staleHandle, liveHandle. intros H.
  repeat (apply orb_false_iff in H as [H ?]).
  split.
  - by apply negb_false_iff.
  - apply Z.eqb_eq. by apply negb_false_iff.
Qed.

Lemma liveHandle_ext s s' h :
  handleToId s' = handleToId s -> objectFlags s' = objectFlags s ->
  liveHandle s' h <-> liveHandle s h.
Proof. unfold liveHandle. intros -> ->. reflexivity. Qed.

Lemma written_push s0 out0 out n h :
  written s0 out0 out n -> 0 <= n -> liveHandle s0 h -> written s0 out0 (tset out n h) (n + 1).
Proof.
  intros (Hlen & Hlow & Hhigh) Hn Hlive. split; [|split].
  - rewrite tlen_tset. exact Hlen.
  - intros i Hi Hi'. rewrite tget_tset. case_bool_decide as Hc.
    + eauto.
    + apply Hlow; [|exact Hi']. destruct (decide (i = n)) as [->|]; [|lia].
      exfalso. apply Hc. rewrite Hlen. split; [reflexivity|lia].
  - intros i Hi. rewrite tget_tset_ne by lia. apply Hhigh. lia.
Qed.

(** The inner loop only appends live handles, and stops as soon as the
    buffer is full. *)
Lemma walkRefs_written remaining :
  forall s nodeId bounds incl mode out count ref prevRef s0 out0,
    handleToId s = handleToId s0 -> objectFlags s = objectFlags s0 ->
    written s0 out0 out count -> 0 <= count -> (count = 0 \/ count < tlen out0) ->
    match walkRefs remaining s nodeId bounds incl mode out count ref prevRef with
    | WalkFull s' out' n =>
        handleToId s' = handleToId s0 /\ objectFlags s' = objectFlags s0 /\
        written s0 out0 out' n /\ 0 <= n <= Z.max 1 (tlen out0)
    | WalkDone s' out' n _ =>
        handleToId s' = handleToId s0 /\ objectFlags s' = objectFlags s0 /\
        written s0 out0 out' n /\ 0 <= n /\ (n = 0 \/ n < tlen out0)
    end.
Proof.
  induction remaining as [|remaining IH];
    intros s nodeId bounds incl mode out count ref prevRef s0 out0 Hids Hflags Hw Hc Hroom; simpl.
  - destruct (ref =? -1); auto.
  - destruct (ref =? -1); [auto|].
    destruct (_ || _); [auto|].
    destruct (staleHandle s nodeId _) eqn:Hstale.
    + destruct (tget (objectRefNext s) ref) as [nextRef|]; [|auto].
      apply IH; auto.
      * pose proof (handleSide_detachRef s nodeId ref prevRef (default 0 (tget (objectRefHandle s) ref))) as E.
        apply handleSide_fields in E. destruct E as (_ & _ & -> & _). exact Hids.
      * pose proof (handleSide_detachRef s nodeId ref prevRef (default 0 (tget (objectRefHandle s) ref))) as E.
        apply handleSide_fields in E. destruct E as (_ & _ & _ & _ & _ & -> & _). exact Hflags.
    + set (handle := default 0 (tget (objectRefHandle s) ref)) in *.
      assert (Hlive : liveHandle s0 handle).
      { apply (liveHandle_ext s0 s); auto. eapply liveHandle_not_stale, Hstale. }
      match goal with
      | |- context [if ?hit && (tlen out <=? _) then _ else _] => destruct hit eqn:Hhit
      end; cbn [andb].
      * assert (Hw' : written s0 out0 (tset out count handle) (count + 1))
          by (apply written_push; auto).
        destruct Hw as (Hlen & _). rewrite Hlen.
        destruct (Z.leb_spec (tlen out0) (count + 1)).
        -- repeat split; auto; try apply Hw'; lia.
        -- destruct (tget (objectRefNext s) ref) as [nextRef|].
           ++ apply IH; auto; lia.
           ++ repeat split; auto; try apply Hw'; lia.
      * destruct (tget (objectRefNext s) ref) as [nextRef|]; [apply IH; auto|auto].
Qed.

Lemma visitNodes_written visits :
  forall s bounds incl mode out count stack s0 out0,
    handleToId s = handleToId s0 -> objectFlags s = objectFlags s0 ->
    written s0 out0 out count -> 0 <= count -> (count = 0 \/ count < tlen out0) ->
    let '(c, out', s') := visitNodes visits s bounds incl mode out count stack in
    exists n, (c = n \/ c = 0) /\ written s0 out0 out' n /\ 0 <= n <= Z.max 1 (tlen out0).
Proof.
  induction visits as [|visits IH];
    intros s bounds incl mode out count stack s0 out0 Hids Hflags Hw Hc Hroom.
  - destruct stack; simpl; exists count; (split; [auto|split; [exact Hw|lia]]).
  - destruct stack as [|top stack]; simpl; [exists count; split; [auto|split; [exact Hw|lia]]|].
    destruct top as [nodeId|]; [|apply IH; auto].
    destruct (negb _); [apply IH; auto|].
    destruct (NodePool.getFirstObject _ _) as [firstRef|],
             (NodePool.getObjectCount _ _) as [expected|];
      try (apply IH; auto);
      try (exists count; split; [auto|split; [exact Hw|lia]]).
    pose proof (walkRefs_written (Z.to_nat (expected * 2 + 10)) s nodeId bounds incl mode out
                  count firstRef (-1) s0 out0 Hids Hflags Hw Hc Hroom) as Hwalk.
    destruct (walkRefs _ _ _ _ _ _ _ _ _ _) as [s1 out1 n|s1 out1 n [|k]].
    + destruct Hwalk as (_ & _ & W & R). exists n. auto.
    + destruct Hwalk as (_ & _ & W & R1 & R2). exists n. split; [auto|split; [exact W|lia]].
    + destruct Hwalk as (I1 & I2 & W & R1 & R2). apply IH; auto.
Qed.

(** A list that ends at the mark [-1] meets no reference twice. *)
Lemma lseg_NoDup next a l : lseg next a l (-1) -> NoDup l.
Proof.
  intros Hl. remember (-1) as e. induction Hl as [|a n l b Ha Hn H IH]; [constructor|].
  subst. constructor; [|auto]. intros Hin.
  assert (Hsuf : forall a l, lseg next a l (-1) ->
            forall l', lseg next a l' (-1) -> l = l').
  { clear. intros a l H. remember (-1) as e. revert Heqe.
    induction H as [|a n l b Ha Hn H IH]; intros -> l' H'.
    - inversion H'; [reflexivity|congruence].
    - inversion H' as [|? n' l0 ? Ha' Hn' H0]; subst; [congruence|].
      rewrite Hn in Hn'. injection Hn' as <-. f_equal. auto. }
  assert (Hmid : forall x l, lseg next x l (-1) -> a ∈ l ->
            exists l2, lseg next a l2 (-1) /\ (length l2 <= length l)%nat).
  { clear -Ha. intros x l0 H. remember (-1) as e. revert Heqe.
    induction H as [|x n l0 b Hx Hn H IH]; intros -> Hin; [inversion Hin|].
    apply elem_of_cons in Hin as [->|Hin].
    - exists (x :: l0). split; [econstructor; eauto|lia].
    - destruct (IH Ha eq_refl Hin) as (l2 & H2 & Hlen). exists l2. split; [exact H2|simpl; lia]. }
  destruct (Hmid _ _ H Hin) as (l2 & H2 & Hlen).
  assert (Hfull : lseg next a (a :: l) (-1)) by (econstructor; eauto).
  rewrite (Hsuf _ _ H2 _ Hfull) in Hlen. simpl in Hlen. lia.
Qed.

Lemma pushChildren_none s nodeId stack :
  (forall i, 0 <= i < 4 -> NodePool.getChild (nodePool s) nodeId i = Some (-1)) ->
  pushChildren s nodeId stack = stack.
Proof.
  intros H. unfold pushChildren. cbn [foldl].
  rewrite (H 0), (H 1), (H 2), (H 3) by lia. reflexivity.
Qed.

(** The visit of a node without children whose list is shorter than the
    walk's budget and than the buffer: every stale reference of the list is
    unlinked. *)
Lemma visitNodes_purges_leaf visits s bounds incl mode out nodeId l c :
  nodeId <> -1 ->
  tlen (objectRefHandle s) = tlen (objectRefNext s) ->
  nodeIntersects s nodeId bounds = true ->
  nodeList s nodeId l ->
  NodePool.getObjectCount (nodePool s) nodeId = Some c ->
  Z.of_nat (length l) < c * 2 + 10 ->
  Z.of_nat (length l) < tlen out ->
  (forall i, 0 <= i < 4 -> NodePool.getChild (nodePool s) nodeId i = Some (-1)) ->
  nodeList (snd (visitNodes (S visits) s bounds incl mode out 0 [Some nodeId])) nodeId
           (List.filter (fun r => negb (staleRef s nodeId r)) l).
Proof.
  intros Hnode Hshape Hint (first & Hfirst & Hl) Hc Hlen Hroom Hch.
  cbn [visitNodes]. rewrite Hint. cbn [negb]. rewrite Hfirst, Hc.
  pose proof (walkRefs_purges (Z.to_nat (c * 2 + 10)) s nodeId bounds incl mode out 0 first (-1)
                [] l first Hnode Hshape Hfirst (lseg_nil _ _) eq_refl Hl (lseg_NoDup _ _ _ Hl))
    as Hwalk.
  cbv zeta in Hwalk. destruct Hwalk as (visited & rest & Hsplit & Hlist & Hstop).
  pose proof (treeShape_walkRefs (Z.to_nat (c * 2 + 10)) s nodeId bounds incl mode out 0
                first (-1)) as Htree.
  assert (Hlenv : length l = (length visited + length rest)%nat)
    by (rewrite Hsplit, length_app; reflexivity).
  destruct (walkRefs _ _ _ _ _ _ _ _ _ _) as [s1 out1 n|s1 out1 n [|k]];
    cbn [walkState walkStop app] in Hlist, Hstop.
  - destruct Hstop as (Hn & r & rest' & -> & _). cbn [length] in Hlenv. lia.
  - destruct Hstop as (_ & [->|Hb]); [|lia].
    rewrite app_nil_r in *. subst visited. exact Hlist.
  - destruct Hstop as (_ & ->). rewrite app_nil_r in *. subst visited.
    rewrite pushChildren_none.
    + destruct visits; exact Hlist.
    + intros i Hi. rewrite <- (Hch i Hi). unfold NodePool.getChild.
      unfold treeShape in Htree. injection Htree as _ _ _ -> _ _ _ _ _ _. reflexivity.
Qed.

(** C7. [findInBounds] is a total function of the store, the query and the
    buffer: it never throws.  It writes live handles only: when it returns,
    the first [n] cells of the buffer hold handles whose slot in the handle
    table is occupied and whose [Deleted] flag is clear, every other cell is
    untouched, and the returned count is [n], or [0] after the abort on too
    many visited nodes.  The walk of a node's reference list unlinks the stale
    references it meets (among them every reference to a deleted handle or to
    an empty slot) and goes on with the next one: afterwards the list holds,
    in order, the references met that are not stale, followed by the
    references not yet met; the walk stops only at the end of the list, when
    its step budget is used up, or at a live reference whose handle filled
    the buffer, so it never stops at a stale reference.  Hence a query that
    reaches a root without children, whose list is shorter than the budget
    and than the buffer, leaves in the root's list exactly the references
    that were not stale, in their order. *)
Theorem findInBounds_purges_stale_references :
  (forall (s : t) (bounds : BoundingBox) (out : list Z) (o : FindOptions),
     let '(count, out', s') := findInBounds s bounds out o in
     exists n, (count = n \/ count = 0) /\ written s out out' n /\
               0 <= n <= Z.max 1 (tlen out)) /\
  (forall (budget : nat) (s : t) (nodeId : Z) (bounds : BoundingBox) (incl : bool)
          (mode : FindMode) (out : list Z) (count first : Z) (l : list Z),
     nodeId <> -1 ->
     tlen (objectRefHandle s) = tlen (objectRefNext s) ->
     NodePool.getFirstObject (nodePool s) nodeId = Some first ->
     lseg (objectRefNext s) first l (-1) ->
     let w := walkRefs budget s nodeId bounds incl mode out count first (-1) in
     exists visited rest,
       l = visited ++ rest /\
       nodeList (walkState w) nodeId
         (List.filter (fun r => negb (staleRef s nodeId r)) visited ++ rest) /\
       (walkedToEnd w -> rest = []) /\
       walkStop budget out count s nodeId w visited rest) /\
  (forall (s : t) (bounds : BoundingBox) (out : list Z) (o : FindOptions) (l : list Z) (c : Z),
     0 < nodeStackLength s ->
     rootNodeId s <> -1 ->
     tlen (objectRefHandle s) = tlen (objectRefNext s) ->
     nodeIntersects s (rootNodeId s) bounds = true ->
     nodeList s (rootNodeId s) l ->
     NodePool.getObjectCount (nodePool s) (rootNodeId s) = Some c ->
     Z.of_nat (length l) < c * 2 + 10 ->
     Z.of_nat (length l) < tlen out ->
     (forall i, 0 <= i < 4 -> NodePool.getChild (nodePool s) (rootNodeId s) i = Some (-1)) ->
     nodeList (snd (findInBounds s bounds out o)) (rootNodeId s)
       (List.filter (fun r => negb (staleRef s (rootNodeId s) r)) l)).
Proof.
  split; [|split].
  - intros s bounds out o. unfold findInBounds.
    apply visitNodes_written; auto; try lia.
    split; [reflexivity|]. split; [intros; lia|reflexivity].
  - intros budget s nodeId bounds incl mode out count first l Hnode Hshape Hfirst Hl.
    pose proof (walkRefs_purges budget s nodeId bounds incl mode out count first (-1) [] l first
                  Hnode Hshape Hfirst (lseg_nil _ _) eq_refl Hl (lseg_NoDup _ _ _ Hl)) as Hwalk.
    cbv zeta in Hwalk |- *. destruct Hwalk as (visited & rest & Hsplit & Hlist & Hstop).
    exists visited, rest. split; [exact Hsplit|]. split; [exact Hlist|]. split; [|exact Hstop].
    unfold walkedToEnd, walkStop in *.
    destruct (walkRefs _ _ _ _ _ _ _ _ _ _) as [s1 out1 n|s1 out1 n [|k]]; try contradiction.
    intros _. apply Hstop.
  - intros s bounds out o l c Hstack Hroot Hshape Hint Hlist Hc Hlen Hroom Hch.
    unfold findInBounds, pushNode.
    change (Z.of_nat (length (@nil (option Z)))) with 0.
    rewrite (proj2 (Z.ltb_lt _ _) Hstack).
    replace (Z.to_nat 10000) with (S (Z.to_nat 9999))
      by (rewrite <- Z2Nat.inj_succ by lia; reflexivity).
    eapply visitNodes_purges_leaf; eauto.
Qed.
End StaleReferences.

(** * Runs of the index and of the chunk cache *)

Section Runs.
Import ObjectStore.

(** The value a run returns, for a run that returns. *)
Definition returned {A : Type} (m : outcome A) : match m with Ret _ => A | _ => unit end :=
  match m with Ret a => a | _ => tt end.

Definition box (a b c d : Z) : BoundingBox :=
  mkBBox (inject_Z a) (inject_Z b) (inject_Z c) (inject_Z d).

Definition noFindOptions : FindOptions := mkFindOptions None None.

Definition thenInsert (o : outcome t) (id : string) (bbox : BoundingBox) : outcome t :=
  do s <- o; do r <- insert s id bbox ObjectFlags.None_; Ret (snd r).

(** [inner] lies fully within [outer]. *)
Definition boxWithin (inner outer : BoundingBox) : bool :=
  Qleb (x outer) (x inner) && Qleb (x inner + width inner) (x outer + width outer) &&
  Qleb (y outer) (y inner) && Qleb (y inner + height inner) (y outer + height outer).

(** [n] unit boxes side by side, named by one letter each. *)
Fixpoint row (n : nat) (o : outcome t) : outcome t :=
  match n with
  | O => o
  | S n => thenInsert (row n o) (String (Ascii.ascii_of_nat (65 + n)) EmptyString)
                    (box (Z.of_nat n) 0 1 1)
  end.

(** A store with the default options: 32 objects fill the root and a 33rd
    far away splits it; a 34th outside the root's bounds then makes
    [ensureRootBounds] move the root, whose children keep the bounds they
    were given at the split. *)
Definition lostBox : BoundingBox := box (-20000) 20000 10 10.

Definition lostStore : outcome t :=
  thenInsert (thenInsert (row 32 (create Options.DEFAULT_OPTIONS)) "far" (box 10000 10000 10 10))
           "lost" lostBox.

(** The three objects of the spec's scenario. *)
Definition threeStore : outcome t :=
  thenInsert (thenInsert (thenInsert (create Options.DEFAULT_OPTIONS) "a" (box 0 0 10 10))
                     "b" (box 1000 1000 10 10))
           "c" (box 2000 0 10 10).

Definition drawn (id : string) (bbox : BoundingBox) : DrawObject.t :=
  DrawObject.mk id (Some bbox) None bbox.

Definition threeObjects : list DrawObject.t :=
  [drawn "a" (box 0 0 10 10); drawn "b" (box 1000 1000 10 10); drawn "c" (box 2000 0 10 10)].

(** What a chunk holds: its key and the objects of its segments. *)
Definition chunkContents (m : ChunkManager.t) : list (ChunkManager.ChunkKey * list string) :=
  List.map (fun kc => (fst kc, List.map (fun kv => fst (fst kv)) (ChunkManager.segments (snd kc))))
           (ChunkManager.chunks m).

(** An object declared at one place and declared again far away: its first
    chunk keeps no segment. *)
Definition movedCache : ChunkManager.t :=
  ChunkManager.addObjects
    (ChunkManager.addObjects ChunkManager.empty [drawn "a" (box 0 0 10 10)])
    [drawn "a" (box 5000 5000 10 10)].

Definition alwaysDrawn : DrawObject.t -> LODLevel -> bool := fun _ _ => true.
Definition nearView : Viewport := mkViewport 1 (Some Near).
Definition corner : Rectangle.t := Rectangle.mk 0 0 100 100.

Definition movedCacheUpdated : ChunkManager.t * list ChunkManager.RebuildEvent :=
  returned (ChunkManager.updateVisibleChunks alwaysDrawn movedCache nearView corner).

(** Small stores. *)
Definition tinyOptions : Options.t :=
  {| Options.minNodeSize := 256; Options.maxDepth := 8; Options.maxObjectsPerNode := 2;
     Options.mergeThreshold := 1; Options.looseness := 3 # 2;
     Options.oversizedNodeDepthCap := 4; Options.nodePoolSize := 16;
     Options.objectCapacity := 4; Options.objectRefCapacity := 4;
     Options.tileChunkSize := 32; Options.dynamicUpdateThreshold := 2;
     Options.dynamicUpdateWindow := 3 |}.

(** One object per node and a pool of four nodes: the second object in the
    root asks for four children when the pool has three nodes left. *)
Definition poolOf4 : Options.t :=
  {| Options.minNodeSize := 256; Options.maxDepth := 8; Options.maxObjectsPerNode := 1;
     Options.mergeThreshold := 12; Options.looseness := 3 # 2;
     Options.oversizedNodeDepthCap := 4; Options.nodePoolSize := 4;
     Options.objectCapacity := 4096; Options.objectRefCapacity := 4096;
     Options.tileChunkSize := 32; Options.dynamicUpdateThreshold := 6;
     Options.dynamicUpdateWindow := 16 |}.

Definition tinyStore : t := returned (create tinyOptions).
Definition tinyInsert : InsertionResult * t :=
  returned (insert tinyStore "a" (box 0 0 10 10) ObjectFlags.None_).
Definition tinyRemoved : t := returned (remove (snd tinyInsert) "a").
(** A box whose left edge, one tenth, is no float32. *)
Definition tenthBox : BoundingBox := mkBBox (1 # 10) 50 10 10.
Definition tinyUpdated : UpdateResult * t :=
  returned (updateBoundingBox (snd tinyInsert) "a" (box 1 1 10 10)).

(** A store whose object map holds an object and whose index then takes
    it by [insert]. *)
Definition keptStore : outcome t :=
  do s <- create tinyOptions;
  do s <- add s (drawn "a" (box 0 0 10 10));
  do r <- insert s "a" (box 0 0 10 10) ObjectFlags.None_;
  remove (snd r) "a".

Lemma tinyStore_reachable : reachable tinyStore.
Proof. apply (reach_create tinyOptions); [reflexivity|vm_compute; reflexivity]. Qed.

Lemma tinyInsert_reachable : reachable (snd tinyInsert).
Proof.
  apply (reach_insert tinyStore "a" (box 0 0 10 10) ObjectFlags.None_ (fst tinyInsert)).
  - exact tinyStore_reachable.
  - vm_compute. reflexivity.
Qed.

(** C1. With the default options, 34 insertions leave an object in the index
    whose stored box lies within a query rectangle, and [findInBounds] with a
    buffer of eight cells returns [0] and writes nothing. *)
Theorem findInBounds_misses_contained_object :
  let bounds := box (-20010) 19990 30 30 in
  let out := tnew 8 (-7) in
  match lostStore with
  | Ret s =>
      rec_handle <$> objectIndex s !! "lost" = Some 33 /\
      resolve s 33 = Some "lost" /\
      readBoundingBox s 33 = Some lostBox /\
      boxWithin lostBox bounds = true /\
      fst (findInBounds s bounds out noFindOptions) = (0, out)
  | _ => False
  end.
Proof. vm_compute. repeat split. Qed.

(** C10. With an empty buffer and one object in the query rectangle,
    [findInBounds] returns [1], more than the length of the buffer. *)
Theorem findInBounds_empty_buffer_returns_one :
  match threeStore with
  | Ret s =>
      let '(count, out, _) := findInBounds s (box 0 0 20 20) [] noFindOptions in
      count = 1 /\ out = [] /\ tlen out < count
  | _ => False
  end.
Proof. vm_compute. repeat split. Qed.

(** C2, counterexample. An object filed by [add], then inserted and removed:
    [get] still returns it. *)
Lemma removed_object_still_got :
  match keptStore with
  | Ret s => objectIndex s !! "a" = None /\ get s "a" <> None
  | _ => False
  end.
Proof. vm_compute. split; [reflexivity|discriminate]. Qed.

(** [release()] empties the index and the free lists but not the handle
    table: ["a"] inserted again after it takes the next handle, and once that
    one is removed handle [0] still resolves to ["a"]. *)
Definition releasedStore : outcome t :=
  do s <- thenInsert (create tinyOptions) "a" (box 0 0 10 10);
  do s <- thenInsert (Ret (release s)) "a" (box 0 0 10 10);
  remove s "a".

Lemma release_keeps_handle_table :
  match releasedStore with
  | Ret s => objectIndex s !! "a" = None /\ resolve s 0 = Some "a"
  | _ => False
  end.
Proof. vm_compute. split; reflexivity. Qed.


(** C3, counterexample. The three objects do not make three chunks. *)
Lemma three_objects_not_three_chunks :
  ChunkManager.getChunksSize (ChunkManager.addObjects ChunkManager.empty threeObjects) <> 3%nat.
Proof. vm_compute. discriminate. Qed.

(** C3 (amended). Declaring the three objects with boxes [{0,0,10,10}],
    [{1000,1000,10,10}] and [{2000,0,10,10}] makes two chunks: chunk [0,0]
    holds one segment of the first and one of the second object, chunk [1,0]
    one segment of the third; and a query of the index over [{0,0,20,20}]
    returns exactly the first object's handle. *)
Theorem three_objects_fill_two_chunks :
  let m := ChunkManager.addObjects ChunkManager.empty threeObjects in
  ChunkManager.getChunksSize m = 2%nat /\
  chunkContents m = [((0, 0), ["a"; "b"]); ((1, 0), ["c"])] /\
  match threeStore with
  | Ret s =>
      rec_handle <$> objectIndex s !! "a" = Some 0 /\
      fst (findInBounds s (box 0 0 20 20) (tnew 4 (-7)) noFindOptions) = (1, [0; -7; -7; -7])
  | _ => False
  end.
Proof. vm_compute. repeat split. Qed.

(** C5, counterexample. At the nearest band the chunk the object left is
    rebuilt by the first call and by the second. *)
Lemma second_update_rebuilds_emptied_chunk :
  ChunkManager.updateVisibleChunks alwaysDrawn movedCache nearView corner
  = Ret movedCacheUpdated /\
  snd movedCacheUpdated = [ChunkManager.RebuiltLive (0, 0)] /\
  ChunkManager.updateVisibleChunks alwaysDrawn (fst movedCacheUpdated) nearView corner
  = Ret (fst movedCacheUpdated, [ChunkManager.RebuiltLive (0, 0)]).
Proof. vm_compute. repeat split. Qed.

(** C6, counterexample. With one object per node and a pool of four nodes the
    second insertion throws. *)
Lemma insert_throws_when_pool_exhausted :
  match thenInsert (create poolOf4) "a" (box 0 0 10 10) with
  | Ret s => insert s "b" (box 0 0 10 10) ObjectFlags.None_ = Throws
  | _ => False
  end.
Proof. vm_compute. reflexivity. Qed.
End Runs.

Section Witnesses.
Import ObjectStore.

Lemma removed_object_is_forgotten_witness :
  reachable tinyStore /\
  insert tinyStore "a" (box 0 0 10 10) ObjectFlags.None_ = Ret (fst tinyInsert, snd tinyInsert) /\
  remove (snd tinyInsert) "a" = Ret tinyRemoved /\
  objectIndex tinyRemoved !! "a" = None /\
  (forall h, resolve tinyRemoved h <> Some "a") /\
  get tinyRemoved "a" = get tinyStore "a".
Proof.
  assert (H1 : insert tinyStore "a" (box 0 0 10 10) ObjectFlags.None_
               = Ret (fst tinyInsert, snd tinyInsert)) by (vm_compute; reflexivity).
  assert (H2 : remove (snd tinyInsert) "a" = Ret tinyRemoved) by (vm_compute; reflexivity).
  pose proof (removed_object_is_forgotten tinyStore "a" (box 0 0 10 10) ObjectFlags.None_
                (fst tinyInsert) (snd tinyInsert) tinyRemoved tinyStore_reachable H1 H2)
    as (C1 & C2 & C3 & _).
  exact (conj tinyStore_reachable (conj H1 (conj H2 (conj C1 (conj C2 C3))))).
Defined.

Lemma second_update_rebuilds_only_empty_live_witness :
  ChunkManager.updateVisibleChunks alwaysDrawn movedCache nearView corner
  = Ret (fst movedCacheUpdated, snd movedCacheUpdated) /\
  ChunkManager.updateVisibleChunks alwaysDrawn (fst movedCacheUpdated) nearView corner
  = Ret (fst movedCacheUpdated,
         idleRebuilds nearView corner (ChunkManager.chunks (fst movedCacheUpdated))).
Proof.
  assert (H : ChunkManager.updateVisibleChunks alwaysDrawn movedCache nearView corner
              = Ret (fst movedCacheUpdated, snd movedCacheUpdated))
    by (vm_compute; reflexivity).
  split; [exact H|].
  exact (proj1 (second_update_rebuilds_only_empty_live alwaysDrawn movedCache
                  (fst movedCacheUpdated) nearView corner (snd movedCacheUpdated) H)).
Defined.


Lemma update_bumps_rolling_counters_witness :
  reachable (snd tinyInsert) /\
  objectIndex (snd tinyInsert) !! "a" = Some (mkObjectRecord "a" 0 0 0 0 0) /\
  updateBoundingBox (snd tinyInsert) "a" (box 1 1 10 10)
  = Ret (fst tinyUpdated, snd tinyUpdated) /\
  exists u w,
    tget (objectUpdateCounter (snd tinyInsert)) 0 = Some u /\
    tget (objectWindowCounter (snd tinyInsert)) 0 = Some w /\
    ur_status (fst tinyUpdated) <> failed.
Proof.
  assert (H1 : objectIndex (snd tinyInsert) !! "a" = Some (mkObjectRecord "a" 0 0 0 0 0))
    by (vm_compute; reflexivity).
  assert (H2 : updateBoundingBox (snd tinyInsert) "a" (box 1 1 10 10)
               = Ret (fst tinyUpdated, snd tinyUpdated)) by (vm_compute; reflexivity).
  pose proof (update_bumps_rolling_counters (snd tinyInsert) "a" (box 1 1 10 10)
                (fst tinyUpdated) (snd tinyUpdated) _ tinyInsert_reachable H1 H2)
    as (u & w & C1 & C2 & C3 & _).
  split; [exact tinyInsert_reachable|]. split; [exact H1|]. split; [exact H2|].
  exists u, w. exact (conj C1 (conj C2 C3)).
Defined.
End Witnesses.

Section ArenaWitnesses.
Import ObjectStore.

(** Two handles, two reference cells, and one node that takes two objects:
    two objects fill them all. *)
Definition flatOptions : Options.t :=
  {| Options.minNodeSize := 256; Options.maxDepth := 8; Options.maxObjectsPerNode := 2;
     Options.mergeThreshold := 1; Options.looseness := 3 # 2;
     Options.oversizedNodeDepthCap := 4; Options.nodePoolSize := 1;
     Options.objectCapacity := 2; Options.objectRefCapacity := 2;
     Options.tileChunkSize := 32; Options.dynamicUpdateThreshold := 2;
     Options.dynamicUpdateWindow := 3 |}.

Definition flatStore : t := returned (create flatOptions).
Definition flatOne : InsertionResult * t :=
  returned (insert flatStore "a" (box 0 0 10 10) ObjectFlags.None_).
Definition fullStore : InsertionResult * t :=
  returned (insert (snd flatOne) "b" (box 20 20 10 10) ObjectFlags.None_).

(** The split leaves the record of "a" on the root while its reference moved
    to a child; [remove] then finds nothing to unlink. *)
Definition staleStore : t :=
  returned (do s <- thenInsert (thenInsert (thenInsert (create tinyOptions) "a" (box 0 0 10 10))
                                       "far" (box 10000 10000 10 10))
                             "c" (box 5 5 1 1);
            remove s "a").

(** With a merge threshold of four the removal of "c" after that of "a"
    merges the children back into the root, and the reference "a" left
    behind comes with them: the root, again without children, lists the
    reference of "far" and then the stale one. *)
Definition mergingOptions : Options.t :=
  {| Options.minNodeSize := 256; Options.maxDepth := 8; Options.maxObjectsPerNode := 2;
     Options.mergeThreshold := 4; Options.looseness := 3 # 2;
     Options.oversizedNodeDepthCap := 4; Options.nodePoolSize := 16;
     Options.objectCapacity := 4; Options.objectRefCapacity := 4;
     Options.tileChunkSize := 32; Options.dynamicUpdateThreshold := 2;
     Options.dynamicUpdateWindow := 3 |}.

Definition mergedStore : t :=
  returned (do s <- thenInsert (thenInsert (thenInsert (create mergingOptions) "a" (box 0 0 10 10))
                                       "far" (box 10000 10000 10 10))
                             "c" (box 5 5 1 1);
            do s <- remove s "a";
            remove s "c").

Lemma fullStore_reachable : reachable (snd fullStore).
Proof.
  apply (reach_insert (snd flatOne) "b" (box 20 20 10 10) ObjectFlags.None_ (fst fullStore));
    [|vm_compute; reflexivity].
  apply (reach_insert flatStore "a" (box 0 0 10 10) ObjectFlags.None_ (fst flatOne));
    [|vm_compute; reflexivity].
  apply (reach_create flatOptions); [reflexivity|vm_compute; reflexivity].
Qed.

Lemma arenas_double_and_node_pool_throws_witness :
  let s := snd fullStore in
  (handles_wf s /\ objectIndex s !! "c" = None /\
   handleFreeList s = [] /\ usedHandles s = objectCapacity s /\
   let '(h, s1) := obtainHandle s "c" in
   h = 2 /\ objectCapacity s1 = 4 /\ tget (handleToId s1) h = Some (Some "c")) /\
  (0 < objectRefCapacity s /\
   tlen (objectRefHandle s) = objectRefCapacity s /\
   tlen (objectRefNext s) = objectRefCapacity s /\
   objectRefFreeList s = [] /\ objectRefUsed s = objectRefCapacity s /\
   let '(refIndex, s1) := obtainObjectRefIndex s in
   refIndex = 2 /\ objectRefCapacity s1 = 4) /\
  (NodePool.freeList (nodePool s) = [] /\
   NodePool.capacity (nodePool s) <= NodePool.nodeCount (nodePool s) /\
   NodePool.allocateNode (nodePool s) 0 0 (mkNodeBounds 0 0 64 64) = Throws) /\
  (nodesLeft (nodePool s) < 4 /\
   NodePool.getBounds (nodePool s) (rootNodeId s) = Some (mkNodeBounds (256 # 2) (256 # 2) (256 # 2) (256 # 2)) /\
   NodePool.isLeaf (nodePool s) (rootNodeId s) = true /\
   NodePool.getObjectCount (nodePool s) (rootNodeId s) = Some 2 /\
   Options.maxObjectsPerNode (options s) <= 2 /\
   0 < Options.maxDepth (options s) /\
   splitNode s (rootNodeId s) 0 = Throws /\
   insertHandleLoop 1 s 2 (box 40 40 10 10) (rootNodeId s) 0 = Throws /\
   insert s "c" (box 40 40 10 10) ObjectFlags.None_ = Throws).
Proof.
  intros s.
  pose proof (arenas_double_and_node_pool_throws s "c" (nodePool s) 0 0 (mkNodeBounds 0 0 64 64))
    as (T1 & T2 & T3 & T4 & T5 & T6).
  assert (Hwf : handles_wf s) by exact (reachable_handles_wf _ fullStore_reachable).
  assert (A1 : objectIndex s !! "c" = None) by (vm_compute; reflexivity).
  assert (A2 : handleFreeList s = []) by (vm_compute; reflexivity).
  assert (A3 : usedHandles s = objectCapacity s) by (vm_compute; reflexivity).
  assert (B1 : 0 < objectRefCapacity s) by (vm_compute; reflexivity).
  assert (B2 : tlen (objectRefHandle s) = objectRefCapacity s) by (vm_compute; reflexivity).
  assert (B3 : tlen (objectRefNext s) = objectRefCapacity s) by (vm_compute; reflexivity).
  assert (B4 : objectRefFreeList s = []) by (vm_compute; reflexivity).
  assert (B5 : objectRefUsed s = objectRefCapacity s) by (vm_compute; reflexivity).
  assert (C1 : NodePool.freeList (nodePool s) = []) by (vm_compute; reflexivity).
  assert (C2 : NodePool.capacity (nodePool s) <= NodePool.nodeCount (nodePool s))
    by (vm_compute; discriminate).
  assert (D1 : nodesLeft (nodePool s) < 4) by (vm_compute; reflexivity).
  assert (D2 : NodePool.getBounds (nodePool s) (rootNodeId s)
               = Some (mkNodeBounds (256 # 2) (256 # 2) (256 # 2) (256 # 2))) by (vm_compute; reflexivity).
  assert (D3 : NodePool.isLeaf (nodePool s) (rootNodeId s) = true) by (vm_compute; reflexivity).
  assert (D4 : NodePool.getObjectCount (nodePool s) (rootNodeId s) = Some 2)
    by (vm_compute; reflexivity).
  assert (D5 : Options.maxObjectsPerNode (options s) <= 2) by (vm_compute; discriminate).
  assert (D6 : 0 < Options.maxDepth (options s)) by (vm_compute; reflexivity).
  pose proof (T4 (rootNodeId s) _ D1 D2) as E4.
  pose proof (T5 0%nat 2 (box 40 40 10 10) (rootNodeId s) 2 _ D1 D3 D4 D5 D6 D2) as E5.
  pose proof (T6 (box 40 40 10 10) ObjectFlags.None_ 2 _ Hwf A1 D1 D3 D4 D5 D6 D2) as E6.
  specialize (T1 Hwf A1 A2 A3). specialize (T2 B1 B2 B3 B4 B5). specialize (T3 C1 C2).
  assert (Hcap : objectCapacity s = 2) by (vm_compute; reflexivity).
  assert (Hrcap : objectRefCapacity s = 2) by (vm_compute; reflexivity).
  split; [|split; [|split]].
  - destruct (obtainHandle s "c") as [h s1].
    destruct T1 as (E1 & E2 & _ & _ & _ & _ & _ & _ & _ & E3 & _).
    rewrite Hcap in E1, E2.
    exact (conj Hwf (conj A1 (conj A2 (conj A3 (conj E1 (conj E2 E3)))))).
  - destruct (obtainObjectRefIndex s) as [refIndex s1].
    destruct T2 as (E1 & E2 & _).
    rewrite Hrcap in E1, E2.
    exact (conj B1 (conj B2 (conj B3 (conj B4 (conj B5 (conj E1 E2)))))).
  - exact (conj C1 (conj C2 T3)).
  - exact (conj D1 (conj D2 (conj D3 (conj D4 (conj D5 (conj D6 (conj E4 (conj E5 E6)))))))).
Defined.

Lemma findInBounds_purges_stale_references_witness :
  let s := staleStore in
  let w := walkRefs 10 s 1 (box 0 0 20 20) true nonDeleted (tnew 4 (-7)) 0 2 (-1) in
  let m := mergedStore in
  let out := tnew 4 (-7) in
  (1 <> -1 /\
   tlen (objectRefHandle s) = tlen (objectRefNext s) /\
   NodePool.getFirstObject (nodePool s) 1 = Some 2 /\
   lseg (objectRefNext s) 2 [2; 0] (-1) /\
   staleRef s 1 0 = true /\
   exists visited rest,
     [2; 0] = visited ++ rest /\
     nodeList (walkState w) 1
       (List.filter (fun r => negb (staleRef s 1 r)) visited ++ rest) /\
     (walkedToEnd w -> rest = []) /\
     walkStop 10 out 0 s 1 w visited rest) /\
  (0 < nodeStackLength m /\
   rootNodeId m <> -1 /\
   tlen (objectRefHandle m) = tlen (objectRefNext m) /\
   nodeIntersects m (rootNodeId m) (box 0 0 20 20) = true /\
   nodeList m (rootNodeId m) [3; 2] /\
   NodePool.getObjectCount (nodePool m) (rootNodeId m) = Some 2 /\
   Z.of_nat (length [3; 2]) < 2 * 2 + 10 /\
   Z.of_nat (length [3; 2]) < tlen out /\
   (forall i, 0 <= i < 4 -> NodePool.getChild (nodePool m) (rootNodeId m) i = Some (-1)) /\
   staleRef m (rootNodeId m) 2 = true /\
   List.filter (fun r => negb (staleRef m (rootNodeId m) r)) [3; 2] = [3] /\
   nodeList (snd (findInBounds m (box 0 0 20 20) out noFindOptions)) (rootNodeId m)
     (List.filter (fun r => negb (staleRef m (rootNodeId m) r)) [3; 2])).
Proof.
  intros s w m out.
  assert (H1 : 1 <> -1) by discriminate.
  assert (H2 : tlen (objectRefHandle s) = tlen (objectRefNext s)) by (vm_compute; reflexivity).
  assert (H3 : NodePool.getFirstObject (nodePool s) 1 = Some 2) by (vm_compute; reflexivity).
  assert (H4 : lseg (objectRefNext s) 2 [2; 0] (-1)).
  { apply (lseg_cons _ 2 0); [discriminate|vm_compute; reflexivity|].
    apply (lseg_cons _ 0 (-1)); [discriminate|vm_compute; reflexivity|].
    apply lseg_nil. }
  assert (H5 : staleRef s 1 0 = true) by (vm_compute; reflexivity).
  assert (M1 : 0 < nodeStackLength m) by (vm_compute; reflexivity).
  assert (M2 : rootNodeId m <> -1) by (vm_compute; discriminate).
  assert (M3 : tlen (objectRefHandle m) = tlen (objectRefNext m)) by (vm_compute; reflexivity).
  assert (M4 : nodeIntersects m (rootNodeId m) (box 0 0 20 20) = true) by (vm_compute; reflexivity).
  assert (M5 : nodeList m (rootNodeId m) [3; 2]).
  { exists 3. split; [vm_compute; reflexivity|].
    apply (lseg_cons _ 3 2); [discriminate|vm_compute; reflexivity|].
    apply (lseg_cons _ 2 (-1)); [discriminate|vm_compute; reflexivity|].
    apply lseg_nil. }
  assert (M6 : NodePool.getObjectCount (nodePool m) (rootNodeId m) = Some 2)
    by (vm_compute; reflexivity).
  assert (M7 : Z.of_nat (length [3; 2]) < 2 * 2 + 10) by (vm_compute; reflexivity).
  assert (M8 : Z.of_nat (length [3; 2]) < tlen out) by (vm_compute; reflexivity).
  assert (M9 : forall i, 0 <= i < 4 ->
                         NodePool.getChild (nodePool m) (rootNodeId m) i = Some (-1)).
  { intros i Hi.
    assert (Hc : i = 0 \/ i = 1 \/ i = 2 \/ i = 3) by lia.
    destruct Hc as [->|[->|[->| ->]]]; vm_compute; reflexivity. }
  assert (M10 : staleRef m (rootNodeId m) 2 = true) by (vm_compute; reflexivity).
  assert (M11 : List.filter (fun r => negb (staleRef m (rootNodeId m) r)) [3; 2] = [3])
    by (vm_compute; reflexivity).
  split.
  - exact (conj H1 (conj H2 (conj H3 (conj H4 (conj H5
      (proj1 (proj2 findInBounds_purges_stale_references) 10%nat s 1 (box 0 0 20 20) true
             nonDeleted out 0 2 [2; 0] H1 H2 H3 H4)))))).
  - exact (conj M1 (conj M2 (conj M3 (conj M4 (conj M5 (conj M6 (conj M7 (conj M8 (conj M9
      (conj M10 (conj M11
        (proj2 (proj2 findInBounds_purges_stale_references) m (box 0 0 20 20) out noFindOptions
               [3; 2] 2 M1 M2 M3 M4 M5 M6 M7 M8 M9)))))))))))).
Defined.
End ArenaWitnesses.
(** * Further properties of the index *)

Section IndexOperations.
Import ObjectStore.

Lemma readBoundingBox_write_other s handle bbox h :
  h <> handle -> readBoundingBox (writeBoundingBox s handle bbox) h = readBoundingBox s h.
Proof.
  intros Hne. unfold readBoundingBox, writeBoundingBox, BBOX_COMPONENTS. cbn.
  rewrite !tget_tset_ne by lia. reflexivity.
Qed.

Lemma readBoundingBox_ext s s' h :
  objectBounds s' = objectBounds s -> readBoundingBox s' h = readBoundingBox s h.
Proof. unfold readBoundingBox. intros ->. reflexivity. Qed.

(** [obtainHandle] keeps the boxes of the handles of the old arena. *)
Lemma obtainHandle_bounds s id h :
  handles_wf s -> h < objectCapacity s ->
  readBoundingBox (snd (obtainHandle s id)) h = readBoundingBox s h.
Proof.
  intros Hwf Hh.
  destruct (objectIndex s !! id) as [rec|] eqn:Hrec.
  { unfold obtainHandle. rewrite Hrec. reflexivity. }
  destruct (handleFreeList s) as [|h0 rest] eqn:Hfl.
  - destruct (objectCapacity s <=? usedHandles s) eqn:Hfull.
    + apply Z.leb_le in Hfull.
      assert (Heq : usedHandles s = objectCapacity s).
      { pose proof (wf_bound _ Hwf) as Hb. rewrite Hfl in Hb. unfold tlen in Hb. simpl in Hb. lia. }
      destruct (obtainHandle s id) as [h1 s1] eqn:Hob.
      destruct (obtainHandle_exhausted s id h1 s1 Hwf Hrec Hfl Heq Hob)
        as (_ & _ & _ & _ & _ & _ & _ & _ & _ & _ & Hold).
      apply (Hold h Hh).
    + unfold obtainHandle. rewrite Hrec, Hfl, Hfull. reflexivity.
  - unfold obtainHandle. rewrite Hrec, Hfl. reflexivity.
Qed.

(** What [insert] returns and where it leaves the boxes. *)
Lemma insert_result s id bbox flags r s' :
  insert s id bbox flags = Ret (r, s') ->
  ir_status r = inserted /\ ir_flags r = flags /\
  objectBounds s'
  = objectBounds (writeBoundingBox (snd (obtainHandle s id)) (fst (obtainHandle s id)) bbox) /\
  exists rec, objectIndex s' !! id = Some rec /\ rec_nodeId rec = ir_nodeId r /\
              rec_flags rec = flags /\ rec_handle rec = ir_handle r.
Proof.
  unfold insert.
  destruct (obtainHandle s id) as [h s1]. cbn [fst snd].
  set (sa := writeBoundingBox s1 h bbox).
  set (sb := ensureRootBounds sa bbox).
  intros H.
  apply obind_Ret in H as (sc & Hpurge & H).
  apply obind_Ret in H as ([nodeId sd] & Hins & H).
  injection H as <- <-. cbn.
  assert (Hsc : handleSide sc = handleSide sb).
  { destruct (tget (objectNode sb) h) as [n|]; [|discriminate].
    destruct n as [|p|p]; [| |destruct p];
      first [ injection Hpurge as <-; reflexivity
            | apply obind_Ret in Hpurge as ([b s''] & Hp & Hq); injection Hq as <-;
              apply (keeps_purgeHandleFromNode _ _ _ _ _ Hp) ]. }
  pose proof (keeps_insertHandle _ _ _ _ _ _ Hins) as Hsd.
  assert (Hsb : handleSide sb = handleSide sa) by apply handleSide_ensureRootBounds.
  assert (Hall : handleSide sd = handleSide sa) by congruence.
  apply handleSide_fields in Hall.
  destruct Hall as (_ & _ & _ & _ & E5 & _).
  split; [reflexivity|]. split; [reflexivity|]. split; [exact E5|].
  eexists. rewrite lookup_insert_eq. split; [reflexivity|]. cbn. auto.
Qed.

(** X1. In every store reached from the constructor by the public
    operations, each indexed identifier owns a handle inside the arena that
    the handle table maps back to it, two identifiers never share a handle,
    every occupied slot of the handle table belongs to an indexed identifier,
    and [usedHandles] counts the indexed identifiers. *)
Theorem indexed_ids_own_distinct_handles (s : t) :
  reachable s ->
  (forall id rec, objectIndex s !! id = Some rec ->
     0 <= rec_handle rec < objectCapacity s /\ resolve s (rec_handle rec) = Some id) /\
  (forall id1 id2 r1 r2,
     objectIndex s !! id1 = Some r1 -> objectIndex s !! id2 = Some r2 ->
     rec_handle r1 = rec_handle r2 -> id1 = id2) /\
  (forall h id, tget (handleToId s) h = Some (Some id) ->
     exists rec, objectIndex s !! id = Some rec /\ rec_handle rec = h) /\
  usedHandles s = Z.of_nat (size (objectIndex s)).
Proof.
  intros Hreach. pose proof (reachable_handles_wf _ Hreach) as Hwf.
  assert (Hown : forall id rec, objectIndex s !! id = Some rec ->
            0 <= rec_handle rec < objectCapacity s /\ resolve s (rec_handle rec) = Some id).
  { intros id rec Hrec. destruct (wf_index _ Hwf _ _ Hrec) as [Hr Ht].
    pose proof (wf_bound _ Hwf). split; [lia|]. unfold resolve. rewrite Ht. reflexivity. }
  split; [exact Hown|]. split; [|split; [apply (wf_ids _ Hwf)|apply (wf_used _ Hwf)]].
  intros id1 id2 r1 r2 H1 H2 Heq.
  destruct (Hown _ _ H1) as [_ R1]. destruct (Hown _ _ H2) as [_ R2].
  rewrite Heq in R1. congruence.
Qed.

(** X2. [insert] and lookup: when [insert(id, bbox, flags)] returns, the
    index holds a record of [id] with the returned handle, node and flags, the
    handle resolves to [id] and holds [bbox] with each coordinate rounded to
    float32 (for a box whose numbers lie within the float32 range), and the
    status is ['inserted']; the records, the handles and the boxes of all
    other identifiers, and what [get] returns, are as before. *)
Theorem insert_then_lookup (s : t) (id : string) (bbox : BoundingBox) (flags : Z)
    (r : InsertionResult) (s' : t) :
  reachable s ->
  insert s id bbox flags = Ret (r, s') ->
  (exists rec, objectIndex s' !! id = Some rec /\ rec_handle rec = ir_handle r /\
               rec_nodeId rec = ir_nodeId r /\ rec_flags rec = flags) /\
  resolve s' (ir_handle r) = Some id /\
  (boxInFloat32Range bbox = true ->
   readBoundingBox s' (ir_handle r) = Some (float32Box bbox)) /\
  ir_status r = inserted /\
  (forall id' rec', id' <> id -> objectIndex s !! id' = Some rec' ->
     objectIndex s' !! id' = Some rec' /\
     resolve s' (rec_handle rec') = Some id' /\
     readBoundingBox s' (rec_handle rec') = readBoundingBox s (rec_handle rec')) /\
  (forall id', get s' id' = get s id').
Proof.
  intros Hreach Hins. pose proof (reachable_handles_wf _ Hreach) as Hwf.
  destruct (insert_spec _ _ _ _ _ _ Hwf Hins)
    as (Hwf' & Hidx & Hrange & Hslot & Hbox & Hst & Hget & Hother & Hh).
  destruct (insert_result _ _ _ _ _ _ Hins) as (Hstatus & _ & Hbounds & rec & R1 & R2 & R3 & R4).
  split; [exists rec; auto|].
  split; [unfold resolve; rewrite Hslot; reflexivity|].
  split; [intros _; exact Hbox|]. split; [exact Hstatus|].
  split.
  - intros id' rec' Hne Hrec'.
    assert (Hrec2 : objectIndex s' !! id' = Some rec')
      by (rewrite Hidx, lookup_insert_ne by congruence; exact Hrec').
    destruct (wf_index _ Hwf _ _ Hrec') as [Hr1 Hr2].
    destruct (wf_index _ Hwf' _ _ Hrec2) as [_ Hr3].
    pose proof (wf_bound _ Hwf) as Hb.
    assert (Hdiff : rec_handle rec' <> ir_handle r).
    { intros E. rewrite E in Hr3. rewrite Hslot in Hr3. congruence. }
    split; [exact Hrec2|]. split; [unfold resolve; rewrite Hr3; reflexivity|].
    rewrite (readBoundingBox_ext _ _ _ Hbounds), <- Hh.
    rewrite readBoundingBox_write_other by exact Hdiff.
    apply obtainHandle_bounds; [exact Hwf|lia].
  - intros id'. apply get_unchanged; assumption.
Qed.

(** X3. Inserting an identifier that is already indexed keeps its handle and
    takes no new one: the returned handle is the one on record, the number
    of handles in use does not change, and the handle then holds the new box
    with each coordinate rounded to float32 (for a box whose numbers lie
    within the float32 range). *)
Theorem reinsert_keeps_handle (s : t) (id : string) (bbox : BoundingBox) (flags : Z)
    (rec : ObjectRecord) (r : InsertionResult) (s' : t) :
  reachable s ->
  objectIndex s !! id = Some rec ->
  insert s id bbox flags = Ret (r, s') ->
  ir_handle r = rec_handle rec /\
  usedHandles s' = usedHandles s /\
  size (objectIndex s') = size (objectIndex s) /\
  (boxInFloat32Range bbox = true ->
   readBoundingBox s' (rec_handle rec) = Some (float32Box bbox)).
Proof.
  intros Hreach Hrec Hins. pose proof (reachable_handles_wf _ Hreach) as Hwf.
  destruct (insert_spec _ _ _ _ _ _ Hwf Hins)
    as (Hwf' & Hidx & _ & _ & Hbox & _ & _ & _ & Hh).
  assert (Hhandle : ir_handle r = rec_handle rec).
  { rewrite Hh. unfold obtainHandle. rewrite Hrec. reflexivity. }
  assert (Hsize : size (objectIndex s') = size (objectIndex s)).
  { rewrite Hidx. apply map_size_insert_Some. eauto. }
  split; [exact Hhandle|].
  split; [|split; [exact Hsize|intros _; rewrite <- Hhandle; exact Hbox]].
  rewrite (wf_used _ Hwf'), (wf_used _ Hwf), Hsize. reflexivity.
Qed.

(** X4. [remove] is idempotent: once it has returned, removing the same
    identifier again returns the store unchanged; removing an identifier
    leaves every other record of the index as it was. *)
Theorem remove_twice (s : t) (id : string) (s1 : t) :
  reachable s ->
  remove s id = Ret s1 ->
  remove s1 id = Ret s1 /\
  (forall id', id' <> id -> objectIndex s1 !! id' = objectIndex s !! id') /\
  (forall rec, objectIndex s !! id = Some rec ->
     usedHandles s1 = usedHandles s - 1 /\ resolve s1 (rec_handle rec) = None).
Proof.
  intros Hreach Hrem. pose proof (reachable_handles_wf _ Hreach) as Hwf.
  destruct (remove_spec _ _ _ Hwf Hrem) as (Hwf1 & Hidx & _ & _ & _ & _ & Hfree).
  assert (Hnone : objectIndex s1 !! id = None) by (rewrite Hidx; apply lookup_delete_eq).
  split; [unfold remove; rewrite Hnone; reflexivity|].
  split; [intros id' Hne; rewrite Hidx; apply lookup_delete_ne; congruence|].
  intros rec Hrec. destruct (Hfree _ Hrec) as [_ Hids].
  split.
  - rewrite (wf_used _ Hwf1), (wf_used _ Hwf), Hidx.
    rewrite map_size_delete_Some by eauto.
    assert (size (objectIndex s) <> 0%nat).
    { intros Hz. apply map_size_empty_inv in Hz. rewrite Hz in Hrec. discriminate. }
    lia.
  - unfold resolve. rewrite Hids.
    destruct (wf_index _ Hwf _ _ Hrec) as [Hr1 Hr2].
    rewrite tget_tset_eq; [reflexivity|].
    apply tget_Some_range in Hr2. exact Hr2.
Qed.
End IndexOperations.

Section UpdateOperations.
Import ObjectStore.

(** [bumpDynamicCounters] writes counters, the [Dynamic] bit of the handle's
    flags and the list of dynamic handles, nothing else. *)
Lemma bumpDynamicCounters_frame s h :
  let s' := bumpDynamicCounters s h in
  objectBounds s' = objectBounds s /\ objectIndex s' = objectIndex s /\
  handleToId s' = handleToId s /\
  (objectFlags s' = objectFlags s \/
   objectFlags s' = tset (objectFlags s) h
                      (Z.lor (default 0 (tget (objectFlags s) h)) ObjectFlags.Dynamic)).
Proof.
  unfold bumpDynamicCounters.
  repeat match goal with
         | |- context [match ?o with Some _ => _ | None => _ end] => destruct o
         | |- context [if ?b then _ else _] => destruct b
         end; cbn; auto.
Qed.

Lemma land_lor_keeps f g : Z.land (Z.lor f g) f = f.
Proof.
  apply Z.bits_inj'. intros n Hn. rewrite Z.land_spec, Z.lor_spec.
  destruct (Z.testbit f n), (Z.testbit g n); reflexivity.
Qed.

Lemma land_lor_sets f g : Z.land (Z.lor f g) g = g.
Proof.
  apply Z.bits_inj'. intros n Hn. rewrite Z.land_spec, Z.lor_spec.
  destruct (Z.testbit f n), (Z.testbit g n); reflexivity.
Qed.

(** [updateBoundingBox] on an indexed identifier, step by step: the box is
    written, the tree operations leave boxes and flags alone, the two dirty
    bits are set and the counters bumped. *)
Lemma updateBoundingBox_steps s id bbox r s' rec :
  objectIndex s !! id = Some rec ->
  updateBoundingBox s id bbox = Ret (r, s') ->
  exists s1,
    s' = bumpDynamicCounters
           (match tget (objectFlags s1) (rec_handle rec) with
            | Some f =>
                with_objectFlags s1
                  (tset (objectFlags s1) (rec_handle rec)
                        (Z.lor f (Z.lor ObjectFlags.Dirty ObjectFlags.TileCoverageDirty)))
            | None => s1
            end) (rec_handle rec) /\
    objectBounds s1 = objectBounds (writeBoundingBox s (rec_handle rec) bbox) /\
    objectFlags s1 = objectFlags s /\
    ur_handle r = rec_handle rec /\
    (ur_status r = updated \/ ur_status r = moved) /\
    ur_flags r = default 0 (tget (objectFlags s') (rec_handle rec)).
Proof.
  intros Hrec H. unfold updateBoundingBox in H. rewrite Hrec in H.
  apply obind_Ret in H as ([[newNode status] s1] & Hmove & H). injection H as <- <-.
  match type of Hmove with
  | context [fitsNode ?sa _ _] => set (s0 := sa) in *
  end.
  exists s1. split; [reflexivity|].
  assert (Hs1 : objectBounds s1 = objectBounds s0 /\ objectFlags s1 = objectFlags s0 /\
                (status = updated \/ status = moved)).
  { destruct (negb (fitsNode s0 (rec_nodeId rec) bbox)).
    - apply obind_Ret in Hmove as (sb & Hdet & Hmove).
      apply obind_Ret in Hmove as ([n sc] & Hins & Hmove). injection Hmove as <- <- <-.
      pose proof (keeps_detachFromNode _ _ _ _ Hdet) as Hsb.
      pose proof (keeps_insertHandle _ _ _ _ _ _ Hins) as Hsc.
      assert (Hall : handleSide sc = handleSide s0) by congruence.
      apply handleSide_fields in Hall.
      destruct Hall as (_ & _ & _ & _ & E5 & E6 & _).
      store_fields. auto.
    - injection Hmove as <- <- <-. auto. }
  destruct Hs1 as (B & F & St).
  cbn [ur_status ur_handle ur_flags].
  split; [exact B|]. split; [exact F|]. split; [reflexivity|]. split; [exact St|reflexivity].
Qed.

(** X5. [updateBoundingBox] and read-back: for an indexed identifier the call
    reports ['updated'] or ['moved'] with the handle on record, the handle
    then holds the new box with each coordinate rounded to float32 (for a
    box whose numbers lie within the float32 range), every other handle holds
    the box it held, and the handle table is untouched; for an identifier
    that is not indexed the call reports ['failed'] with handle [-1] and
    returns the store as it was. *)
Theorem updateBoundingBox_round_trip (s : t) (id : string) (bbox : BoundingBox)
    (r : UpdateResult) (s' : t) :
  reachable s ->
  updateBoundingBox s id bbox = Ret (r, s') ->
  (forall rec, objectIndex s !! id = Some rec ->
     ur_handle r = rec_handle rec /\
     (ur_status r = updated \/ ur_status r = moved) /\
     (boxInFloat32Range bbox = true ->
      readBoundingBox s' (rec_handle rec) = Some (float32Box bbox)) /\
     (forall h, h <> rec_handle rec -> readBoundingBox s' h = readBoundingBox s h) /\
     (forall h, resolve s' h = resolve s h)) /\
  (objectIndex s !! id = None ->
     ur_status r = failed /\ ur_handle r = -1 /\ s' = s).
Proof.
  intros Hreach Hup. pose proof (reachable_handles_wf _ Hreach) as Hwf.
  split.
  - intros rec Hrec.
    destruct (updateBoundingBox_steps _ _ _ _ _ _ Hrec Hup) as (s1 & Hs' & B & F & Hh & St & _).
    destruct (updateBoundingBox_spec _ _ _ _ _ Hwf Hup) as (_ & Hids & _).
    assert (Hbounds : objectBounds s'
                      = objectBounds (writeBoundingBox s (rec_handle rec) bbox)).
    { rewrite Hs'.
      destruct (bumpDynamicCounters_frame
                  (match tget (objectFlags s1) (rec_handle rec) with
                   | Some f =>
                       with_objectFlags s1
                         (tset (objectFlags s1) (rec_handle rec)
                               (Z.lor f (Z.lor ObjectFlags.Dirty ObjectFlags.TileCoverageDirty)))
                   | None => s1
                   end) (rec_handle rec)) as (E & _).
      rewrite E. destruct (tget (objectFlags s1) (rec_handle rec)); exact B. }
    split; [exact Hh|]. split; [exact St|]. split; [|split].
    + intros _. rewrite (readBoundingBox_ext _ _ _ Hbounds).
      destruct (wf_index _ Hwf _ _ Hrec) as [Hr1 _].
      pose proof (wf_bound _ Hwf). pose proof (wf_len_bounds _ Hwf).
      apply readBoundingBox_write; lia.
    + intros h Hne. rewrite (readBoundingBox_ext _ _ _ Hbounds).
      apply readBoundingBox_write_other. exact Hne.
    + intros h. unfold resolve. rewrite Hids. reflexivity.
  - intros Hnone. unfold updateBoundingBox in Hup. rewrite Hnone in Hup.
    injection Hup as <- <-. auto.
Qed.

(** X6. [updateBoundingBox] never clears a flag: every bit of the object's
    flags that was set stays set, the [Dirty] and [TileCoverageDirty] bits are
    set afterwards, and the flags of every other handle are unchanged. *)
Theorem updateBoundingBox_only_sets_flags (s : t) (id : string) (bbox : BoundingBox)
    (r : UpdateResult) (s' : t) (rec : ObjectRecord) :
  reachable s ->
  objectIndex s !! id = Some rec ->
  updateBoundingBox s id bbox = Ret (r, s') ->
  exists f f',
    tget (objectFlags s) (rec_handle rec) = Some f /\
    tget (objectFlags s') (rec_handle rec) = Some f' /\
    Z.land f' f = f /\
    Z.land f' ObjectFlags.Dirty = ObjectFlags.Dirty /\
    Z.land f' ObjectFlags.TileCoverageDirty = ObjectFlags.TileCoverageDirty /\
    ur_flags r = f' /\
    (forall h, h <> rec_handle rec -> tget (objectFlags s') h = tget (objectFlags s) h).
Proof.
  intros Hreach Hrec Hup. pose proof (reachable_handles_wf _ Hreach) as Hwf.
  destruct (updateBoundingBox_steps _ _ _ _ _ _ Hrec Hup) as (s1 & Hs' & _ & F & _ & _ & Hfl).
  destruct (wf_index _ Hwf _ _ Hrec) as [Hr1 _].
  pose proof (wf_bound _ Hwf) as Hb. pose proof (wf_len_flags _ Hwf) as Lf.
  assert (Hrange : 0 <= rec_handle rec < tlen (objectFlags s)) by lia.
  destruct (tget_in_range _ _ Hrange) as [f Hf].
  set (dirty := Z.lor ObjectFlags.Dirty ObjectFlags.TileCoverageDirty).
  set (sd := with_objectFlags s1 (tset (objectFlags s1) (rec_handle rec) (Z.lor f dirty))).
  assert (Hsd : s' = bumpDynamicCounters sd (rec_handle rec)).
  { rewrite Hs'. rewrite <- F in Hf. rewrite Hf. reflexivity. }
  assert (Hfd : tget (objectFlags sd) (rec_handle rec) = Some (Z.lor f dirty)).
  { unfold sd. cbn. rewrite F. apply tget_tset_eq. exact Hrange. }
  assert (Hother : forall h, h <> rec_handle rec ->
                     tget (objectFlags sd) h = tget (objectFlags s) h).
  { intros h Hne. unfold sd. cbn. rewrite F. apply tget_tset_ne. congruence. }
  assert (Hdirty : forall g, Z.land (Z.lor f dirty) g = g ->
                     Z.land (Z.lor (Z.lor f dirty) ObjectFlags.Dynamic) g = g).
  { intros g Hg. apply Z.bits_inj'. intros n Hn.
    apply (f_equal (fun z => Z.testbit z n)) in Hg.
    rewrite Z.land_spec in Hg. rewrite Z.land_spec, Z.lor_spec. revert Hg.
    destruct (Z.testbit (Z.lor f dirty) n), (Z.testbit g n); simpl; intros Hg;
      rewrite ?andb_false_r; try reflexivity; discriminate. }
  assert (Hf1 : Z.land (Z.lor f dirty) f = f) by apply land_lor_keeps.
  assert (Hf2 : Z.land (Z.lor f dirty) ObjectFlags.Dirty = ObjectFlags.Dirty).
  { apply Z.bits_inj'. intros n Hn. unfold dirty.
    rewrite Z.land_spec, !Z.lor_spec.
    destruct (Z.testbit f n), (Z.testbit ObjectFlags.Dirty n),
             (Z.testbit ObjectFlags.TileCoverageDirty n); reflexivity. }
  assert (Hf3 : Z.land (Z.lor f dirty) ObjectFlags.TileCoverageDirty
                = ObjectFlags.TileCoverageDirty).
  { apply Z.bits_inj'. intros n Hn. unfold dirty.
    rewrite Z.land_spec, !Z.lor_spec.
    destruct (Z.testbit f n), (Z.testbit ObjectFlags.Dirty n),
             (Z.testbit ObjectFlags.TileCoverageDirty n); reflexivity. }
  destruct (bumpDynamicCounters_frame sd (rec_handle rec)) as (_ & _ & _ & [E|E]).
  - exists f, (Z.lor f dirty). rewrite Hfl, Hsd, E, Hfd.
    split; [exact Hf|]. split; [reflexivity|]. split; [exact Hf1|].
    split; [exact Hf2|]. split; [exact Hf3|]. split; [reflexivity|exact Hother].
  - exists f, (Z.lor (Z.lor f dirty) ObjectFlags.Dynamic).
    rewrite Hfl, Hsd, E, Hfd. cbn [default from_option Datatypes.id].
    assert (Hrd : 0 <= rec_handle rec < tlen (objectFlags sd)).
    { apply tget_Some_range in Hfd. exact Hfd. }
    rewrite tget_tset_eq by exact Hrd.
    split; [exact Hf|]. split; [reflexivity|]. split; [apply Hdirty; exact Hf1|].
    split; [apply Hdirty; exact Hf2|]. split; [apply Hdirty; exact Hf3|].
    split; [reflexivity|].
    intros h Hne. rewrite tget_tset_ne by congruence. apply Hother. exact Hne.
Qed.
End UpdateOperations.

Section QueryResults.
Import ObjectStore.

(** What [findInBounds] tests before it writes a handle: the slot of the
    handle table is occupied, the [Deleted] bit is clear, the stored box
    meets the query rectangle, and the [Dynamic] bit is clear unless dynamic
    objects are asked for. *)
Definition reportable (s : t) (bounds : BoundingBox) (incl : bool) (h : Z) : Prop :=
  0 <= h < objectCapacity s /\
  truthyId (mjoin (tget (handleToId s) h)) = true /\
  Z.land (default 0 (tget (objectFlags s) h)) ObjectFlags.Deleted = 0 /\
  (exists bbox, readBoundingBox s h = Some bbox /\ bboxIntersects bbox bounds = true) /\
  (incl = false -> Z.land (default 0 (tget (objectFlags s) h)) ObjectFlags.Dynamic = 0).

(** The first [n] cells of the buffer hold reportable handles, the other
    cells are those of [out0]. *)
Definition filled (s0 : t) (bounds : BoundingBox) (incl : bool) (out0 out : list Z) (n : Z) : Prop :=
  tlen out = tlen out0 /\
  (forall i, 0 <= i < n -> i < tlen out0 ->
     exists h, tget out i = Some h /\ reportable s0 bounds incl h) /\
  (forall i, n <= i -> tget out i = tget out0 i).

Lemma filled_push s0 bounds incl out0 out n h :
  filled s0 bounds incl out0 out n -> 0 <= n -> reportable s0 bounds incl h ->
  filled s0 bounds incl out0 (tset out n h) (n + 1).
Proof.
  intros (Hlen & Hlow & Hhigh) Hn Hrep. split; [|split].
  - rewrite tlen_tset. exact Hlen.
  - intros i Hi Hi'. rewrite tget_tset. case_bool_decide as Hc.
    + eauto.
    + apply Hlow; [|exact Hi']. destruct (decide (i = n)) as [->|]; [|lia].
      exfalso. apply Hc. rewrite Hlen. split; [reflexivity|lia].
  - intros i Hi. rewrite tget_tset_ne by lia. apply Hhigh. lia.
Qed.

(** The part of the store the tests of [findInBounds] read. *)
Definition tested (s : t) :=
  (handleToId s, objectFlags s, objectBounds s, objectCapacity s).

Lemma tested_detachRef s nodeId ref prevRef handle :
  tested (detachRef s nodeId ref prevRef handle) = tested s.
Proof.
  pose proof (handleSide_detachRef s nodeId ref prevRef handle) as E.
  apply handleSide_fields in E.
  destruct E as (_ & _ & E3 & _ & E5 & E6 & _ & _ & _ & E10 & _).
  unfold tested. rewrite E3, E5, E6, E10. reflexivity.
Qed.

Lemma reportable_ext s s' bounds incl h :
  tested s' = tested s -> reportable s' bounds incl h -> reportable s bounds incl h.
Proof.
  unfold tested, reportable, readBoundingBox. intros [= -> -> -> ->]. auto.
Qed.

Lemma walkRefs_filled remaining :
  forall s nodeId bounds incl mode out count ref prevRef s0 out0,
    tested s = tested s0 ->
    filled s0 bounds incl out0 out count -> 0 <= count -> (count = 0 \/ count < tlen out0) ->
    match walkRefs remaining s nodeId bounds incl mode out count ref prevRef with
    | WalkFull s' out' n =>
        tested s' = tested s0 /\
        filled s0 bounds incl out0 out' n /\ 0 <= n <= Z.max 1 (tlen out0)
    | WalkDone s' out' n _ =>
        tested s' = tested s0 /\
        filled s0 bounds incl out0 out' n /\ 0 <= n /\ (n = 0 \/ n < tlen out0)
    end.
Proof.
  induction remaining as [|remaining IH];
    intros s nodeId bounds incl mode out count ref prevRef s0 out0 Hsame Hw Hc Hroom; simpl.
  - destruct (ref =? -1); auto.
  - destruct (ref =? -1); [auto|].
    destruct (_ || _); [auto|].
    destruct (staleHandle s nodeId _) eqn:Hstale.
    + destruct (tget (objectRefNext s) ref) as [nextRef|]; [|auto].
      apply IH; auto. rewrite tested_detachRef. exact Hsame.
    + set (handle := default 0 (tget (objectRefHandle s) ref)) in *.
      match goal with
      | |- context [if ?hit && (tlen out <=? _) then _ else _] => destruct hit eqn:Hhit
      end; cbn [andb].
      * assert (Hrep : reportable s0 bounds incl handle).
        { apply (reportable_ext s0 s); [exact Hsame|].
          unfold staleHandle in Hstale.
          repeat (apply orb_false_iff in Hstale as [Hstale ?]).
          apply andb_true_iff in Hhit as [Hhit Hdyn].
          apply andb_true_iff in Hhit as [_ Hbox].
          split; [apply Z.ltb_ge in Hstale; match goal with
                    H : (objectCapacity s <=? handle) = false |- _ => apply Z.leb_gt in H end;
                  lia|].
          split; [by apply negb_false_iff|].
          split; [apply Z.eqb_eq; by apply negb_false_iff|].
          split.
          - destruct (readBoundingBox s handle) as [bbox|]; [|discriminate]. eauto.
          - intros ->. simpl in Hdyn. apply Z.eqb_eq. exact Hdyn. }
        assert (Hw' : filled s0 bounds incl out0 (tset out count handle) (count + 1))
          by (apply filled_push; auto).
        destruct Hw as (Hlen & _). rewrite Hlen.
        destruct (Z.leb_spec (tlen out0) (count + 1)).
        -- repeat split; auto; try apply Hw'; lia.
        -- destruct (tget (objectRefNext s) ref) as [nextRef|].
           ++ apply IH; auto; lia.
           ++ repeat split; auto; try apply Hw'; lia.
      * destruct (tget (objectRefNext s) ref) as [nextRef|]; [apply IH; auto|auto].
Qed.

Lemma visitNodes_filled visits :
  forall s bounds incl mode out count stack s0 out0,
    tested s = tested s0 ->
    filled s0 bounds incl out0 out count -> 0 <= count -> (count = 0 \/ count < tlen out0) ->
    let '(c, out', s') := visitNodes visits s bounds incl mode out count stack in
    exists n, (c = n \/ c = 0) /\ filled s0 bounds incl out0 out' n /\
              0 <= n <= Z.max 1 (tlen out0).
Proof.
  induction visits as [|visits IH];
    intros s bounds incl mode out count stack s0 out0 Hsame Hw Hc Hroom.
  - destruct stack; simpl; exists count; (split; [auto|split; [exact Hw|lia]]).
  - destruct stack as [|top stack]; simpl; [exists count; split; [auto|split; [exact Hw|lia]]|].
    destruct top as [nodeId|]; [|apply IH; auto].
    destruct (negb _); [apply IH; auto|].
    destruct (NodePool.getFirstObject _ _) as [firstRef|],
             (NodePool.getObjectCount _ _) as [expected|];
      try (apply IH; auto);
      try (exists count; split; [auto|split; [exact Hw|lia]]).
    pose proof (walkRefs_filled (Z.to_nat (expected * 2 + 10)) s nodeId bounds incl mode out
                  count firstRef (-1) s0 out0 Hsame Hw Hc Hroom) as Hwalk.
    destruct (walkRefs _ _ _ _ _ _ _ _ _ _) as [s1 out1 n|s1 out1 n [|k]].
    + destruct Hwalk as (_ & W & R). exists n. auto.
    + destruct Hwalk as (_ & W & R1 & R2). exists n. split; [auto|split; [exact W|lia]].
    + destruct Hwalk as (I1 & W & R1 & R2). apply IH; auto.
Qed.

Lemma findInBounds_filled s bounds out o :
  let '(count, out', s') := findInBounds s bounds out o in
  exists n, (count = n \/ count = 0) /\
            filled s bounds (default true (includeDynamic o)) out out' n /\
            0 <= n <= Z.max 1 (tlen out).
Proof.
  unfold findInBounds. apply visitNodes_filled; auto; try lia.
  split; [reflexivity|]. split; [intros; lia|reflexivity].
Qed.

(** X7. [findInBounds] never writes past the buffer and never reports more
    than it holds, an empty buffer apart: the buffer keeps its length, and the
    returned count is at most the length of the buffer when the buffer has a
    cell, and at most [1] when it has none. *)
Theorem findInBounds_count_within_buffer (s : t) (bounds : BoundingBox) (out : list Z)
    (o : FindOptions) :
  let '(count, out', _) := findInBounds s bounds out o in
  tlen out' = tlen out /\ 0 <= count <= Z.max 1 (tlen out).
Proof.
  pose proof (findInBounds_filled s bounds out o) as H.
  destruct (findInBounds s bounds out o) as [[count out'] s'].
  destruct H as (n & Hc & (Hlen & _) & Hn).
  split; [exact Hlen|]. destruct Hc as [->| ->]; lia.
Qed.

(** X8. Every handle [findInBounds] reports passed its tests on the store
    the query started from: each of the first [count] cells of the buffer
    holds a handle of the arena whose slot in the handle table is occupied,
    whose [Deleted] bit is clear and whose stored box meets the query
    rectangle; with [includeDynamic: false] its [Dynamic] bit is clear too. *)
Theorem findInBounds_reports_tested_handles (s : t) (bounds : BoundingBox) (out : list Z)
    (o : FindOptions) :
  let '(count, out', _) := findInBounds s bounds out o in
  forall i h, 0 <= i < count -> tget out' i = Some h ->
    0 <= h < objectCapacity s /\
    (exists id, resolve s h = Some id /\ id <> EmptyString) /\
    Z.land (default 0 (tget (objectFlags s) h)) ObjectFlags.Deleted = 0 /\
    (exists bbox, readBoundingBox s h = Some bbox /\ bboxIntersects bbox bounds = true) /\
    (includeDynamic o = Some false ->
     Z.land (default 0 (tget (objectFlags s) h)) ObjectFlags.Dynamic = 0).
Proof.
  pose proof (findInBounds_filled s bounds out o) as H.
  destruct (findInBounds s bounds out o) as [[count out'] s'].
  destruct H as (n & Hc & (Hlen & Hlow & _) & Hn).
  intros i h Hi Hget.
  assert (Hin : 0 <= i < n) by (destruct Hc as [->| ->]; lia).
  assert (Hlt : i < tlen out).
  { apply tget_Some_range in Hget. lia. }
  destruct (Hlow i Hin Hlt) as (h' & Hh' & R1 & R2 & R3 & R4 & R5).
  rewrite Hget in Hh'. injection Hh' as <-.
  split; [exact R1|]. split; [|split; [exact R3|split; [exact R4|]]].
  - unfold resolve. destruct (mjoin (tget (handleToId s) h)) as [id|]; [|discriminate].
    exists id. split; [reflexivity|]. simpl in R2.
    intros ->. rewrite bool_decide_eq_true_2 in R2 by reflexivity. discriminate.
  - intros Ho. apply R5. rewrite Ho. reflexivity.
Qed.

(** The reference arrays keep their lengths. *)
Lemma refLengths_detachRef s nodeId refIndex prevRef handle :
  tlen (objectRefHandle (detachRef s nodeId refIndex prevRef handle)) = tlen (objectRefHandle s) /\
  tlen (objectRefNext (detachRef s nodeId refIndex prevRef handle)) = tlen (objectRefNext s).
Proof.
  unfold detachRef.
  destruct (prevRef =? -1); cbn;
    repeat match goal with |- context [if ?b then _ else _] => destruct b end;
    cbn; rewrite ?tlen_tset; split; reflexivity.
Qed.

Lemma refLengths_walkRefs remaining s nodeId bounds incl mode out count ref prevRef :
  match walkRefs remaining s nodeId bounds incl mode out count ref prevRef with
  | WalkFull s' _ _ | WalkDone s' _ _ _ =>
      tlen (objectRefHandle s') = tlen (objectRefHandle s) /\
      tlen (objectRefNext s') = tlen (objectRefNext s)
  end.
Proof.
  revert s out count ref prevRef.
  induction remaining as [|remaining IH]; intros s out count ref prevRef; simpl.
  - destruct (ref =? -1); split; reflexivity.
  - destruct (ref =? -1); [split; reflexivity|].
    destruct (_ || _); [split; reflexivity|].
    destruct (staleHandle _ _ _).
    + destruct (tget (objectRefNext s) ref) as [nextRef|]; [|split; reflexivity].
      specialize (IH (detachRef s nodeId ref prevRef (default 0 (tget (objectRefHandle s) ref)))
                     out count nextRef prevRef).
      destruct (refLengths_detachRef s nodeId ref prevRef
                  (default 0 (tget (objectRefHandle s) ref))) as [D1 D2].
      destruct (walkRefs _ _ _ _ _ _ _ _ _ _); destruct IH as [I1 I2];
        split; congruence.
    + destruct (_ && (_ <=? _)); [split; reflexivity|].
      destruct (tget (objectRefNext s) ref) as [nextRef|]; [|split; reflexivity].
      apply IH.
Qed.

Lemma refLengths_visitNodes visits s bounds incl mode out count stack :
  let s' := snd (visitNodes visits s bounds incl mode out count stack) in
  tlen (objectRefHandle s') = tlen (objectRefHandle s) /\
  tlen (objectRefNext s') = tlen (objectRefNext s).
Proof.
  revert s out count stack.
  induction visits as [|visits IH]; intros s out count stack.
  - destruct stack; split; reflexivity.
  - destruct stack as [|top stack]; [split; reflexivity|]. simpl.
    destruct top as [nodeId|]; [|apply IH].
    destruct (negb _); [apply IH|].
    destruct (NodePool.getFirstObject _ _) as [firstRef|],
             (NodePool.getObjectCount _ _) as [expected|];
      try apply IH; try (split; reflexivity).
    pose proof (refLengths_walkRefs (Z.to_nat (expected * 2 + 10)) s nodeId bounds incl mode
                  out count firstRef (-1)) as Hw.
    destruct (walkRefs _ _ _ _ _ _ _ _ _ _) as [s1 out1 count1|s1 out1 count1 [|k]];
      try exact Hw.
    destruct (IH s1 out1 count1 (pushChildren s1 nodeId stack)) as [I1 I2].
    destruct Hw as [W1 W2]. cbn zeta. split; congruence.
Qed.

Lemma refLengths_findInBounds s bounds out o :
  let s' := snd (findInBounds s bounds out o) in
  tlen (objectRefHandle s') = tlen (objectRefHandle s) /\
  tlen (objectRefNext s') = tlen (objectRefNext s).
Proof. apply refLengths_visitNodes. Qed.

(** What a query leaves as it was. *)
Lemma findInBounds_frame (s : t) (bounds : BoundingBox) (out : list Z) (o : FindOptions) :
  let s' := snd (findInBounds s bounds out o) in
  objectIndex s' = objectIndex s /\
  handleToId s' = handleToId s /\
  (forall h, readBoundingBox s' h = readBoundingBox s h) /\
  objectFlags s' = objectFlags s /\
  objectUpdateCounter s' = objectUpdateCounter s /\
  objectWindowCounter s' = objectWindowCounter s /\
  usedHandles s' = usedHandles s /\
  handleFreeList s' = handleFreeList s /\
  (forall id, get s' id = get s id).
Proof.
  intros s'. pose proof (handleSide_findInBounds s bounds out o) as E.
  apply handleSide_fields in E.
  destruct E as (_ & E2 & E3 & E4 & E5 & E6 & E7 & E8 & _ & _ & E11 & _ & E13 & _ & E15 & _).
  repeat split; try assumption.
  - intros h. apply readBoundingBox_ext. exact E5.
  - intros id. apply get_unchanged; assumption.
Qed.

(** X9. A query reads the objects and leaves them alone: after
    [findInBounds] the index, the handle table, the boxes, the flags, the
    update counters, the number of handles in use and what [get] returns are
    what they were.  What the purge of stale references can change is
    confined to the reference lists and their bookkeeping: the first
    reference and the object count of a node, the link cells [objectNode] and
    [objectRefIndex] of a purged handle, the reference cells and the free
    list of references.  Everything else in the store is as before: the
    options, the object map, the list of dynamic handles, the capacities, the
    root, and the bounds, parents, children, depths, flags, free list and
    high-water mark of the node pool. *)
Theorem findInBounds_leaves_objects_alone (s : t) (bounds : BoundingBox) (out : list Z)
    (o : FindOptions) :
  let s' := snd (findInBounds s bounds out o) in
  objectIndex s' = objectIndex s /\
  handleToId s' = handleToId s /\
  (forall h, readBoundingBox s' h = readBoundingBox s h) /\
  objectFlags s' = objectFlags s /\
  objectUpdateCounter s' = objectUpdateCounter s /\
  objectWindowCounter s' = objectWindowCounter s /\
  usedHandles s' = usedHandles s /\
  handleFreeList s' = handleFreeList s /\
  (forall id, get s' id = get s id) /\
  handleSide s' = handleSide s /\
  treeShape s' = treeShape s /\
  tlen (objectRefHandle s') = tlen (objectRefHandle s) /\
  tlen (objectRefNext s') = tlen (objectRefNext s).
Proof.
  intros s'.
  destruct (findInBounds_frame s bounds out o) as (F1 & F2 & F3 & F4 & F5 & F6 & F7 & F8 & F9).
  fold s' in F1, F2, F3, F4, F5, F6, F7, F8, F9.
  pose proof (handleSide_findInBounds s bounds out o) as Hs.
  pose proof (treeShape_findInBounds s bounds out o) as Ht.
  destruct (refLengths_findInBounds s bounds out o) as [L1 L2].
  exact (conj F1 (conj F2 (conj F3 (conj F4 (conj F5 (conj F6 (conj F7 (conj F8 (conj F9
           (conj Hs (conj Ht (conj L1 L2)))))))))))).
Qed.
End QueryResults.

(** ** The legacy entry points of the index and the command stack *)

Module ObjectStoreLegacy.
Import ObjectStore.

(** [bulkLoad(objects, reuseBuffers)]: the loop, with the running count. *)
Fixpoint bulkLoadLoop (s : t) (objects : list DrawObject.t) (reuseBuffers : bool) (count : Z)
    : outcome (Z * t) :=
  match objects with
  | [] => Ret (count, s)
  | obj :: objects =>
      let '(obj, bbox) := DrawObject.ensureBoundingBox obj in
      let s := with_objectStore s (<[DrawObject.id obj := obj]> (objectStore s)) in
      do r <- insert s (DrawObject.id obj) bbox
                (if reuseBuffers then ObjectFlags.Static else ObjectFlags.None_);
      bulkLoadLoop (snd r) objects reuseBuffers (count + 1)
  end.

Definition bulkLoad (s : t) (objects : list DrawObject.t) (reuseBuffers : bool)
    : outcome (Z * t) :=
  bulkLoadLoop s objects reuseBuffers 0.

(** [findObjectsIn(bounds)]: the query runs on a rectangle of twice the
    width and height, into a scratch buffer of [objectCapacity] cells; a cell
    read past the buffer is [undefined] and yields no object. *)
Definition findObjectsIn (s : t) (bounds : Rectangle.t) : list DrawObject.t * t :=
  let paddedBounds :=   (* new Float32Array([...]) *)
    float32Box (mkBBox (Rectangle.x bounds) (Rectangle.y bounds)
                       (Rectangle.width bounds * 2) (Rectangle.height bounds * 2)) in
  let stackBuffer := tnew (objectCapacity s) 0 in
  let '(resultCount, stackBuffer, s) :=
    findInBounds s paddedBounds stackBuffer (mkFindOptions (Some true) None) in
  (omap (fun i =>
           match tget stackBuffer i with
           | None => None
           | Some handle =>
               if (handle <? 0) || (tlen (handleToId s) <=? handle) then None
               else match mjoin (tget (handleToId s) handle) with
                    | Some id => if truthyId (Some id) then get s id else None
                    | None => None
                    end
           end) (seqZ 0 resultCount), s).

(** [collectDynamicObjects(outBuffer)]: the loop over
    [dynamicHandles[0 .. dynamicHandleCount)]. *)
Fixpoint collectLoop (s : t) (out : list Z) (count : Z) (indices : list Z) : Z * list Z :=
  match indices with
  | [] => (count, out)
  | i :: indices =>
      match tget (dynamicHandles s) i with
      | None => collectLoop s out count indices   (* [handle === undefined] *)
      | Some handle =>
          let flags := default 0 (tget (objectFlags s) handle) in
          if negb (Z.land flags ObjectFlags.Dynamic =? 0) &&
             (Z.land flags ObjectFlags.Deleted =? 0)
          then
            let out := tset out count handle in
            let count := count + 1 in
            if tlen out <=? count then (count, out) else collectLoop s out count indices
          else collectLoop s out count indices
      end
  end.

Definition collectDynamicObjects (s : t) (outBuffer : list Z) : Z * list Z :=
  collectLoop s outBuffer 0 (seqZ 0 (dynamicHandleCount s)).

End ObjectStoreLegacy.

(** Commands.ts: each command holds its arguments and runs one operation of
    the store. *)
Module AddObjectCommand.
Definition do_ (obj : DrawObject.t) (store : ObjectStore.t) : outcome ObjectStore.t :=
  ObjectStore.add store obj.
Definition undo (obj : DrawObject.t) (store : ObjectStore.t) : outcome ObjectStore.t :=
  ObjectStore.remove store (DrawObject.id obj).
End AddObjectCommand.

Module RemoveObjectCommand.
Definition do_ (id : string) (obj : DrawObject.t) (store : ObjectStore.t)
    : outcome ObjectStore.t :=
  ObjectStore.remove store id.
Definition undo (id : string) (obj : DrawObject.t) (store : ObjectStore.t)
    : outcome ObjectStore.t :=
  ObjectStore.add store obj.
End RemoveObjectCommand.

Module UpdateObjectCommand.
Definition do_ (id : string) (oldObj newObj : DrawObject.t) (store : ObjectStore.t)
    : outcome ObjectStore.t :=
  ObjectStore.update store id newObj.
Definition undo (id : string) (oldObj newObj : DrawObject.t) (store : ObjectStore.t)
    : outcome ObjectStore.t :=
  ObjectStore.update store id oldObj.
End UpdateObjectCommand.

Section LegacyOperations.
Import ObjectStore ObjectStoreLegacy.

Lemma ensureBoundingBox_spec obj :
  let '(obj', bbox) := DrawObject.ensureBoundingBox obj in
  DrawObject.id obj' = DrawObject.id obj /\ DrawObject.bbox obj' = Some bbox /\
  DrawObject.zIndex obj' = DrawObject.zIndex obj /\
  bbox = default (DrawObject.geometryBox obj) (DrawObject.bbox obj).
Proof.
  unfold DrawObject.ensureBoundingBox. destruct (DrawObject.bbox obj) eqn:E; cbn; auto.
Qed.

(** The object [add] files: the box is made sure of, and a missing or zero
    draw order is replaced by the size of the object map. *)
Definition filed (s : t) (obj : DrawObject.t) : DrawObject.t :=
  let '(obj, bbox) := DrawObject.ensureBoundingBox obj in
  match DrawObject.zIndex obj with
  | Some z => if z =? 0
              then DrawObject.mk (DrawObject.id obj) (DrawObject.bbox obj)
                     (Some (Z.of_nat (size (objectStore s)))) (DrawObject.geometryBox obj)
              else obj
  | None => DrawObject.mk (DrawObject.id obj) (DrawObject.bbox obj)
              (Some (Z.of_nat (size (objectStore s)))) (DrawObject.geometryBox obj)
  end.

Lemma filed_spec s obj :
  DrawObject.id (filed s obj) = DrawObject.id obj /\
  DrawObject.bbox (filed s obj) = Some (snd (DrawObject.ensureBoundingBox obj)).
Proof.
  unfold filed, DrawObject.ensureBoundingBox.
  destruct (DrawObject.bbox obj) eqn:E; cbn [snd].
  - destruct (DrawObject.zIndex obj) as [z|]; [destruct (z =? 0)|]; cbn; auto.
  - cbn. destruct (DrawObject.zIndex obj) as [z|]; [destruct (z =? 0)|]; cbn; auto.
Qed.

(** [add] files the object, then inserts or updates its box. *)
Lemma add_steps s obj s' :
  add s obj = Ret s' ->
  let id := DrawObject.id obj in
  let bbox := snd (DrawObject.ensureBoundingBox obj) in
  let s0 := with_objectStore s (<[id := filed s obj]> (objectStore s)) in
  match objectIndex s !! id with
  | Some _ => exists r, updateBoundingBox s0 id bbox = Ret (r, s')
  | None => exists r, insert s0 id bbox ObjectFlags.None_ = Ret (r, s')
  end.
Proof.
  intros H. pose proof (filed_spec s obj) as [Hid _]. revert H Hid.
  unfold add, filed.
  destruct (DrawObject.ensureBoundingBox obj) as [obj1 bbox] eqn:He. cbn [snd].
  pose proof (ensureBoundingBox_spec obj) as Hs. rewrite He in Hs.
  destruct Hs as (Hi & _).
  set (obj2 := match DrawObject.zIndex obj1 with Some _ => _ | None => _ end).
  intros H Hid. rewrite Hid in H. cbn [objectIndex with_objectStore] in H.
  destruct (objectIndex s !! DrawObject.id obj).
  - apply obind_Ret in H as ([r s1] & H1 & H2). injection H2 as <-. eauto.
  - apply obind_Ret in H as ([r s1] & H1 & H2). injection H2 as <-. eauto.
Qed.

(** [add] files the object in the object map and its box, as float32 cells
    hold it, in the index. *)
Lemma add_files_object (s : t) (obj : DrawObject.t) (s' : t) :
  reachable s ->
  externalGetter s = None ->
  add s obj = Ret s' ->
  let id := DrawObject.id obj in
  let bbox := snd (DrawObject.ensureBoundingBox obj) in
  get s' id = Some (filed s obj) /\
  DrawObject.bbox (filed s obj) = Some bbox /\
  (forall id', id' <> id -> get s' id' = get s id') /\
  exists rec, objectIndex s' !! id = Some rec /\
              resolve s' (rec_handle rec) = Some id /\
              readBoundingBox s' (rec_handle rec) = Some (float32Box bbox).
Proof.
  intros Hreach Hext Hadd id bbox.
  pose proof (reachable_handles_wf _ Hreach) as Hwf.
  pose proof (add_steps _ _ _ Hadd) as Hsteps. cbn zeta in Hsteps. fold id bbox in Hsteps.
  set (s0 := with_objectStore s (<[id := filed s obj]> (objectStore s))) in *.
  assert (Hwf0 : handles_wf s0) by (apply handles_wf_with_objectStore; exact Hwf).
  assert (Hreach0 : objectStore s0 = <[id := filed s obj]> (objectStore s) /\
                    externalGetter s0 = None /\ objectIndex s0 = objectIndex s /\
                    handleToId s0 = handleToId s).
  { unfold s0. cbn. auto. }
  destruct Hreach0 as (Hst0 & Hext0 & Hidx0 & Hids0).
  assert (Hgets : objectStore s' = objectStore s0 /\ externalGetter s' = externalGetter s0 ->
                  get s' id = Some (filed s obj) /\
                  (forall id', id' <> id -> get s' id' = get s id')).
  { intros [E1 E2]. unfold get. rewrite E2, Hext0, Hext, E1, Hst0.
    split; [apply lookup_insert_eq|]. intros id' Hne. apply lookup_insert_ne. congruence. }
  destruct (filed_spec s obj) as [_ Hfb]. fold bbox in Hfb.
  destruct (objectIndex s !! id) as [rec|] eqn:Hrec.
  - destruct Hsteps as (r & Hup).
    assert (Hrec0 : objectIndex s0 !! id = Some rec) by (rewrite Hidx0; exact Hrec).
    destruct (updateBoundingBox_spec _ _ _ _ _ Hwf0 Hup) as (Hwf' & Hids & Hst & Hget & _ & Hrecs).
    destruct (updateBoundingBox_steps _ _ _ _ _ _ Hrec0 Hup) as (s1 & Hs' & B & _).
    destruct (Hgets (conj Hst Hget)) as [G1 G2].
    split; [exact G1|]. split; [exact Hfb|]. split; [exact G2|].
    specialize (Hrecs id). rewrite Hrec0 in Hrecs. cbn in Hrecs.
    destruct (objectIndex s' !! id) as [rec'|] eqn:Hrec'; [|discriminate].
    cbn in Hrecs. injection Hrecs as Hh.
    exists rec'. split; [reflexivity|].
    destruct (wf_index _ Hwf' _ _ Hrec') as [Hr1 Hr2].
    split; [unfold resolve; rewrite Hr2; reflexivity|].
    assert (Hbounds : objectBounds s' = objectBounds (writeBoundingBox s0 (rec_handle rec) bbox)).
    { rewrite Hs'.
      destruct (bumpDynamicCounters_frame
                  (match tget (objectFlags s1) (rec_handle rec) with
                   | Some f =>
                       with_objectFlags s1
                         (tset (objectFlags s1) (rec_handle rec)
                               (Z.lor f (Z.lor ObjectFlags.Dirty ObjectFlags.TileCoverageDirty)))
                   | None => s1
                   end) (rec_handle rec)) as (E & _).
      rewrite E. destruct (tget (objectFlags s1) (rec_handle rec)); exact B. }
    rewrite (readBoundingBox_ext _ _ _ Hbounds), Hh.
    destruct (wf_index _ Hwf0 _ _ Hrec0) as [Hq1 _].
    pose proof (wf_bound _ Hwf0). pose proof (wf_len_bounds _ Hwf0).
    apply readBoundingBox_write; lia.
  - destruct Hsteps as (r & Hins).
    destruct (insert_spec _ _ _ _ _ _ Hwf0 Hins)
      as (Hwf' & Hidx & _ & Hslot & Hbox & Hst & Hget & _).
    destruct (Hgets (conj Hst Hget)) as [G1 G2].
    split; [exact G1|]. split; [exact Hfb|]. split; [exact G2|].
    eexists. rewrite Hidx, lookup_insert_eq. split; [reflexivity|]. cbn.
    split; [unfold resolve; rewrite Hslot; reflexivity|exact Hbox].
Qed.

(** X10. [add] then [get]: in a store without an external getter, when
    [add(obj)] returns, [get(obj.id)] returns the object as filed, with its
    box made sure of, what [get] returns for every other identifier is
    unchanged, the index holds the object's identifier, and the handle on
    record resolves to the identifier and holds that box with each coordinate
    rounded to float32 (for a box whose numbers lie within the float32
    range). *)
Theorem add_then_get (s : t) (obj : DrawObject.t) (s' : t) :
  reachable s ->
  externalGetter s = None ->
  add s obj = Ret s' ->
  let id := DrawObject.id obj in
  let bbox := snd (DrawObject.ensureBoundingBox obj) in
  get s' id = Some (filed s obj) /\
  DrawObject.bbox (filed s obj) = Some bbox /\
  (forall id', id' <> id -> get s' id' = get s id') /\
  exists rec, objectIndex s' !! id = Some rec /\
              resolve s' (rec_handle rec) = Some id /\
              (boxInFloat32Range bbox = true ->
               readBoundingBox s' (rec_handle rec) = Some (float32Box bbox)).
Proof.
  intros Hreach Hext Hadd id bbox.
  destruct (add_files_object s obj s' Hreach Hext Hadd) as (G1 & G2 & G3 & rec & R1 & R2 & R3).
  split; [exact G1|]. split; [exact G2|]. split; [exact G3|].
  exists rec. split; [exact R1|]. split; [exact R2|]. intros _. exact R3.
Qed.

(** X11. Undoing an [AddObjectCommand]: in a store without an external
    getter, after [do] and [undo] the index holds no record of the object and
    no handle resolves to it, yet [get] still returns the object: [remove]
    never deletes from the object map. *)
Theorem add_command_undo_keeps_object (s : t) (obj : DrawObject.t) (s1 s2 : t) :
  reachable s ->
  externalGetter s = None ->
  AddObjectCommand.do_ obj s = Ret s1 ->
  AddObjectCommand.undo obj s1 = Ret s2 ->
  objectIndex s2 !! DrawObject.id obj = None /\
  (forall h, resolve s2 h <> Some (DrawObject.id obj)) /\
  get s2 (DrawObject.id obj) = Some (filed s obj).
Proof.
  unfold AddObjectCommand.do_, AddObjectCommand.undo. intros Hreach Hext Hadd Hrem.
  pose proof (add_files_object _ _ _ Hreach Hext Hadd) as (G & _).
  assert (Hreach1 : reachable s1) by (eapply reach_add; eauto).
  pose proof (reachable_handles_wf _ Hreach1) as Hwf1.
  destruct (remove_spec _ _ _ Hwf1 Hrem) as (_ & Hidx & Hno & Hst & Hget & _).
  split; [rewrite Hidx; apply lookup_delete_eq|]. split.
  - intros h Hh. apply (Hno h). unfold resolve in Hh.
    destruct (tget (handleToId s2) h) as [[i|]|]; simpl in Hh; congruence.
  - rewrite (get_unchanged s1 s2) by assumption. exact G.
Qed.

(** X12. Undoing a [RemoveObjectCommand]: when the command removes an
    indexed object and its undo adds the object back, the object gets the
    handle it had, the handle resolves to it again and holds the object's
    box with each coordinate rounded to float32 (for a box whose numbers lie
    within the float32 range), and the number of handles in use is what it
    was before the command. *)
Theorem remove_command_undo_restores_handle (s : t) (id : string) (obj : DrawObject.t)
    (rec : ObjectRecord) (s1 s2 : t) :
  reachable s ->
  DrawObject.id obj = id ->
  objectIndex s !! id = Some rec ->
  RemoveObjectCommand.do_ id obj s = Ret s1 ->
  RemoveObjectCommand.undo id obj s1 = Ret s2 ->
  exists rec',
    objectIndex s2 !! id = Some rec' /\
    rec_handle rec' = rec_handle rec /\
    resolve s2 (rec_handle rec) = Some id /\
    (boxInFloat32Range (snd (DrawObject.ensureBoundingBox obj)) = true ->
     readBoundingBox s2 (rec_handle rec)
     = Some (float32Box (snd (DrawObject.ensureBoundingBox obj)))) /\
    usedHandles s2 = usedHandles s.
Proof.
  unfold RemoveObjectCommand.do_, RemoveObjectCommand.undo.
  intros Hreach Hid Hrec Hrem Hadd.
  pose proof (reachable_handles_wf _ Hreach) as Hwf.
  destruct (remove_spec _ _ _ Hwf Hrem) as (Hwf1 & Hidx & _ & _ & _ & _ & Hfree).
  destruct (Hfree _ Hrec) as [Hfl _].
  assert (Hnone : objectIndex s1 !! id = None) by (rewrite Hidx; apply lookup_delete_eq).
  pose proof (add_steps _ _ _ Hadd) as Hsteps. cbn zeta in Hsteps.
  rewrite Hid, Hnone in Hsteps. destruct Hsteps as (r & Hins).
  set (s0 := with_objectStore s1 (<[id := filed s1 obj]> (objectStore s1))) in *.
  assert (Hwf0 : handles_wf s0) by (apply handles_wf_with_objectStore; exact Hwf1).
  destruct (insert_spec _ _ _ _ _ _ Hwf0 Hins)
    as (Hwf2 & Hidx2 & _ & Hslot & Hbox & _ & _ & _ & Hh).
  assert (Hhandle : ir_handle r = rec_handle rec).
  { rewrite Hh. apply (obtainHandle_recycles s0 id (rec_handle rec) (handleFreeList s)).
    - exact Hnone.
    - exact Hfl. }
  eexists. rewrite Hidx2, lookup_insert_eq. split; [reflexivity|]. cbn.
  rewrite <- Hhandle.
  split; [reflexivity|]. split; [unfold resolve; rewrite Hslot; reflexivity|].
  split; [intros _; exact Hbox|].
  rewrite (wf_used _ Hwf2), (wf_used _ Hwf), Hidx2.
  change (objectIndex s0) with (objectIndex s1). rewrite Hidx.
  rewrite map_size_insert_None by apply lookup_delete_eq.
  rewrite map_size_delete_Some by eauto.
  assert (size (objectIndex s) <> 0%nat).
  { intros Hz. apply map_size_empty_inv in Hz. rewrite Hz in Hrec. discriminate. }
  lia.
Qed.

(** X13. [update] of an identifier the index does not hold: the object is
    filed in the object map all the same, so that [get] returns it, while the
    index, the handle table and the tree are left as they were. *)
Theorem update_unknown_id_files_object (s : t) (id : string) (obj : DrawObject.t) :
  externalGetter s = None ->
  objectIndex s !! id = None ->
  exists s',
    update s id obj = Ret s' /\
    get s' id = Some (fst (DrawObject.ensureBoundingBox obj)) /\
    s' = with_objectStore s (<[id := fst (DrawObject.ensureBoundingBox obj)]> (objectStore s)) /\
    objectIndex s' = objectIndex s.
Proof.
  intros Hext Hnone. unfold update.
  destruct (DrawObject.ensureBoundingBox obj) as [obj1 bbox]. cbn [fst].
  unfold updateBoundingBox. cbn [objectIndex with_objectStore]. rewrite Hnone. cbn.
  eexists. split; [reflexivity|]. split; [|split; reflexivity].
  unfold get. cbn. rewrite Hext. apply lookup_insert_eq.
Qed.
End LegacyOperations.

Section LegacyQueries.
Import ObjectStore ObjectStoreLegacy.

Lemma bulkLoadLoop_spec objects :
  forall s reuseBuffers count n s',
    handles_wf s ->
    bulkLoadLoop s objects reuseBuffers count = Ret (n, s') ->
    let flags := if reuseBuffers then ObjectFlags.Static else ObjectFlags.None_ in
    handles_wf s' /\ n = count + Z.of_nat (length objects) /\
    (forall id rec, objectIndex s !! id = Some rec ->
       exists rec', objectIndex s' !! id = Some rec' /\
                    (rec_flags rec = flags -> rec_flags rec' = flags)) /\
    (forall obj, obj ∈ objects ->
       exists rec, objectIndex s' !! DrawObject.id obj = Some rec /\ rec_flags rec = flags).
Proof.
  induction objects as [|obj objects IH]; intros s reuseBuffers count n s' Hwf H flags.
  - injection H as <- <-. split; [exact Hwf|]. split; [simpl; lia|].
    split; [eauto|]. intros obj Hin. inversion Hin.
  - cbn [bulkLoadLoop] in H.
    pose proof (ensureBoundingBox_spec obj) as He.
    destruct (DrawObject.ensureBoundingBox obj) as [obj1 bbox].
    destruct He as (Hid & _).
    apply obind_Ret in H as ([r s1] & Hins & H). cbn [snd] in H.
    assert (Hwf0 : handles_wf (with_objectStore s (<[DrawObject.id obj1 := obj1]> (objectStore s))))
      by (apply handles_wf_with_objectStore; exact Hwf).
    destruct (insert_spec _ _ _ _ _ _ Hwf0 Hins) as (Hwf1 & Hidx & _).
    cbn [objectIndex with_objectStore] in Hidx.
    destruct (IH _ _ _ _ _ Hwf1 H) as (Hwf' & Hn & Hkeep & Hnew).
    fold flags in Hkeep, Hnew, Hidx.
    split; [exact Hwf'|]. split; [rewrite Hn; simpl length; lia|].
    assert (Hfirst : exists rec, objectIndex s' !! DrawObject.id obj1 = Some rec /\
                                 rec_flags rec = flags).
    { destruct (Hkeep (DrawObject.id obj1)
                  (mkObjectRecord (DrawObject.id obj1) (ir_handle r) (ir_nodeId r) flags 0 0))
        as (rec' & R1 & R2).
      - rewrite Hidx. apply lookup_insert_eq.
      - exists rec'. split; [exact R1|]. apply R2. reflexivity. }
    split.
    + intros id rec Hrec.
      destruct (decide (id = DrawObject.id obj1)) as [->|Hne].
      * destruct Hfirst as (rec' & R1 & R2). exists rec'. auto.
      * apply Hkeep. rewrite Hidx, lookup_insert_ne by congruence. exact Hrec.
    + intros o Hin. apply elem_of_cons in Hin as [->|Hin].
      * rewrite <- Hid. exact Hfirst.
      * apply Hnew. exact Hin.
Qed.

(** X14. [bulkLoad] counts and indexes every object: when it returns, the
    count is the number of objects given, every one of their identifiers is
    in the index with the [Static] flag (no flag when [reuseBuffers] is
    false) and a handle that resolves to it, and no identifier indexed before
    has been lost. *)
Theorem bulkLoad_indexes_every_object (s : t) (objects : list DrawObject.t)
    (reuseBuffers : bool) (n : Z) (s' : t) :
  reachable s ->
  bulkLoad s objects reuseBuffers = Ret (n, s') ->
  n = Z.of_nat (length objects) /\
  (forall obj, obj ∈ objects ->
     exists rec, objectIndex s' !! DrawObject.id obj = Some rec /\
                 rec_flags rec = (if reuseBuffers then ObjectFlags.Static else ObjectFlags.None_) /\
                 resolve s' (rec_handle rec) = Some (DrawObject.id obj)) /\
  (forall id, is_Some (objectIndex s !! id) -> is_Some (objectIndex s' !! id)).
Proof.
  intros Hreach H. pose proof (reachable_handles_wf _ Hreach) as Hwf.
  destruct (bulkLoadLoop_spec _ _ _ _ _ _ Hwf H) as (Hwf' & Hn & Hkeep & Hnew).
  split; [lia|]. split.
  - intros obj Hin. destruct (Hnew obj Hin) as (rec & R1 & R2).
    exists rec. split; [exact R1|]. split; [exact R2|].
    destruct (wf_index _ Hwf' _ _ R1) as [_ Hslot].
    unfold resolve. rewrite Hslot. reflexivity.
  - intros id [rec Hrec]. destruct (Hkeep _ _ Hrec) as (rec' & R1 & _). eauto.
Qed.

(** X15. [findObjectsIn] returns indexed objects only: each object of the
    result is what [get] returns for an identifier of the index whose stored
    box meets the rectangle the query ran on, which has the origin of the
    given rectangle and twice its width and height, its four numbers rounded
    to float32. *)
Theorem findObjectsIn_returns_indexed_objects (s : t) (bounds : Rectangle.t)
    (obj : DrawObject.t) :
  reachable s ->
  obj ∈ fst (findObjectsIn s bounds) ->
  exists id rec bbox,
    objectIndex s !! id = Some rec /\
    get s id = Some obj /\
    readBoundingBox s (rec_handle rec) = Some bbox /\
    bboxIntersects bbox
      (float32Box (mkBBox (Rectangle.x bounds) (Rectangle.y bounds)
                          (Rectangle.width bounds * 2) (Rectangle.height bounds * 2))) = true.
Proof.
  intros Hreach. pose proof (reachable_handles_wf _ Hreach) as Hwf.
  unfold findObjectsIn.
  set (padded := float32Box (mkBBox _ _ _ _)).
  set (o := mkFindOptions (Some true) None).
  pose proof (findInBounds_filled s padded (tnew (objectCapacity s) 0) o) as Hfill.
  pose proof (findInBounds_frame s padded (tnew (objectCapacity s) 0) o) as Hsame.
  destruct (findInBounds s padded (tnew (objectCapacity s) 0) o) as [[count out'] s'].
  cbn [snd fst] in Hsame |- *.
  destruct Hsame as (_ & Hids & _ & _ & _ & _ & _ & _ & Hget).
  destruct Hfill as (n & Hc & (Hlen & Hlow & _) & Hn).
  intros Hin. apply list_elem_of_omap in Hin as (i & Hi & Hobj).
  destruct (tget out' i) as [handle|] eqn:Hcell; [|discriminate].
  destruct ((handle <? 0) || (tlen (handleToId s') <=? handle)); [discriminate|].
  rewrite Hids in Hobj.
  destruct (mjoin (tget (handleToId s) handle)) as [id|] eqn:Hid; [|discriminate].
  destruct (truthyId (Some id)); [|discriminate].
  rewrite Hget in Hobj.
  apply elem_of_seqZ in Hi.
  assert (Hin : 0 <= i < n) by (destruct Hc as [->| ->]; lia).
  assert (Hlt : i < tlen (tnew (objectCapacity s) 0)).
  { apply tget_Some_range in Hcell. lia. }
  destruct (Hlow i Hin Hlt) as (h & Hh & _ & _ & _ & (bbox & Hbox & Hhit) & _).
  rewrite Hcell in Hh. injection Hh as <-.
  assert (Hslot : tget (handleToId s) handle = Some (Some id)).
  { destruct (tget (handleToId s) handle) as [[i'|]|]; simpl in Hid; congruence. }
  destruct (wf_ids _ Hwf _ _ Hslot) as (rec & Hrec & Hrh).
  exists id, rec, bbox. rewrite Hrh. auto.
Qed.

Lemma collectLoop_spec indices :
  forall (s : t) (out : list Z) (count : Z) (out0 : list Z),
    tlen out = tlen out0 -> 0 <= count -> (count = 0 \/ count < tlen out0) ->
    (forall i h, 0 <= i < count -> tget out i = Some h ->
       Z.land (default 0 (tget (objectFlags s) h)) ObjectFlags.Dynamic = ObjectFlags.Dynamic /\
       Z.land (default 0 (tget (objectFlags s) h)) ObjectFlags.Deleted = 0) ->
    let '(n, out') := collectLoop s out count indices in
    tlen out' = tlen out0 /\ count <= n <= Z.max 1 (tlen out0) /\
    n <= count + Z.of_nat (length indices) /\
    (forall i h, 0 <= i < n -> tget out' i = Some h ->
       Z.land (default 0 (tget (objectFlags s) h)) ObjectFlags.Dynamic = ObjectFlags.Dynamic /\
       Z.land (default 0 (tget (objectFlags s) h)) ObjectFlags.Deleted = 0).
Proof.
  induction indices as [|i0 indices IH]; intros s out count out0 Hlen Hc Hroom Hcells;
    cbn [collectLoop].
  - split; [exact Hlen|]. split; [lia|]. split; [simpl; lia|exact Hcells].
  - assert (Hskip : let '(n, out') := collectLoop s out count indices in
              tlen out' = tlen out0 /\ count <= n <= Z.max 1 (tlen out0) /\
              n <= count + Z.of_nat (length (i0 :: indices)) /\
              (forall i h, 0 <= i < n -> tget out' i = Some h ->
                 Z.land (default 0 (tget (objectFlags s) h)) ObjectFlags.Dynamic
                 = ObjectFlags.Dynamic /\
                 Z.land (default 0 (tget (objectFlags s) h)) ObjectFlags.Deleted = 0)).
    { specialize (IH s out count out0 Hlen Hc Hroom Hcells).
      destruct (collectLoop s out count indices) as [n out'].
      destruct IH as (I1 & I2 & I3 & I4). repeat split; auto; try lia.
      - simpl length. lia.
      - apply (I4 i h); assumption.
      - apply (I4 i h); assumption. }
    destruct (tget (dynamicHandles s) i0) as [handle|]; [|exact Hskip].
    destruct (negb (Z.land (default 0 (tget (objectFlags s) handle)) ObjectFlags.Dynamic =? 0))
      eqn:Hdyn; [|exact Hskip].
    destruct (Z.land (default 0 (tget (objectFlags s) handle)) ObjectFlags.Deleted =? 0)
      eqn:Hdel; [|exact Hskip].
    cbn [andb]. clear Hskip.
    apply negb_true_iff, Z.eqb_neq in Hdyn. apply Z.eqb_eq in Hdel.
    assert (Hdyn' : Z.land (default 0 (tget (objectFlags s) handle)) ObjectFlags.Dynamic
                    = ObjectFlags.Dynamic).
    { destruct (land_Dynamic_cases (default 0 (tget (objectFlags s) handle))); congruence. }
    assert (Hcells' : forall i h, 0 <= i < count + 1 -> tget (tset out count handle) i = Some h ->
              Z.land (default 0 (tget (objectFlags s) h)) ObjectFlags.Dynamic
              = ObjectFlags.Dynamic /\
              Z.land (default 0 (tget (objectFlags s) h)) ObjectFlags.Deleted = 0).
    { intros i h Hi. rewrite tget_tset. case_bool_decide as Hcase.
      - intros [= <-]. auto.
      - intros Hcell. apply (Hcells i h); [|exact Hcell].
        destruct (decide (i = count)) as [->|]; [|lia].
        exfalso. apply Hcase. split; [reflexivity|].
        apply tget_Some_range in Hcell. exact Hcell. }
    rewrite tlen_tset, Hlen.
    destruct (Z.leb_spec (tlen out0) (count + 1)).
    + split; [rewrite tlen_tset; exact Hlen|]. split; [lia|].
      split; [simpl length; lia|exact Hcells'].
    + assert (Hlen' : tlen (tset out count handle) = tlen out0)
        by (rewrite tlen_tset; exact Hlen).
      specialize (IH s (tset out count handle) (count + 1) out0 Hlen' ltac:(lia) ltac:(lia) Hcells').
      destruct (collectLoop s (tset out count handle) (count + 1) indices) as [n out'].
      destruct IH as (I1 & I2 & I3 & I4).
      split; [exact I1|]. split; [lia|]. split; [simpl length; lia|exact I4].
Qed.

(** X16. [collectDynamicObjects] reports dynamic objects only: the buffer
    keeps its length, the count is at most [dynamicHandleCount] and at most
    the length of the buffer (at most [1] for an empty buffer), and each of
    the first [count] cells holds a handle whose [Dynamic] bit is set and
    whose [Deleted] bit is clear. *)
Theorem collectDynamicObjects_reports_dynamic_handles (s : t) (out : list Z) :
  let '(count, out') := collectDynamicObjects s out in
  tlen out' = tlen out /\
  0 <= count <= Z.max 1 (tlen out) /\
  count <= Z.max 0 (dynamicHandleCount s) /\
  (forall i h, 0 <= i < count -> tget out' i = Some h ->
     Z.land (default 0 (tget (objectFlags s) h)) ObjectFlags.Dynamic = ObjectFlags.Dynamic /\
     Z.land (default 0 (tget (objectFlags s) h)) ObjectFlags.Deleted = 0).
Proof.
  unfold collectDynamicObjects.
  pose proof (collectLoop_spec (seqZ 0 (dynamicHandleCount s)) s out 0 out eq_refl
                ltac:(lia) ltac:(lia)) as H.
  destruct (collectLoop s out 0 (seqZ 0 (dynamicHandleCount s))) as [n out'].
  destruct H as (H1 & H2 & H3 & H4); [intros; lia|].
  rewrite length_seqZ in H3.
  split; [exact H1|]. split; [lia|]. split; [lia|exact H4].
Qed.
End LegacyQueries.

(** * The node pool *)

(** The accessors of [ObjectStoreNodePool] the index does not call. *)
Module NodePoolAccess.
Import NodePool.

Definition getCapacity (p : t) : Z := capacity p.

Definition getActiveNodeCount (p : t) : Z := nodeCount p - tlen (freeList p).


Definition setParent (p : t) (nodeId parentId : Z) : t :=
  with_parent p (tset (parent p) nodeId parentId).

End NodePoolAccess.

Section NodePoolProperties.
Import NodePool NodePoolAccess.

(** The arrays of a pool have the lengths the constructor gave them, the
    high-water mark is inside the pool and so is every free node. *)
Record pool_wf (p : t) : Prop := mk_pool_wf
  { pw_cap : 0 < capacity p;
    pw_bounds : tlen (bounds p) = capacity p * 4;
    pw_firstObject : tlen (firstObject p) = capacity p;
    pw_objectCount : tlen (objectCount p) = capacity p;
    pw_parent : tlen (parent p) = capacity p;
    pw_children : tlen (children p) = capacity p * 4;
    pw_depth : tlen (depth p) = capacity p;
    pw_flags : tlen (flags p) = capacity p;
    pw_nodeCount : 0 <= nodeCount p <= capacity p;
    pw_free : forall n, n ∈ freeList p -> 0 <= n < capacity p }.

Lemma pool_wf_create cap p : create cap = Ret p -> pool_wf p.
Proof.
  unfold create. destruct (Z.leb_spec cap 0); [discriminate|]. intros [= <-].
  constructor; cbn; rewrite ?tlen_tnew; unfold CHILDREN_PER_NODE; try lia.
  intros n Hn. inversion Hn.
Qed.





(** X18. A released node is the next one handed out: after [releaseNode] of
    a node of the pool, [allocateNode] returns that very node and does not
    throw, whatever the high-water mark, and the number of active nodes and
    the free list are then what they were before the release. *)
Theorem released_node_is_reused (p : t) (nodeId parentId depth_ : Z) (nb : NodeBounds) :
  pool_wf p ->
  0 <= nodeId < getCapacity p ->
  pool_wf (releaseNode p nodeId) /\
  getActiveNodeCount (releaseNode p nodeId) = getActiveNodeCount p - 1 /\
  exists p',
    allocateNode (releaseNode p nodeId) parentId depth_ nb = Ret (nodeId, p') /\
    getActiveNodeCount p' = getActiveNodeCount p /\
    freeList p' = freeList p /\
    nodeCount p' = nodeCount p.
Proof.
  intros Hwf Hr. unfold getCapacity in Hr.
  unfold releaseNode. rewrite bool_decide_eq_false_2 by lia.
  split; [|split].
  - destruct Hwf as [Hcap Lb Lf Lc Lp Lch Ld Lfl Hnc Hfree].
    constructor; cbn; unfold clearChildren; rewrite ?tlen_tset; try assumption.
    intros n Hn. apply elem_of_cons in Hn as [->|Hn]; [exact Hr|exact (Hfree _ Hn)].
  - unfold getActiveNodeCount. cbn. unfold tlen. simpl length. lia.
  - unfold allocateNode, obtainNodeId. cbn. eexists. split; [reflexivity|].
    unfold getActiveNodeCount. cbn. auto.
Qed.
End NodePoolProperties.

(** * Boxes and node bounds *)

Section Geometry.
Import ObjectStore.













(** X21. Pruning by loose bounds is sound for an object filed under a node it
    fits: when [fitsNode(nodeId, bbox)] holds and the box meets a query
    rectangle, [nodeIntersects(nodeId, bounds)] holds for that rectangle, so
    the query does not skip the node. *)
Theorem fitting_node_is_not_pruned (s : t) (nodeId : Z) (bbox bounds : BoundingBox) :
  fitsNode s nodeId bbox = true ->
  bboxIntersects bbox bounds = true ->
  nodeIntersects s nodeId bounds = true.
Proof.
  unfold fitsNode, bboxIntersects, nodeIntersects.
  destruct (NodePool.getBounds (nodePool s) nodeId) as [nb|]; [|discriminate].
  intros Hfit Hhit.
  apply andb_true_iff in Hfit as [Hfit F4]. apply andb_true_iff in Hfit as [Hfit F3].
  apply andb_true_iff in Hfit as [F1 F2].
  apply andb_true_iff in Hhit as [Hhit H4]. apply andb_true_iff in Hhit as [Hhit H3].
  apply andb_true_iff in Hhit as [H1 H2].
  apply Qleb_le in F1, F2, F3, F4. apply Qltb_lt in H1, H2, H3, H4.
  rewrite !andb_true_iff. repeat split; apply Qltb_lt; lra.
Qed.
End Geometry.

(** * Further properties of the chunk cache *)

Section ChunkCoverage.
Import ChunkManager.





End ChunkCoverage.

Section CacheContents.
Import ChunkManager.

Lemma JsMap_get_set {K V} `{EqDecision K} (m : list (K * V)) k v k' :
  JsMap.get (JsMap.set m k v) k' = if bool_decide (k = k') then Some v else JsMap.get m k'.
Proof.
  unfold JsMap.get. induction m as [|[k0 v0] m IH]; cbn.
  - destruct (bool_decide (k = k')); reflexivity.
  - destruct (bool_decide (k0 = k)) eqn:E0; cbn.
    + apply bool_decide_eq_true_1 in E0. subst k0.
      destruct (bool_decide (k = k')); reflexivity.
    + apply bool_decide_eq_false_1 in E0.
      destruct (bool_decide (k0 = k')) eqn:E1; cbn.
      * apply bool_decide_eq_true_1 in E1. subst k0.
        rewrite bool_decide_eq_false_2 by congruence. reflexivity.
      * exact IH.
Qed.

Lemma JsMap_get_filter {K V} `{EqDecision K} (P : K -> bool) (m : list (K * V)) k :
  JsMap.get (List.filter (fun kv => P (fst kv)) m) k = if P k then JsMap.get m k else None.
Proof.
  unfold JsMap.get. induction m as [|[k0 v0] m IH]; cbn.
  - destruct (P k); reflexivity.
  - destruct (P k0) eqn:E0; cbn.
    + destruct (bool_decide (k0 = k)) eqn:E1; cbn.
      * apply bool_decide_eq_true_1 in E1. subst k0. rewrite E0. reflexivity.
      * exact IH.
    + destruct (bool_decide (k0 = k)) eqn:E1; cbn.
      * apply bool_decide_eq_true_1 in E1. subst k0. rewrite E0 in IH |- *. exact IH.
      * exact IH.
Qed.

Lemma JsMap_set_length {K V} `{EqDecision K} (m : list (K * V)) k v :
  (length m <= length (JsMap.set m k v))%nat.
Proof.
  induction m as [|[k0 v0] m IH]; cbn; [lia|].
  destruct (bool_decide (k0 = k)); cbn; lia.
Qed.

Lemma JsMap_has_get {K V} `{EqDecision K} (m : list (K * V)) k :
  JsMap.has m k = false -> JsMap.get m k = None.
Proof.
  unfold JsMap.has. intros H. apply bool_decide_eq_false_1 in H.
  destruct (JsMap.get m k); [exfalso; eauto|reflexivity].
Qed.

(** The segment map of a chunk after [removeSegmentsByObjectId]. *)
Lemma removeSegmentsByObjectId_get c objectId sk :
  JsMap.get (segments (removeSegmentsByObjectId c objectId)) sk
  = if keyStartsWith objectId sk then None else JsMap.get (segments c) sk.
Proof.
  unfold removeSegmentsByObjectId.
  pose proof (JsMap_get_filter (fun k => negb (keyStartsWith objectId k)) (segments c) sk) as Hf.
  destruct (existsb _ (segments c)) eqn:Hex; cbn [segments].
  - rewrite Hf. destruct (keyStartsWith objectId sk); reflexivity.
  - destruct (keyStartsWith objectId sk) eqn:Hk; [|reflexivity].
    unfold JsMap.get.
    destruct (List.find (fun kv => bool_decide (fst kv = sk)) (segments c)) as [[sk' sg]|] eqn:Hfind;
      [|reflexivity].
    apply find_some in Hfind as [Hin Heq]. cbn in Heq.
    apply bool_decide_eq_true_1 in Heq. subst sk'.
    assert (existsb (fun kv => keyStartsWith objectId (fst kv)) (segments c) = true).
    { apply existsb_exists. exists (sk, sg). auto. }
    congruence.
Qed.

(** The segment map of a chunk after [addSegment]. *)
Lemma addSegment_get c segment sk :
  JsMap.get (segments (addSegment c segment)) sk
  = if bool_decide ((objectId segment, chunkKey segment) = sk)
    then Some (default segment
                 (JsMap.get (segments c) (objectId segment, chunkKey segment)))
    else JsMap.get (segments c) sk.
Proof.
  unfold addSegment. cbv zeta.
  destruct (JsMap.has (segments c) (objectId segment, chunkKey segment)) eqn:Hhas.
  - unfold JsMap.has in Hhas. apply bool_decide_eq_true_1 in Hhas as [sg Hsg].
    rewrite Hsg. cbn. case_bool_decide as Hc; [subst sk; exact Hsg|reflexivity].
  - cbn [segments]. rewrite JsMap_get_set.
    rewrite (JsMap_has_get _ _ Hhas). reflexivity.
Qed.

(** The two loops of [addObjects] over one object. *)
Definition dropOld (objectId : string) (cs : list (ChunkKey * Chunk)) (k : ChunkKey)
    : list (ChunkKey * Chunk) :=
  match JsMap.get cs k with
  | Some chunk => JsMap.set cs k (removeSegmentsByObjectId chunk objectId)
  | None => cs
  end.

Definition fileNew
    : list (ChunkKey * Chunk) * list ChunkKey -> ChunkSegment ->
      list (ChunkKey * Chunk) * list ChunkKey :=
  fun '(cs, ks) segment =>
    let chunk := match JsMap.get cs (chunkKey segment) with
                 | Some chunk => chunk
                 | None => newChunk (fst (chunkKey segment)) (snd (chunkKey segment))
                 end in
    (JsMap.set cs (chunkKey segment) (addSegment chunk segment), setAdd ks (chunkKey segment)).

Lemma addObject_loops m obj bbox :
  DrawObject.bbox obj = Some bbox ->
  let chunks1 := match objectToChunks m !! DrawObject.id obj with
                 | Some oldChunkKeys => foldl (dropOld (DrawObject.id obj)) (chunks m) oldChunkKeys
                 | None => chunks m
                 end in
  let r := foldl fileNew (chunks1, []) (computeSegmentsForObject obj) in
  addObject m obj
  = mk (fst r) (<[DrawObject.id obj := snd r]> (objectToChunks m))
       (<[DrawObject.id obj := obj]> (objects m)).
Proof.
  intros Hb. unfold addObject. rewrite Hb. cbv zeta.
  match goal with
  | |- (let '(_, _) := ?a in _) = mk (fst ?b) _ _ => change a with b; destruct b
  end.
  reflexivity.
Qed.

(** A chunk of [cs'] is a chunk of [cs] that lost some segments. *)
Definition thinned (objectId : string) (cs cs' : list (ChunkKey * Chunk)) : Prop :=
  (forall k, is_Some (JsMap.get cs' k) <-> is_Some (JsMap.get cs k)) /\
  (length cs <= length cs')%nat /\
  (forall k c', JsMap.get cs' k = Some c' ->
     exists c, JsMap.get cs k = Some c /\
       forall sk, JsMap.get (segments c') sk = None \/
                  JsMap.get (segments c') sk = JsMap.get (segments c) sk).

Lemma dropOld_thinned objectId keys :
  forall cs,
    thinned objectId cs (foldl (dropOld objectId) cs keys) /\
    (forall k c', k ∈ keys -> JsMap.get (foldl (dropOld objectId) cs keys) k = Some c' ->
       forall sk, keyStartsWith objectId sk = true -> JsMap.get (segments c') sk = None).
Proof.
  induction keys as [|k0 keys IH]; intros cs; cbn [foldl].
  - split; [|intros k c' Hin; inversion Hin].
    split; [reflexivity|]. split; [lia|]. intros k c' Hc. exists c'. auto.
  - destruct (IH (dropOld objectId cs k0)) as ((D1 & D2 & D3) & D4).
    assert (Hstep : forall k c1, JsMap.get (dropOld objectId cs k0) k = Some c1 ->
              exists c, JsMap.get cs k = Some c /\
                (forall sk, JsMap.get (segments c1) sk = None \/
                            JsMap.get (segments c1) sk = JsMap.get (segments c) sk) /\
                (k = k0 -> forall sk, keyStartsWith objectId sk = true ->
                                      JsMap.get (segments c1) sk = None)).
    { intros k c1. unfold dropOld.
      destruct (JsMap.get cs k0) as [c0|] eqn:H0.
      - rewrite JsMap_get_set. case_bool_decide as Hk.
        + subst k. intros [= <-]. exists c0. split; [exact H0|]. split.
          * intros sk. rewrite removeSegmentsByObjectId_get.
            destruct (keyStartsWith objectId sk); auto.
          * intros _ sk Hsk. rewrite removeSegmentsByObjectId_get, Hsk. reflexivity.
        + intros Hc. exists c1. split; [exact Hc|]. split; [auto|congruence].
      - intros Hc. exists c1. split; [exact Hc|]. split; [auto|].
        intros ->. congruence. }
    assert (Hdom : forall k, is_Some (JsMap.get (dropOld objectId cs k0) k)
                             <-> is_Some (JsMap.get cs k)).
    { intros k. unfold dropOld. destruct (JsMap.get cs k0) as [c0|] eqn:H0; [|reflexivity].
      rewrite JsMap_get_set. case_bool_decide as Hk; [|reflexivity].
      subst k. rewrite H0. split; eauto. }
    assert (Hlen : (length cs <= length (dropOld objectId cs k0))%nat).
    { unfold dropOld. destruct (JsMap.get cs k0); [apply JsMap_set_length|lia]. }
    split; [split; [|split]|].
    + intros k. rewrite D1. apply Hdom.
    + lia.
    + intros k c' Hc'. destruct (D3 _ _ Hc') as (c1 & Hc1 & Hsub).
      destruct (Hstep _ _ Hc1) as (c & Hc & Hsub1 & _).
      exists c. split; [exact Hc|]. intros sk.
      destruct (Hsub sk) as [Hn|He]; [auto|]. rewrite He. apply Hsub1.
    + intros k c' Hin Hc' sk Hsk. apply elem_of_cons in Hin as [->|Hin].
      * destruct (D3 _ _ Hc') as (c1 & Hc1 & Hsub).
        destruct (Hstep _ _ Hc1) as (c & Hc & _ & Hgone).
        destruct (Hsub sk) as [Hn|He]; [exact Hn|]. rewrite He. apply Hgone; auto.
      * apply (D4 k c' Hin Hc' sk Hsk).
Qed.

Lemma fileNew_spec segs :
  forall cs ks,
    NoDup (List.map chunkKey segs) ->
    let r := foldl fileNew (cs, ks) segs in
    (forall k, k ∉ List.map chunkKey segs -> JsMap.get (fst r) k = JsMap.get cs k) /\
    (forall k, is_Some (JsMap.get cs k) -> is_Some (JsMap.get (fst r) k)) /\
    (length cs <= length (fst r))%nat /\
    (forall segment, segment ∈ segs ->
       chunkKey segment ∈ snd r /\
       JsMap.get (fst r) (chunkKey segment)
       = Some (addSegment
                 (default (newChunk (fst (chunkKey segment)) (snd (chunkKey segment)))
                          (JsMap.get cs (chunkKey segment))) segment)) /\
    (forall k, k ∈ snd r -> k ∈ ks \/ k ∈ List.map chunkKey segs).
Proof.
  induction segs as [|sg segs IH]; intros cs ks Hnd; cbn [foldl List.map].
  - cbn. split; [auto|]. split; [auto|]. split; [lia|]. split; [|auto].
    intros segment Hin. inversion Hin.
  - apply NoDup_cons in Hnd as [Hfresh Hnd].
    set (chunk := match JsMap.get cs (chunkKey sg) with
                  | Some chunk => chunk
                  | None => newChunk (fst (chunkKey sg)) (snd (chunkKey sg))
                  end).
    change (fileNew (cs, ks) sg)
      with (JsMap.set cs (chunkKey sg) (addSegment chunk sg), setAdd ks (chunkKey sg)).
    specialize (IH (JsMap.set cs (chunkKey sg) (addSegment chunk sg))
                   (setAdd ks (chunkKey sg)) Hnd).
    cbv zeta in IH. destruct IH as (I1 & I2 & I3 & I4 & I5).
    set (r := foldl fileNew _ segs) in *.
    assert (Hadd : forall k, k ∈ setAdd ks (chunkKey sg) <-> k ∈ ks \/ k = chunkKey sg).
    { intros k. unfold setAdd. case_bool_decide as Hc.
      - split; [auto|]. intros [H| ->]; assumption.
      - rewrite elem_of_app, list_elem_of_singleton. reflexivity. }
    split; [|split; [|split; [|split]]].
    + intros k Hk. apply not_elem_of_cons in Hk as [Hne Hk].
      rewrite (I1 k Hk), JsMap_get_set. rewrite bool_decide_eq_false_2 by congruence.
      reflexivity.
    + intros k Hk. apply I2. rewrite JsMap_get_set. case_bool_decide; eauto.
    + pose proof (JsMap_set_length cs (chunkKey sg) (addSegment chunk sg)). lia.
    + intros segment Hin. apply elem_of_cons in Hin as [->|Hin].
      * split.
        -- assert (Hin : chunkKey sg ∈ setAdd ks (chunkKey sg)) by (apply Hadd; auto).
           clear -Hin I1 I2 I3 I4 I5 Hnd. revert Hin. unfold r. clear.
           generalize (JsMap.set cs (chunkKey sg) (addSegment chunk sg)).
           generalize (setAdd ks (chunkKey sg)).
           induction segs as [|s0 segs IHs]; intros ks0 cs0 Hin; cbn [foldl]; [exact Hin|].
           unfold fileNew at 2. apply IHs. unfold setAdd. case_bool_decide; [exact Hin|].
           apply elem_of_app. auto.
        -- rewrite (I1 _ Hfresh), JsMap_get_set, bool_decide_eq_true_2 by reflexivity.
           unfold chunk. destruct (JsMap.get cs (chunkKey sg)); reflexivity.
      * destruct (I4 _ Hin) as [J1 J2]. split; [exact J1|].
        rewrite J2, JsMap_get_set.
        rewrite bool_decide_eq_false_2; [reflexivity|].
        intros E. apply Hfresh. rewrite E. apply list_elem_of_fmap_2'
          with (x := segment); auto.
    + intros k Hk. destruct (I5 k Hk) as [H|H].
      * apply Hadd in H as [H| ->]; [auto|]. right. left.
      * right. right. exact H.
Qed.
End CacheContents.

Section CacheInvariant.
Import ChunkManager.

(** The cache as [addObjects] keeps it: a segment is filed under the key made
    of its object and of the chunk that holds it, and the chunk is among
    those the cache lists for the object. *)
Definition cache_wf (m : ChunkManager.t) : Prop :=
  forall k c sk sg,
    JsMap.get (chunks m) k = Some c -> JsMap.get (segments c) sk = Some sg ->
    sk = (objectId sg, k) /\ chunkKey sg = k /\
    exists ks, objectToChunks m !! objectId sg = Some ks /\ k ∈ ks.

Lemma cache_wf_empty : cache_wf empty.
Proof. intros k c sk sg H. discriminate. Qed.

Lemma NoDup_getChunksForBbox bbox : NoDup (getChunksForBbox bbox).
Proof.
  unfold getChunksForBbox. cbv zeta. apply NoDup_bind.
  - intros x1 x2 [cx cy] _ _ H1 H2.
    apply list_elem_of_bind in H1 as (y1 & H1 & _), H2 as (y2 & H2 & _).
    apply list_elem_of_singleton in H1, H2. congruence.
  - intros cx _. apply NoDup_bind.
    + intros y1 y2 [cx' cy'] _ _ H1 H2.
      apply list_elem_of_singleton in H1, H2. congruence.
    + intros cy _. apply NoDup_singleton.
    + apply NoDup_seqZ.
  - apply NoDup_seqZ.
Qed.

Lemma computed_segment obj bbox segment :
  DrawObject.bbox obj = Some bbox ->
  segment ∈ computeSegmentsForObject obj ->
  objectId segment = DrawObject.id obj /\ chunkKey segment ∈ getChunksForBbox bbox /\
  segmentFor obj bbox (chunkKey segment) = Some segment.
Proof.
  unfold computeSegmentsForObject. intros -> Hin.
  apply list_elem_of_omap in Hin as (k & Hk & Hseg).
  assert (Hkey : chunkKey segment = k /\ objectId segment = DrawObject.id obj).
  { unfold segmentFor in Hseg. destruct (_ || _); [discriminate|].
    injection Hseg as <-. auto. }
  destruct Hkey as [-> Hid]. auto.
Qed.

Lemma NoDup_computed_keys obj :
  NoDup (List.map chunkKey (computeSegmentsForObject obj)).
Proof.
  unfold computeSegmentsForObject. destruct (DrawObject.bbox obj) as [bbox|]; [|constructor].
  pose proof (NoDup_getChunksForBbox bbox) as Hnd.
  induction (getChunksForBbox bbox) as [|k l IH]; [constructor|].
  apply NoDup_cons in Hnd as [Hk Hnd]. cbn [omap list_omap].
  destruct (segmentFor obj bbox k) as [sg|] eqn:Hseg; [|exact (IH Hnd)].
  cbn [List.map]. apply NoDup_cons. split; [|exact (IH Hnd)].
  assert (Hkey : chunkKey sg = k).
  { unfold segmentFor in Hseg. destruct (_ || _); [discriminate|]. by injection Hseg as <-. }
  rewrite Hkey. intros Hin. apply Hk.
  apply list_elem_of_fmap in Hin as (sg' & -> & Hin').
  apply list_elem_of_omap in Hin' as (k' & Hk' & Hseg').
  assert (chunkKey sg' = k') as ->; [|exact Hk'].
  unfold segmentFor in Hseg'. destruct (_ || _); [discriminate|]. by injection Hseg' as <-.
Qed.

Lemma keyStartsWith_own objectId k : keyStartsWith objectId (objectId, k) = true.
Proof. unfold keyStartsWith. cbn. rewrite bool_decide_eq_true_2 by reflexivity. reflexivity. Qed.

(** Declaring one object in a well-formed cache. *)
Lemma addObject_contents m obj bbox :
  cache_wf m ->
  DrawObject.bbox obj = Some bbox ->
  let m' := addObject m obj in
  let id := DrawObject.id obj in
  cache_wf m' /\
  (forall segment, segment ∈ computeSegmentsForObject obj ->
     exists c, JsMap.get (chunks m') (chunkKey segment) = Some c /\
               JsMap.get (segments c) (id, chunkKey segment) = Some segment) /\
  (forall k c sk sg,
     JsMap.get (chunks m') k = Some c -> JsMap.get (segments c) sk = Some sg ->
     objectId sg = id -> sg ∈ computeSegmentsForObject obj) /\
  (exists ks, objectToChunks m' !! id = Some ks /\
              forall k, k ∈ ks <-> k ∈ List.map chunkKey (computeSegmentsForObject obj)) /\
  objects m' !! id = Some obj /\
  (forall k, is_Some (JsMap.get (chunks m) k) -> is_Some (JsMap.get (chunks m') k)) /\
  (length (chunks m) <= length (chunks m'))%nat.
Proof.
  intros Hwf Hb m' id. unfold m'. rewrite (addObject_loops m obj bbox Hb). cbv zeta. fold id.
  set (segs := computeSegmentsForObject obj).
  set (chunks1 := match objectToChunks m !! id with
                  | Some oldChunkKeys => foldl (dropOld id) (chunks m) oldChunkKeys
                  | None => chunks m
                  end).
  (* the first loop *)
  assert (H1 : (forall k c1 sk sg,
                  JsMap.get chunks1 k = Some c1 -> JsMap.get (segments c1) sk = Some sg ->
                  sk = (objectId sg, k) /\ chunkKey sg = k /\ objectId sg <> id /\
                  exists ks, objectToChunks m !! objectId sg = Some ks /\ k ∈ ks) /\
               (forall k, is_Some (JsMap.get (chunks m) k) -> is_Some (JsMap.get chunks1 k)) /\
               (length (chunks m) <= length chunks1)%nat).
  { unfold chunks1. destruct (objectToChunks m !! id) as [old|] eqn:Hold.
    - destruct (dropOld_thinned id old (chunks m)) as ((D1 & D2 & D3) & D4).
      split; [|split; [intros k; apply D1|exact D2]].
      intros k c1 sk sg Hc1 Hsg.
      destruct (D3 _ _ Hc1) as (c & Hc & Hsub).
      destruct (Hsub sk) as [Hn|He]; [congruence|].
      rewrite He in Hsg. destruct (Hwf _ _ _ _ Hc Hsg) as (E1 & E2 & ks & Hks & Hin).
      split; [exact E1|]. split; [exact E2|]. split; [|eauto].
      intros Hid. rewrite Hid, Hold in Hks. injection Hks as <-.
      pose proof (D4 k c1 Hin Hc1 sk) as Hgone.
      rewrite E1, Hid, keyStartsWith_own in Hgone. specialize (Hgone eq_refl).
      rewrite <- He in Hsg. rewrite E1, Hid in Hsg. congruence.
    - split; [|split; [auto|lia]].
      intros k c1 sk sg Hc1 Hsg.
      destruct (Hwf _ _ _ _ Hc1 Hsg) as (E1 & E2 & ks & Hks & Hin).
      split; [exact E1|]. split; [exact E2|]. split; [|eauto].
      intros Hid. rewrite Hid, Hold in Hks. discriminate. }
  destruct H1 as (Hold & Hdom1 & Hlen1).
  (* the second loop *)
  destruct (fileNew_spec segs chunks1 [] (NoDup_computed_keys obj)) as (F1 & F2 & F3 & F4 & F5).
  set (r := foldl fileNew (chunks1, []) segs) in *.
  assert (Hnew : forall segment, segment ∈ segs ->
            exists c, JsMap.get (fst r) (chunkKey segment) = Some c /\
                      (forall sk, JsMap.get (segments c) sk
                                  = if bool_decide ((id, chunkKey segment) = sk)
                                    then Some segment
                                    else from_option (fun c0 => JsMap.get (segments c0) sk) None
                                           (JsMap.get chunks1 (chunkKey segment)))).
  { intros segment Hin. destruct (F4 _ Hin) as [_ Hget].
    destruct (computed_segment obj bbox segment Hb Hin) as (Hid & _).
    eexists. split; [exact Hget|]. intros sk. rewrite addSegment_get, Hid. fold id.
    destruct (JsMap.get chunks1 (chunkKey segment)) as [c0|] eqn:Hc0; cbn.
    - destruct (JsMap.get (segments c0) (id, chunkKey segment)) as [sg|] eqn:Hsg; [|reflexivity].
      exfalso. destruct (Hold _ _ _ _ Hc0 Hsg) as (E1 & _ & Hne & _).
      apply Hne. congruence.
    - reflexivity. }
  assert (Hall : forall k c sk sg,
            JsMap.get (fst r) k = Some c -> JsMap.get (segments c) sk = Some sg ->
            (sg ∈ segs /\ sk = (id, k) /\ chunkKey sg = k /\ objectId sg = id) \/
            (objectId sg <> id /\ sk = (objectId sg, k) /\ chunkKey sg = k /\
             exists ks, objectToChunks m !! objectId sg = Some ks /\ k ∈ ks)).
  { intros k c sk sg Hc Hsg.
    destruct (decide (k ∈ List.map chunkKey segs)) as [Hin|Hout].
    - apply list_elem_of_fmap in Hin as (segment & -> & Hin).
      destruct (Hnew _ Hin) as (c' & Hc' & Hsegs).
      rewrite Hc in Hc'. injection Hc' as <-.
      rewrite Hsegs in Hsg. case_bool_decide as Hsk.
      + injection Hsg as <-. left.
        destruct (computed_segment obj bbox segment Hb Hin) as (Hid & _). auto.
      + right. destruct (JsMap.get chunks1 (chunkKey segment)) as [c0|] eqn:Hc0;
          cbn in Hsg; [|discriminate].
        destruct (Hold _ _ _ _ Hc0 Hsg) as (E1 & E2 & E3 & E4). auto.
    - right. rewrite (F1 k Hout) in Hc.
      destruct (Hold _ _ _ _ Hc Hsg) as (E1 & E2 & E3 & E4). auto. }
  cbn [chunks objectToChunks objects].
  split; [|split; [|split; [|split; [|split; [|split]]]]].
  - intros k c sk sg Hc Hsg. cbn [chunks objectToChunks] in *.
    destruct (Hall _ _ _ _ Hc Hsg) as [(Hin & E1 & E2 & E3)|(Hne & E1 & E2 & ks & Hks & Hk)].
    + split; [congruence|]. split; [exact E2|].
      exists (snd r). rewrite E3, lookup_insert_eq. split; [reflexivity|].
      destruct (F4 _ Hin) as [Hkey _]. rewrite <- E2. exact Hkey.
    + split; [exact E1|]. split; [exact E2|].
      exists ks. rewrite lookup_insert_ne by congruence. auto.
  - intros segment Hin. destruct (Hnew _ Hin) as (c & Hc & Hsegs).
    exists c. split; [exact Hc|]. rewrite Hsegs, bool_decide_eq_true_2 by reflexivity.
    reflexivity.
  - intros k c sk sg Hc Hsg Hid.
    destruct (Hall _ _ _ _ Hc Hsg) as [(Hin & _)|(Hne & _)]; [exact Hin|congruence].
  - exists (snd r). rewrite lookup_insert_eq. split; [reflexivity|]. intros k. split.
    + intros Hk. destruct (F5 k Hk) as [H|H]; [inversion H|exact H].
    + intros Hk. apply list_elem_of_fmap in Hk as (segment & -> & Hin).
      apply (F4 _ Hin).
  - apply lookup_insert_eq.
  - intros k Hk. apply F2, Hdom1, Hk.
  - lia.
Qed.

Lemma addObject_wf m obj : cache_wf m -> cache_wf (addObject m obj).
Proof.
  intros Hwf. destruct (DrawObject.bbox obj) as [bbox|] eqn:Hb.
  - apply (addObject_contents m obj bbox Hwf Hb).
  - unfold addObject. rewrite Hb. exact Hwf.
Qed.

Lemma addObjects_wf objs : forall m, cache_wf m -> cache_wf (addObjects m objs).
Proof.
  unfold addObjects. induction objs as [|obj objs IH]; intros m Hwf; cbn [foldl]; [exact Hwf|].
  apply IH, addObject_wf, Hwf.
Qed.

(** X24. Declaring an object again replaces its segments: in a cache built
    by [addObjects], after an object with a box has been declared, each
    segment computed from that box is filed in its chunk under the object's
    key, the cache holds no other segment of the object (none computed from
    an earlier box survives), the chunks listed for the object are exactly
    those of the computed segments, and the object map holds the object. *)
Theorem declared_object_holds_computed_segments (declared : list DrawObject.t)
    (obj : DrawObject.t) (bbox : BoundingBox) :
  DrawObject.bbox obj = Some bbox ->
  let m' := addObjects ChunkManager.empty (declared ++ [obj]) in
  (forall segment, segment ∈ computeSegmentsForObject obj ->
     exists c, JsMap.get (chunks m') (chunkKey segment) = Some c /\
               JsMap.get (segments c) (DrawObject.id obj, chunkKey segment) = Some segment) /\
  (forall k c sk sg,
     JsMap.get (chunks m') k = Some c -> JsMap.get (segments c) sk = Some sg ->
     objectId sg = DrawObject.id obj -> sg ∈ computeSegmentsForObject obj) /\
  (exists ks, objectToChunks m' !! DrawObject.id obj = Some ks /\
              forall k, k ∈ ks <-> k ∈ List.map chunkKey (computeSegmentsForObject obj)) /\
  objects m' !! DrawObject.id obj = Some obj.
Proof.
  intros Hb m'. unfold m', addObjects. rewrite foldl_app. cbn [foldl].
  pose proof (addObjects_wf declared ChunkManager.empty cache_wf_empty) as Hwf.
  unfold addObjects in Hwf.
  destruct (addObject_contents _ obj bbox Hwf Hb) as (_ & C1 & C2 & C3 & C4 & _).
  auto.
Qed.

Lemma addObject_keeps_chunks m obj :
  (forall k, is_Some (JsMap.get (chunks m) k) ->
             is_Some (JsMap.get (chunks (addObject m obj)) k)) /\
  (length (chunks m) <= length (chunks (addObject m obj)))%nat.
Proof.
  destruct (DrawObject.bbox obj) as [bbox|] eqn:Hb.
  2:{ unfold addObject. rewrite Hb. auto. }
  rewrite (addObject_loops m obj bbox Hb). cbv zeta. cbn [chunks].
  set (chunks1 := match objectToChunks m !! DrawObject.id obj with
                  | Some oldChunkKeys =>
                      foldl (dropOld (DrawObject.id obj)) (chunks m) oldChunkKeys
                  | None => chunks m
                  end).
  assert (H1 : (forall k, is_Some (JsMap.get (chunks m) k) -> is_Some (JsMap.get chunks1 k)) /\
               (length (chunks m) <= length chunks1)%nat).
  { unfold chunks1. destruct (objectToChunks m !! DrawObject.id obj) as [old|]; [|auto].
    destruct (dropOld_thinned (DrawObject.id obj) old (chunks m)) as ((D1 & D2 & _) & _).
    split; [intros k; apply D1|exact D2]. }
  destruct H1 as [Hdom Hlen].
  destruct (fileNew_spec (computeSegmentsForObject obj) chunks1 [] (NoDup_computed_keys obj))
    as (_ & F2 & F3 & _).
  split; [intros k Hk; apply F2, Hdom, Hk|lia].
Qed.

(** X25. The cache never lets go of a chunk: every chunk present before
    [addObjects] is present afterwards, whatever became of the objects it
    held, so the number of chunks never decreases. *)
Theorem addObjects_never_drops_chunks (m : ChunkManager.t) (objs : list DrawObject.t) :
  (forall k, is_Some (JsMap.get (chunks m) k) ->
             is_Some (JsMap.get (chunks (addObjects m objs)) k)) /\
  (getChunksSize m <= getChunksSize (addObjects m objs))%nat.
Proof.
  revert m. unfold addObjects, getChunksSize, JsMap.size.
  induction objs as [|obj objs IH]; intros m; cbn [foldl]; [auto|].
  destruct (addObject_keeps_chunks m obj) as [S1 S2].
  destruct (IH (addObject m obj)) as [I1 I2].
  split; [intros k Hk; apply I1, S1, Hk|lia].
Qed.
End CacheInvariant.

(** * Boxes of paths (utils/PathUtils.ts) *)

Module ObjectUtils.




End ObjectUtils.

Section PathBoxes.
Import ObjectUtils.



End PathBoxes.

Section ChunkUpdate.
Import ChunkManager.
Variable drawObjectToPixi : DrawObject.t -> LODLevel -> bool.

Lemma refreshLods_keys viewport getObject segs segs' :
  refreshLods viewport getObject segs = Ret segs' ->
  List.map fst segs' = List.map fst segs /\
  List.map (fun kv => objectId (snd kv)) segs' = List.map (fun kv => objectId (snd kv)) segs.
Proof.
  revert segs'. induction segs as [|[k sg] segs IH]; intros segs' H; cbn [refreshLods] in H.
  - injection H as <-. auto.
  - apply obind_Ret in H as (sg' & Hsg & H).
    apply obind_Ret in H as (rest & Hrest & H). injection H as <-.
    destruct (IH _ Hrest) as [I1 I2]. cbn [List.map fst snd].
    assert (Hid : objectId sg' = objectId sg).
    { destruct (getObject (objectId sg)) as [obj|].
      - apply obind_Ret in Hsg as (l & _ & Hsg). injection Hsg as <-. reflexivity.
      - injection Hsg as <-. reflexivity. }
    rewrite I1, I2, Hid. auto.
Qed.

(** X27. [Chunk.update] leaves the chunk clean: when it returns, the chunk
    is not dirty and remembers the band of the viewport; it keeps its key and
    the keys and objects of its segments; at the nearest band the cached
    raster is not redrawn, at any other band the live container is not
    rebuilt; and at most one rebuild is performed. *)
Theorem update_leaves_chunk_clean (c : Chunk) (viewport : Viewport)
    (getObject : string -> option DrawObject.t) (c' : Chunk) (events : list RebuildEvent) :
  update drawObjectToPixi c viewport getObject = Ret (c', events) ->
  isDirty c' = false /\
  previousLod c' = Some (lodLevel viewport) /\
  key c' = key c /\
  List.map fst (segments c') = List.map fst (segments c) /\
  (lodLevel viewport = Some Near ->
     renderContainer c' = renderContainer c /\
     (events = [] \/ events = [RebuiltLive (key c)])) /\
  (lodLevel viewport <> Some Near ->
     live c' = live c /\
     (events = [] \/ events = [RebuiltRenderTexture (key c)]) /\
     (isDirty c = true -> events = [RebuiltRenderTexture (key c)])).
Proof.
  unfold update. cbv zeta.
  set (c1 := match previousLod c with Some _ => _ | None => _ end).
  assert (Hc1 : key c1 = key c /\ live c1 = live c /\ renderContainer c1 = renderContainer c /\
                segments c1 = segments c /\ (isDirty c = true -> isDirty c1 = true)).
  { unfold c1. destruct (previousLod c) as [prev|]; [|auto].
    destruct (_ && _); cbn; auto. }
  destruct Hc1 as (K1 & L1 & R1 & S1 & D1).
  cbn [key live renderContainer segments isDirty previousLod updatedLodContent].
  intros H. apply obind_Ret in H as (segs & Hsegs & H).
  destruct (refreshLods_keys _ _ _ _ Hsegs) as [Hkeys _]. rewrite S1 in Hkeys.
  destruct (bool_decide (lodLevel viewport = Some Near)) eqn:Hnear.
  - apply bool_decide_eq_true_1 in Hnear.
    destruct (isDirty c1 || bool_decide (live c1 = [])) eqn:Hd.
    + apply obind_Ret in H as (c2 & Hre & H). cbv beta in H. injection H as <- <-.
      unfold rebuildLive in Hre. apply obind_Ret in Hre as (children & _ & Hre).
      injection Hre as <-. cbn.
      split; [reflexivity|]. split; [reflexivity|]. split; [exact K1|].
      split; [exact Hkeys|]. split; [|intros Hn; contradiction].
      intros _. split; [exact R1|]. right. rewrite K1. reflexivity.
    + injection H as <- <-. cbn. apply orb_false_iff in Hd as [Hd _].
      split; [exact Hd|]. split; [reflexivity|]. split; [exact K1|].
      split; [exact Hkeys|]. split; [|intros Hn; contradiction].
      intros _. split; [exact R1|]. left. reflexivity.
  - apply bool_decide_eq_false_1 in Hnear.
    destruct (isDirty c1) eqn:Hd.
    + injection H as <- <-. cbn.
      split; [reflexivity|]. split; [reflexivity|]. split; [exact K1|].
      split; [exact Hkeys|]. split; [intros Hn; contradiction|].
      intros _. split; [exact L1|]. rewrite K1. split; [right; reflexivity|reflexivity].
    + injection H as <- <-. cbn.
      split; [reflexivity|]. split; [reflexivity|]. split; [exact K1|].
      split; [exact Hkeys|]. split; [intros Hn; contradiction|].
      intros _. split; [exact L1|]. split; [left; reflexivity|].
      intros Hdirty. discriminate (D1 Hdirty).
Qed.

Lemma diagAtLeast_monotone (bbox : BoundingBox) (s1 s2 c : Q) :
  (s1 <= s2)%Q ->
  diagAtLeast bbox s1 c = true -> diagAtLeast bbox s2 c = true.
Proof.
  unfold diagAtLeast. intros Hs H.
  apply andb_true_iff in H as [H1 H2]. apply Qltb_lt in H1. apply Qleb_le in H2.
  apply andb_true_iff. split; [apply Qltb_lt; lra|]. apply Qleb_le.
  set (d := (width bbox * width bbox + height bbox * height bbox)%Q) in *.
  assert (Hd : (0 <= d)%Q) by (unfold d; nra).
  assert (Hsq : (s1 * s1 <= s2 * s2)%Q) by nra.
  clearbody d. nra.
Qed.

(** The bands in order, nearest first. *)
Definition bandRank (l : LODLevel) : Z :=
  match l with Near => 0 | Mid => 1 | Far => 2 | Overview => 3 end.

(** X28. The band [computeLOD] gives an object only gets nearer as the scale
    of the viewport grows: between two viewports, the one with the larger
    scale gives the nearer band, or the same; an object without a box makes
    [computeLOD] throw. *)
Theorem computeLOD_is_monotone_in_scale (obj : DrawObject.t) (v1 v2 : Viewport)
    (l1 l2 : LODLevel) :
  (scale v1 <= scale v2)%Q ->
  computeLOD obj v1 = Ret l1 ->
  computeLOD obj v2 = Ret l2 ->
  bandRank l2 <= bandRank l1 /\ DrawObject.bbox obj <> None.
Proof.
  unfold computeLOD. intros Hs.
  destruct (DrawObject.bbox obj) as [bbox|]; [|discriminate].
  intros [= <-] [= <-]. split; [|discriminate].
  pose proof (diagAtLeast_monotone bbox _ _ 130 Hs) as M1.
  pose proof (diagAtLeast_monotone bbox _ _ 60 Hs) as M2.
  pose proof (diagAtLeast_monotone bbox _ _ 30 Hs) as M3.
  destruct (diagAtLeast bbox (scale v1) 130);
    [rewrite (M1 eq_refl); cbn; lia|].
  destruct (diagAtLeast bbox (scale v1) 60);
    [rewrite (M2 eq_refl); destruct (diagAtLeast bbox (scale v2) 130); cbn; lia|].
  destruct (diagAtLeast bbox (scale v1) 30);
    [rewrite (M3 eq_refl); destruct (diagAtLeast bbox (scale v2) 130),
                                    (diagAtLeast bbox (scale v2) 60); cbn; lia|].
  destruct (diagAtLeast bbox (scale v2) 130), (diagAtLeast bbox (scale v2) 60),
           (diagAtLeast bbox (scale v2) 30); cbn; lia.
Qed.
End ChunkUpdate.

Section SegmentPlacement.
Import ChunkManager.


End SegmentPlacement.

(** * Instances *)

Section IndexInstances.
Import ObjectStore ObjectStoreLegacy.

Definition tinyReinsert : InsertionResult * t :=
  returned (insert (snd tinyInsert) "a" (box 1 1 10 10) ObjectFlags.None_).

Definition tinyRecord : ObjectRecord := mkObjectRecord "a" 0 0 0 0 0.

Definition tinyTenth : InsertionResult * t :=
  returned (insert tinyStore "t" tenthBox ObjectFlags.None_).
Definition tinyTenthUpdated : UpdateResult * t :=
  returned (updateBoundingBox (snd tinyInsert) "a" tenthBox).

Definition tinyAdded : t := returned (add tinyStore (drawn "a" (box 0 0 10 10))).
Definition tinyUndone : t := returned (remove tinyAdded "a").
Definition tinyReadded : t := returned (add tinyRemoved (drawn "a" (box 5 5 2 2))).
Definition tinyLoaded : Z * t :=
  returned (bulkLoad tinyStore [drawn "a" (box 0 0 10 10); drawn "b" (box 20 20 5 5)] true).
Definition tinyDynamic : UpdateResult * t :=
  returned (updateBoundingBox (snd tinyUpdated) "a" (box 2 2 10 10)).

Lemma tinyRecord_indexed : objectIndex (snd tinyInsert) !! "a" = Some tinyRecord.
Proof. vm_compute. reflexivity. Qed.

Lemma tinyAdded_reachable : reachable tinyAdded.
Proof.
  apply (reach_add tinyStore (drawn "a" (box 0 0 10 10))); [exact tinyStore_reachable|].
  vm_compute. reflexivity.
Qed.

Lemma indexed_ids_own_distinct_handles_witness :
  reachable (snd tinyInsert) /\
  usedHandles (snd tinyInsert) = Z.of_nat (size (objectIndex (snd tinyInsert))).
Proof.
  exact (conj tinyInsert_reachable
           (proj2 (proj2 (proj2 (indexed_ids_own_distinct_handles (snd tinyInsert)
                                   tinyInsert_reachable))))).
Defined.

Lemma insert_then_lookup_witness :
  reachable tinyStore /\
  insert tinyStore "t" tenthBox ObjectFlags.None_ = Ret (fst tinyTenth, snd tinyTenth) /\
  boxInFloat32Range tenthBox = true /\
  resolve (snd tinyTenth) (ir_handle (fst tinyTenth)) = Some "t" /\
  readBoundingBox (snd tinyTenth) (ir_handle (fst tinyTenth))
  = Some (mkBBox (13421773 # 134217728) 50 10 10).
Proof.
  assert (H : insert tinyStore "t" tenthBox ObjectFlags.None_
              = Ret (fst tinyTenth, snd tinyTenth)) by (vm_compute; reflexivity).
  assert (G : boxInFloat32Range tenthBox = true) by (vm_compute; reflexivity).
  assert (E : Some (float32Box tenthBox) = Some (mkBBox (13421773 # 134217728) 50 10 10))
    by (vm_compute; reflexivity).
  pose proof (insert_then_lookup tinyStore "t" tenthBox ObjectFlags.None_
                (fst tinyTenth) (snd tinyTenth) tinyStore_reachable H) as (_ & C2 & C3 & _).
  exact (conj tinyStore_reachable (conj H (conj G (conj C2 (eq_trans (C3 G) E))))).
Defined.

Lemma reinsert_keeps_handle_witness :
  reachable (snd tinyInsert) /\
  objectIndex (snd tinyInsert) !! "a" = Some tinyRecord /\
  insert (snd tinyInsert) "a" (box 1 1 10 10) ObjectFlags.None_
  = Ret (fst tinyReinsert, snd tinyReinsert) /\
  ir_handle (fst tinyReinsert) = rec_handle tinyRecord /\
  usedHandles (snd tinyReinsert) = usedHandles (snd tinyInsert) /\
  boxInFloat32Range (box 1 1 10 10) = true /\
  readBoundingBox (snd tinyReinsert) (rec_handle tinyRecord)
  = Some (float32Box (box 1 1 10 10)).
Proof.
  assert (H : insert (snd tinyInsert) "a" (box 1 1 10 10) ObjectFlags.None_
              = Ret (fst tinyReinsert, snd tinyReinsert)) by (vm_compute; reflexivity).
  assert (H3 : boxInFloat32Range (box 1 1 10 10) = true) by (vm_compute; reflexivity).
  pose proof (reinsert_keeps_handle (snd tinyInsert) "a" (box 1 1 10 10) ObjectFlags.None_
                tinyRecord (fst tinyReinsert) (snd tinyReinsert) tinyInsert_reachable
                tinyRecord_indexed H) as (C1 & C2 & _ & C4).
  exact (conj tinyInsert_reachable (conj tinyRecord_indexed (conj H (conj C1 (conj C2
           (conj H3 (C4 H3))))))).
Defined.

Lemma remove_twice_witness :
  reachable (snd tinyInsert) /\
  remove (snd tinyInsert) "a" = Ret tinyRemoved /\
  remove tinyRemoved "a" = Ret tinyRemoved.
Proof.
  assert (H : remove (snd tinyInsert) "a" = Ret tinyRemoved) by (vm_compute; reflexivity).
  exact (conj tinyInsert_reachable
           (conj H (proj1 (remove_twice (snd tinyInsert) "a" tinyRemoved
                             tinyInsert_reachable H)))).
Defined.

Lemma updateBoundingBox_round_trip_witness :
  reachable (snd tinyInsert) /\
  updateBoundingBox (snd tinyInsert) "a" tenthBox
  = Ret (fst tinyTenthUpdated, snd tinyTenthUpdated) /\
  objectIndex (snd tinyInsert) !! "a" = Some tinyRecord /\
  boxInFloat32Range tenthBox = true /\
  ur_handle (fst tinyTenthUpdated) = rec_handle tinyRecord /\
  readBoundingBox (snd tinyTenthUpdated) (rec_handle tinyRecord)
  = Some (mkBBox (13421773 # 134217728) 50 10 10).
Proof.
  assert (H : updateBoundingBox (snd tinyInsert) "a" tenthBox
              = Ret (fst tinyTenthUpdated, snd tinyTenthUpdated)) by (vm_compute; reflexivity).
  assert (G : boxInFloat32Range tenthBox = true) by (vm_compute; reflexivity).
  assert (E : Some (float32Box tenthBox) = Some (mkBBox (13421773 # 134217728) 50 10 10))
    by (vm_compute; reflexivity).
  pose proof (proj1 (updateBoundingBox_round_trip (snd tinyInsert) "a" tenthBox
                       (fst tinyTenthUpdated) (snd tinyTenthUpdated) tinyInsert_reachable H)
                    tinyRecord tinyRecord_indexed) as (C1 & _ & C3 & _).
  exact (conj tinyInsert_reachable
           (conj H (conj tinyRecord_indexed (conj G (conj C1 (eq_trans (C3 G) E)))))).
Defined.

Lemma updateBoundingBox_only_sets_flags_witness :
  reachable (snd tinyInsert) /\
  objectIndex (snd tinyInsert) !! "a" = Some tinyRecord /\
  updateBoundingBox (snd tinyInsert) "a" (box 1 1 10 10)
  = Ret (fst tinyUpdated, snd tinyUpdated) /\
  exists f f',
    tget (objectFlags (snd tinyInsert)) (rec_handle tinyRecord) = Some f /\
    tget (objectFlags (snd tinyUpdated)) (rec_handle tinyRecord) = Some f' /\
    Z.land f' f = f.
Proof.
  assert (H : updateBoundingBox (snd tinyInsert) "a" (box 1 1 10 10)
              = Ret (fst tinyUpdated, snd tinyUpdated)) by (vm_compute; reflexivity).
  pose proof (updateBoundingBox_only_sets_flags (snd tinyInsert) "a" (box 1 1 10 10)
                (fst tinyUpdated) (snd tinyUpdated) tinyRecord tinyInsert_reachable
                tinyRecord_indexed H) as (f & f' & C1 & C2 & C3 & _).
  split; [exact tinyInsert_reachable|]. split; [exact tinyRecord_indexed|].
  split; [exact H|]. exists f, f'. exact (conj C1 (conj C2 C3)).
Defined.

Lemma add_then_get_witness :
  reachable tinyStore /\ externalGetter tinyStore = None /\
  add tinyStore (drawn "a" (box 0 0 10 10)) = Ret tinyAdded /\
  get tinyAdded "a" = Some (filed tinyStore (drawn "a" (box 0 0 10 10))) /\
  boxInFloat32Range (box 0 0 10 10) = true /\
  exists rec, objectIndex tinyAdded !! "a" = Some rec /\
              readBoundingBox tinyAdded (rec_handle rec) = Some (float32Box (box 0 0 10 10)).
Proof.
  assert (H0 : externalGetter tinyStore = None) by (vm_compute; reflexivity).
  assert (H : add tinyStore (drawn "a" (box 0 0 10 10)) = Ret tinyAdded)
    by (vm_compute; reflexivity).
  assert (H3 : boxInFloat32Range (box 0 0 10 10) = true) by (vm_compute; reflexivity).
  pose proof (add_then_get tinyStore (drawn "a" (box 0 0 10 10)) tinyAdded
                tinyStore_reachable H0 H) as C.
  cbv zeta in C. destruct C as (C1 & _ & _ & rec & R1 & _ & R3).
  split; [exact tinyStore_reachable|]. split; [exact H0|]. split; [exact H|].
  split; [exact C1|]. split; [exact H3|].
  exists rec. exact (conj R1 (R3 H3)).
Defined.

Lemma add_command_undo_keeps_object_witness :
  reachable tinyStore /\ externalGetter tinyStore = None /\
  AddObjectCommand.do_ (drawn "a" (box 0 0 10 10)) tinyStore = Ret tinyAdded /\
  AddObjectCommand.undo (drawn "a" (box 0 0 10 10)) tinyAdded = Ret tinyUndone /\
  objectIndex tinyUndone !! "a" = None /\
  get tinyUndone "a" = Some (filed tinyStore (drawn "a" (box 0 0 10 10))).
Proof.
  assert (H0 : externalGetter tinyStore = None) by (vm_compute; reflexivity).
  assert (H1 : AddObjectCommand.do_ (drawn "a" (box 0 0 10 10)) tinyStore = Ret tinyAdded)
    by (vm_compute; reflexivity).
  assert (H2 : AddObjectCommand.undo (drawn "a" (box 0 0 10 10)) tinyAdded = Ret tinyUndone)
    by (vm_compute; reflexivity).
  pose proof (add_command_undo_keeps_object tinyStore (drawn "a" (box 0 0 10 10)) tinyAdded
                tinyUndone tinyStore_reachable H0 H1 H2) as (C1 & _ & C3).
  exact (conj tinyStore_reachable (conj H0 (conj H1 (conj H2 (conj C1 C3))))).
Defined.

Lemma remove_command_undo_restores_handle_witness :
  reachable (snd tinyInsert) /\
  DrawObject.id (drawn "a" (box 5 5 2 2)) = "a" /\
  objectIndex (snd tinyInsert) !! "a" = Some tinyRecord /\
  RemoveObjectCommand.do_ "a" (drawn "a" (box 5 5 2 2)) (snd tinyInsert) = Ret tinyRemoved /\
  RemoveObjectCommand.undo "a" (drawn "a" (box 5 5 2 2)) tinyRemoved = Ret tinyReadded /\
  boxInFloat32Range (box 5 5 2 2) = true /\
  exists rec', objectIndex tinyReadded !! "a" = Some rec' /\
               rec_handle rec' = rec_handle tinyRecord /\
               readBoundingBox tinyReadded (rec_handle tinyRecord)
               = Some (float32Box (box 5 5 2 2)).
Proof.
  assert (H3 : boxInFloat32Range (box 5 5 2 2) = true) by (vm_compute; reflexivity).
  assert (H0 : DrawObject.id (drawn "a" (box 5 5 2 2)) = "a") by reflexivity.
  assert (H1 : RemoveObjectCommand.do_ "a" (drawn "a" (box 5 5 2 2)) (snd tinyInsert)
               = Ret tinyRemoved) by (vm_compute; reflexivity).
  assert (H2 : RemoveObjectCommand.undo "a" (drawn "a" (box 5 5 2 2)) tinyRemoved
               = Ret tinyReadded) by (vm_compute; reflexivity).
  pose proof (remove_command_undo_restores_handle (snd tinyInsert) "a"
                (drawn "a" (box 5 5 2 2)) tinyRecord tinyRemoved tinyReadded
                tinyInsert_reachable H0 tinyRecord_indexed H1 H2)
    as (rec' & C1 & C2 & _ & C4 & _).
  split; [exact tinyInsert_reachable|]. split; [exact H0|].
  split; [exact tinyRecord_indexed|]. split; [exact H1|]. split; [exact H2|].
  split; [exact H3|].
  exists rec'. exact (conj C1 (conj C2 (C4 H3))).
Defined.

Lemma update_unknown_id_files_object_witness :
  externalGetter tinyStore = None /\ objectIndex tinyStore !! "zz" = None /\
  exists s', update tinyStore "zz" (drawn "zz" (box 0 0 1 1)) = Ret s' /\
             get s' "zz" = Some (fst (DrawObject.ensureBoundingBox (drawn "zz" (box 0 0 1 1)))).
Proof.
  assert (H0 : externalGetter tinyStore = None) by (vm_compute; reflexivity).
  assert (H1 : objectIndex tinyStore !! "zz" = None) by (vm_compute; reflexivity).
  pose proof (update_unknown_id_files_object tinyStore "zz" (drawn "zz" (box 0 0 1 1)) H0 H1)
    as (s' & C1 & C2 & _).
  split; [exact H0|]. split; [exact H1|]. exists s'. exact (conj C1 C2).
Defined.

Lemma bulkLoad_indexes_every_object_witness :
  reachable tinyStore /\
  bulkLoad tinyStore [drawn "a" (box 0 0 10 10); drawn "b" (box 20 20 5 5)] true
  = Ret (fst tinyLoaded, snd tinyLoaded) /\
  fst tinyLoaded = 2.
Proof.
  assert (H : bulkLoad tinyStore [drawn "a" (box 0 0 10 10); drawn "b" (box 20 20 5 5)] true
              = Ret (fst tinyLoaded, snd tinyLoaded)) by (vm_compute; reflexivity).
  exact (conj tinyStore_reachable
           (conj H (proj1 (bulkLoad_indexes_every_object tinyStore
                             [drawn "a" (box 0 0 10 10); drawn "b" (box 20 20 5 5)] true
                             (fst tinyLoaded) (snd tinyLoaded) tinyStore_reachable H)))).
Defined.

Lemma findObjectsIn_returns_indexed_objects_witness :
  reachable tinyAdded /\
  filed tinyStore (drawn "a" (box 0 0 10 10))
    ∈ fst (findObjectsIn tinyAdded (Rectangle.mk 0 0 20 20)) /\
  exists id rec bbox,
    objectIndex tinyAdded !! id = Some rec /\
    get tinyAdded id = Some (filed tinyStore (drawn "a" (box 0 0 10 10))) /\
    readBoundingBox tinyAdded (rec_handle rec) = Some bbox.
Proof.
  assert (H : filed tinyStore (drawn "a" (box 0 0 10 10))
                ∈ fst (findObjectsIn tinyAdded (Rectangle.mk 0 0 20 20))).
  { vm_compute. apply list_elem_of_here. }
  pose proof (findObjectsIn_returns_indexed_objects tinyAdded (Rectangle.mk 0 0 20 20) _
                tinyAdded_reachable H) as (id & rec & bbox & C1 & C2 & C3 & _).
  split; [exact tinyAdded_reachable|]. split; [exact H|].
  exists id, rec, bbox. exact (conj C1 (conj C2 C3)).
Defined.

Lemma findInBounds_reports_tested_handles_witness :
  let '(count, out', _) :=
    findInBounds (snd tinyInsert) (box 0 0 20 20) (tnew 4 (-7)) noFindOptions in
  0 <= 0 < count /\ tget out' 0 = Some 0 /\
  exists bbox, readBoundingBox (snd tinyInsert) 0 = Some bbox /\
               bboxIntersects bbox (box 0 0 20 20) = true.
Proof.
  pose proof (findInBounds_reports_tested_handles (snd tinyInsert) (box 0 0 20 20)
                (tnew 4 (-7)) noFindOptions) as H.
  destruct (findInBounds (snd tinyInsert) (box 0 0 20 20) (tnew 4 (-7)) noFindOptions)
    as [[count out'] s'] eqn:E.
  assert (Ec : count = 1 /\ out' = [0; -7; -7; -7]).
  { apply (f_equal fst) in E. vm_compute in E. injection E as <- <-. auto. }
  destruct Ec as [-> ->].
  assert (A : 0 <= 0 < 1) by lia.
  assert (B : tget [0; -7; -7; -7] 0 = Some 0) by reflexivity.
  destruct (H 0 0 A B) as (_ & _ & _ & Hbox & _).
  exact (conj A (conj B Hbox)).
Defined.

Lemma collectDynamicObjects_reports_dynamic_handles_witness :
  let '(count, out') := collectDynamicObjects (snd tinyDynamic) (tnew 2 (-7)) in
  0 <= 0 < count /\ tget out' 0 = Some 0 /\
  Z.land (default 0 (tget (objectFlags (snd tinyDynamic)) 0)) ObjectFlags.Dynamic
  = ObjectFlags.Dynamic.
Proof.
  pose proof (collectDynamicObjects_reports_dynamic_handles (snd tinyDynamic) (tnew 2 (-7)))
    as H.
  destruct (collectDynamicObjects (snd tinyDynamic) (tnew 2 (-7))) as [count out'] eqn:E.
  assert (Ec : count = 1 /\ out' = [0; -7]).
  { vm_compute in E. injection E as <- <-. auto. }
  destruct Ec as [-> ->].
  destruct H as (_ & _ & _ & H).
  assert (A : 0 <= 0 < 1) by lia.
  assert (B : tget [0; -7] 0 = Some 0) by reflexivity.
  exact (conj A (conj B (proj1 (H 0 0 A B)))).
Defined.
End IndexInstances.

Section PoolInstances.
Import NodePool NodePoolAccess.

Definition pool4 : NodePool.t := returned (NodePool.create 4).
Definition rootSquare : NodeBounds := createRootBounds (mkBBox 0 0 256 256).

Lemma pool4_wf : pool_wf pool4.
Proof. apply (pool_wf_create 4). vm_compute. reflexivity. Qed.


Lemma released_node_is_reused_witness :
  pool_wf pool4 /\ 0 <= 2 < getCapacity pool4 /\
  exists p', allocateNode (releaseNode pool4 2) (-1) 0 rootSquare = Ret (2, p') /\
             getActiveNodeCount p' = getActiveNodeCount pool4.
Proof.
  assert (H : 0 <= 2 < getCapacity pool4) by (change (getCapacity pool4) with 4; lia).
  pose proof (released_node_is_reused pool4 2 (-1) 0 rootSquare pool4_wf H)
    as (_ & _ & p' & C1 & C2 & _).
  split; [exact pool4_wf|]. split; [exact H|]. exists p'. exact (conj C1 C2).
Defined.
End PoolInstances.

Section GeometryInstances.
Import ObjectStore.



Lemma fitting_node_is_not_pruned_witness :
  fitsNode (snd tinyInsert) 0 (box 0 0 10 10) = true /\
  bboxIntersects (box 0 0 10 10) (box 5 5 10 10) = true /\
  nodeIntersects (snd tinyInsert) 0 (box 5 5 10 10) = true.
Proof.
  assert (H1 : fitsNode (snd tinyInsert) 0 (box 0 0 10 10) = true) by (vm_compute; reflexivity).
  assert (H2 : bboxIntersects (box 0 0 10 10) (box 5 5 10 10) = true)
    by (vm_compute; reflexivity).
  exact (conj H1 (conj H2 (fitting_node_is_not_pruned (snd tinyInsert) 0 (box 0 0 10 10)
                             (box 5 5 10 10) H1 H2))).
Defined.
End GeometryInstances.

Section CacheInstances.
Import ChunkManager ObjectUtils.

Definition freshChunkUpdated : Chunk * list RebuildEvent :=
  returned (update alwaysDrawn (newChunk 0 0) nearView (fun _ => None)).




Lemma declared_object_holds_computed_segments_witness :
  DrawObject.bbox (drawn "a" (box 5000 5000 10 10)) = Some (box 5000 5000 10 10) /\
  objects (addObjects ChunkManager.empty
             ([drawn "a" (box 0 0 10 10)] ++ [drawn "a" (box 5000 5000 10 10)]))
    !! "a" = Some (drawn "a" (box 5000 5000 10 10)).
Proof.
  assert (H : DrawObject.bbox (drawn "a" (box 5000 5000 10 10)) = Some (box 5000 5000 10 10))
    by reflexivity.
  exact (conj H (proj2 (proj2 (proj2
    (declared_object_holds_computed_segments [drawn "a" (box 0 0 10 10)]
       (drawn "a" (box 5000 5000 10 10)) (box 5000 5000 10 10) H))))).
Defined.



Lemma update_leaves_chunk_clean_witness :
  update alwaysDrawn (newChunk 0 0) nearView (fun _ => None)
  = Ret (fst freshChunkUpdated, snd freshChunkUpdated) /\
  isDirty (fst freshChunkUpdated) = false.
Proof.
  assert (H : update alwaysDrawn (newChunk 0 0) nearView (fun _ => None)
              = Ret (fst freshChunkUpdated, snd freshChunkUpdated))
    by (vm_compute; reflexivity).
  exact (conj H (proj1 (update_leaves_chunk_clean alwaysDrawn (newChunk 0 0) nearView
                          (fun _ => None) (fst freshChunkUpdated) (snd freshChunkUpdated) H))).
Defined.

Lemma computeLOD_is_monotone_in_scale_witness :
  (scale (mkViewport (1 # 2) None) <= scale (mkViewport 2 None))%Q /\
  computeLOD (drawn "a" (box 0 0 100 100)) (mkViewport (1 # 2) None) = Ret Mid /\
  computeLOD (drawn "a" (box 0 0 100 100)) (mkViewport 2 None) = Ret Near /\
  bandRank Near <= bandRank Mid.
Proof.
  assert (H0 : (scale (mkViewport (1 # 2) None) <= scale (mkViewport 2 None))%Q)
    by (vm_compute; discriminate).
  assert (H1 : computeLOD (drawn "a" (box 0 0 100 100)) (mkViewport (1 # 2) None) = Ret Mid)
    by (vm_compute; reflexivity).
  assert (H2 : computeLOD (drawn "a" (box 0 0 100 100)) (mkViewport 2 None) = Ret Near)
    by (vm_compute; reflexivity).
  exact (conj H0 (conj H1 (conj H2
    (proj1 (computeLOD_is_monotone_in_scale (drawn "a" (box 0 0 100 100))
              (mkViewport (1 # 2) None) (mkViewport 2 None) Mid Near H0 H1 H2))))).
Defined.
End CacheInstances.
